(** * Enter the Gungeon: combat core of [enter_the_gungeon.py]

    A shallow embedding of the simulation classes of the game
    ([Vector2], [Bullet], [Gun], [Player], [Enemy], [Room], [Door],
    [HazardRoom], [MultiRoomSystem]) together with the properties that
    the design document states about them.

    Conventions of the embedding.
    - Python floats are idealised as real numbers ([R]); Python ints that
      are only ever combined with ints (health, armor, ammo, damage,
      money) are [Z].
    - Methods that mutate [self] become functions that return the new
      object (and the method's return value, when it has one).
    - Python compares bullets and enemies by identity; every such object
      carries an identity field ([bid], [eid]) that no method changes.
    - Calls to [random] read an explicit tape of draws. *)

From Stdlib Require Import Reals Lra Lia ZArith List Bool Ascii String.
From stdpp Require Import base decidable gmap sets strings.
Import ListNotations.

Local Open Scope Z_scope.

(** ** Numbers *)

(** [a < b] on floats, as a boolean. *)
Definition Rltb (a b : R) : bool := if Rlt_dec a b then true else false.

(** [a <= b] on floats, as a boolean. *)
Definition Rleb (a b : R) : bool := if Rle_dec a b then true else false.

(** [a == b] on floats, as a boolean. *)
Definition Reqb (a b : R) : bool := if Req_dec_T a b then true else false.

(** Python's [int(x)] on a float: truncation toward zero. *)
Definition py_int (x : R) : Z :=
  if Rle_dec 0 x then Zfloor x else Zceil x.

(** Python's [int(x // 16)]: the tile index of a world coordinate. *)
Definition tile_of (x : R) : Z := Zfloor (x / 16).

(** [math.atan2(y, x)]. *)
Definition atan2 (y x : R) : R :=
  if Rlt_dec 0 x then atan (y / x)
  else if Rlt_dec x 0 then
    (if Rle_dec 0 y then atan (y / x) + PI else atan (y / x) - PI)%R
  else if Rlt_dec 0 y then (PI / 2)%R
  else if Rlt_dec y 0 then (- PI / 2)%R
  else 0%R.

(** ** class Vector2 *)
Module Vector2.

Record t : Type := mk { x : R; y : R }.

Definition add (a b : t) : t := mk (x a + x b) (y a + y b).
Definition sub (a b : t) : t := mk (x a - x b) (y a - y b).
Definition mul (a : t) (scalar : R) : t := mk (x a * scalar) (y a * scalar).

Definition normalize (a : t) : t :=
  let length := sqrt ((x a) ^ 2 + (y a) ^ 2) in
  if Rlt_dec 0 length then mk (x a / length) (y a / length) else mk 0 0.

Definition distance_to (a b : t) : R :=
  sqrt ((x a - x b) ^ 2 + (y a - y b) ^ 2).

Definition angle_to (a b : t) : R := atan2 (y b - y a) (x b - x a).

End Vector2.

Abbreviation Vector2 := Vector2.t.
Notation "a +v b" := (Vector2.add a b) (at level 50, left associativity).
Notation "a -v b" := (Vector2.sub a b) (at level 50, left associativity).
Notation "a *v k" := (Vector2.mul a k) (at level 40, left associativity).

(** ** class Bullet *)
Module Bullet.

(** The colour of a bullet is cosmetic and is left out. *)
Record t : Type := mk {
  bid : nat;
  pos : Vector2;
  velocity : Vector2;
  damage : Z;
  size : R;
  lifetime : R;
  age : R
}.

(** [Bullet(x, y, angle, speed, damage, size=4)], created as object [i]. *)
Definition init (i : nat) (px py angle speed : R) (dmg : Z) (sz : R) : t :=
  mk i (Vector2.mk px py)
     (Vector2.mk (cos angle * speed) (sin angle * speed))
     dmg sz 5 0.

(** [update(dt)]: the moved bullet and whether it is still alive. *)
Definition update (dt : R) (b : t) : t * bool :=
  let age' := (age b + dt)%R in
  (mk (bid b) (pos b +v velocity b *v dt) (velocity b) (damage b) (size b)
      (lifetime b) age',
   Rltb age' (lifetime b)).

End Bullet.

Abbreviation Bullet := Bullet.t.

(** ** class Gun *)
Module Gun.

Record t : Type := mk {
  name : string;
  damage : Z;
  fire_rate : R;
  bullet_speed : R;
  accuracy : R;
  ammo : Z;
  pellets : Z;
  fire_timer : R
}.

Definition can_fire (g : t) : bool :=
  Rleb (fire_timer g) 0 && ((0 <? ammo g) || (ammo g =? -1)).

(** The angle of pellet [i]; [u] is the value that [random.uniform]
    returns for it. *)
Definition pellet_angle (g : t) (angle : R) (i : Z) (u : R) : R :=
  if 1 <? pellets g then
    (angle + (IZR i - (IZR (pellets g) - 1) / 2)
             * (0.4 / (IZR (pellets g) - 1)))%R
  else (angle + u)%R.

(** [fire(x, y, angle)].  [draws i] is the outcome of the
    [random.uniform(-spread, spread)] call of pellet [i], and [fresh]
    the identity of the first bullet object created. *)
Definition fire (draws : nat -> R) (fresh : nat) (px py angle : R) (g : t)
  : t * list Bullet :=
  if can_fire g then
    let g' := mk (name g) (damage g) (fire_rate g) (bullet_speed g)
                 (accuracy g)
                 (if 0 <? ammo g then ammo g - 1 else ammo g)
                 (pellets g) (1 / fire_rate g) in
    (g',
     map (fun i : nat =>
            Bullet.init (fresh + i) px py
              (pellet_angle g angle (Z.of_nat i) (draws i))
              (bullet_speed g) (damage g) 4)
         (seq 0 (Z.to_nat (pellets g))))
  else (g, []).

Definition update (dt : R) (g : t) : t :=
  mk (name g) (damage g) (fire_rate g) (bullet_speed g) (accuracy g)
     (ammo g) (pellets g) (Rmax 0 (fire_timer g - dt)).

End Gun.

Abbreviation Gun := Gun.t.

(** ** class Camera *)
Module Camera.

Record t : Type := mk {
  x : R;
  y : R;
  target_x : R;
  target_y : R;
  smoothing : R
}.

(** [Camera()]. *)
Definition init : t := mk 0 0 0 0 0.15.

(** [follow(target_x, target_y)], with [GAME_WIDTH // 2 = 200] and
    [GAME_HEIGHT // 2 = 112]. *)
Definition follow (tx ty : R) (c : t) : t :=
  mk (x c) (y c) (tx - 200) (ty - 112) (smoothing c).

(** [update(dt)]; the time step is not used. *)
Definition update (dt : R) (c : t) : t :=
  mk (x c + (target_x c - x c) * smoothing c)
     (y c + (target_y c - y c) * smoothing c)
     (target_x c) (target_y c) (smoothing c).

End Camera.

Abbreviation Camera := Camera.t.

(** ** class Player *)
Module Player.

Record t : Type := mk {
  pos : Vector2;
  velocity : Vector2;
  size : R;
  speed : R;
  health : Z;
  max_health : Z;
  armor : Z;
  dodge_speed : R;
  dodge_duration : R;
  dodge_cooldown : R;
  is_dodging : bool;
  dodge_timer : R;
  dodge_cooldown_timer : R;
  dodge_direction : Vector2;
  invulnerable : bool;
  damage_flash_timer : R;
  guns : list Gun;
  current_gun : nat;
  facing_angle : R;
  money : Z
}.

(** [Player(x, y)]. *)
Definition init (px py : R) : t :=
  mk (Vector2.mk px py) (Vector2.mk 0 0) 8 120 100 100 0
     250 0.4 1 false 0 0 (Vector2.mk 0 0) false 0
     [ Gun.mk "Rusty Sidearm" 8 3 200 0.9 (-1) 1 0;
       Gun.mk "Shotgun" 12 1.5 180 0.7 50 5 0 ]
     0%nat 0 0.

Definition set_pos (p : t) (v : Vector2) : t :=
  mk v (velocity p) (size p) (speed p) (health p) (max_health p) (armor p)
     (dodge_speed p) (dodge_duration p) (dodge_cooldown p) (is_dodging p)
     (dodge_timer p) (dodge_cooldown_timer p) (dodge_direction p)
     (invulnerable p) (damage_flash_timer p) (guns p) (current_gun p)
     (facing_angle p) (money p).

Definition set_health (p : t) (h : Z) : t :=
  mk (pos p) (velocity p) (size p) (speed p) h (max_health p) (armor p)
     (dodge_speed p) (dodge_duration p) (dodge_cooldown p) (is_dodging p)
     (dodge_timer p) (dodge_cooldown_timer p) (dodge_direction p)
     (invulnerable p) (damage_flash_timer p) (guns p) (current_gun p)
     (facing_angle p) (money p).

Definition set_money (p : t) (m : Z) : t :=
  mk (pos p) (velocity p) (size p) (speed p) (health p) (max_health p)
     (armor p)
     (dodge_speed p) (dodge_duration p) (dodge_cooldown p) (is_dodging p)
     (dodge_timer p) (dodge_cooldown_timer p) (dodge_direction p)
     (invulnerable p) (damage_flash_timer p) (guns p) (current_gun p)
     (facing_angle p) m.

(** [take_damage(amount)]: the player afterwards, and the returned flag. *)
Definition take_damage (amount : Z) (p : t) : t * bool :=
  if negb (invulnerable p) then
    let armor' := if 0 <? armor p then armor p - 1 else armor p in
    let health' :=
      if 0 <? armor p then health p else Z.max 0 (health p - amount) in
    (mk (pos p) (velocity p) (size p) (speed p) health' (max_health p)
        armor'
        (dodge_speed p) (dodge_duration p) (dodge_cooldown p)
        (is_dodging p) (dodge_timer p) (dodge_cooldown_timer p)
        (dodge_direction p) true 0.6 (guns p) (current_gun p)
        (facing_angle p) (money p),
     true)
  else (p, false).

(** [inputs.get(key, False)] on the dictionary of pressed keys. *)
Definition pressed (inputs : gmap string bool) (key : string) : bool :=
  default false (inputs !! key).

(** The movement direction that [update] reads off the keys, before it
    is normalised. *)
Definition move_dir (inputs : gmap string bool) : Vector2 :=
  let x0 := 0%R in
  let x1 := if pressed inputs "left" then (x0 - 1)%R else x0 in
  let x2 := if pressed inputs "right" then (x1 + 1)%R else x1 in
  let y0 := 0%R in
  let y1 := if pressed inputs "up" then (y0 - 1)%R else y0 in
  let y2 := if pressed inputs "down" then (y1 + 1)%R else y1 in
  Vector2.mk x2 y2.

(** [update(dt, inputs, mouse_pos, camera)]. *)
Definition update (dt : R) (inputs : gmap string bool) (mouse_pos : R * R)
    (camera : Camera) (p : t) : t :=
  let dodge_cooldown_timer' := Rmax 0 (dodge_cooldown_timer p - dt) in
  let damage_flash_timer' := Rmax 0 (damage_flash_timer p - dt) in
  (* end invulnerability after the damage flash *)
  let invulnerable1 :=
    if Rleb damage_flash_timer' 0 && invulnerable p && negb (is_dodging p)
    then false else invulnerable p in
  if is_dodging p then
    let dodge_timer1 := (dodge_timer p + dt)%R in
    if Rleb (dodge_duration p) dodge_timer1 then
      mk (pos p +v velocity p *v dt) (velocity p) (size p) (speed p)
         (health p) (max_health p) (armor p)
         (dodge_speed p) (dodge_duration p) (dodge_cooldown p)
         false 0 dodge_cooldown_timer' (dodge_direction p)
         false damage_flash_timer'
         (map (Gun.update dt) (guns p)) (current_gun p)
         (facing_angle p) (money p)
    else
      let progress := (dodge_timer1 / dodge_duration p)%R in
      let ease_factor := (1 - progress * progress)%R in
      let velocity' := dodge_direction p *v dodge_speed p *v ease_factor in
      mk (pos p +v velocity' *v dt) velocity' (size p) (speed p)
         (health p) (max_health p) (armor p)
         (dodge_speed p) (dodge_duration p) (dodge_cooldown p)
         true dodge_timer1 dodge_cooldown_timer' (dodge_direction p)
         invulnerable1 damage_flash_timer'
         (map (Gun.update dt) (guns p)) (current_gun p)
         (facing_angle p) (money p)
  else
    let dir := move_dir inputs in
    let dir :=
      if negb (Reqb (Vector2.x dir) 0) || negb (Reqb (Vector2.y dir) 0)
      then Vector2.normalize dir else dir in
    let velocity' := dir *v speed p in
    let world_mouse_x := (fst mouse_pos + Camera.x camera)%R in
    let world_mouse_y := (snd mouse_pos + Camera.y camera)%R in
    mk (pos p +v velocity' *v dt) velocity' (size p) (speed p)
       (health p) (max_health p) (armor p)
       (dodge_speed p) (dodge_duration p) (dodge_cooldown p)
       false (dodge_timer p) dodge_cooldown_timer' (dodge_direction p)
       invulnerable1 damage_flash_timer'
       (map (Gun.update dt) (guns p)) (current_gun p)
       (atan2 (world_mouse_y - Vector2.y (pos p))
              (world_mouse_x - Vector2.x (pos p)))
       (money p).

(** [dodge_roll()]. *)
Definition dodge_roll (p : t) : t :=
  if negb (is_dodging p) && Rleb (dodge_cooldown_timer p) 0 then
    mk (pos p) (velocity p) (size p) (speed p)
       (health p) (max_health p) (armor p)
       (dodge_speed p) (dodge_duration p) (dodge_cooldown p)
       true 0 (dodge_cooldown p)
       (if negb (Reqb (Vector2.x (velocity p)) 0)
           || negb (Reqb (Vector2.y (velocity p)) 0)
        then Vector2.normalize (velocity p)
        else Vector2.mk (cos (facing_angle p)) (sin (facing_angle p)))
       true (damage_flash_timer p) (guns p) (current_gun p)
       (facing_angle p) (money p)
  else p.

Definition set_guns (p : t) (gs : list Gun) : t :=
  mk (pos p) (velocity p) (size p) (speed p) (health p) (max_health p)
     (armor p)
     (dodge_speed p) (dodge_duration p) (dodge_cooldown p) (is_dodging p)
     (dodge_timer p) (dodge_cooldown_timer p) (dodge_direction p)
     (invulnerable p) (damage_flash_timer p) gs (current_gun p)
     (facing_angle p) (money p).

(** [fire_weapon()]: the player afterwards and the bullets fired; [None]
    stands for the [IndexError] of [self.guns[self.current_gun]]. *)
Definition fire_weapon (draws : nat -> R) (fresh : nat) (p : t)
  : option (t * list Bullet) :=
  match guns p !! current_gun p with
  | None => None
  | Some gun =>
      let '(gun', bullets) :=
        Gun.fire draws fresh (Vector2.x (pos p)) (Vector2.y (pos p))
                 (facing_angle p) gun in
      Some (set_guns p (<[current_gun p := gun']> (guns p)), bullets)
  end.

Definition set_current_gun (p : t) (i : nat) : t :=
  mk (pos p) (velocity p) (size p) (speed p) (health p) (max_health p)
     (armor p)
     (dodge_speed p) (dodge_duration p) (dodge_cooldown p) (is_dodging p)
     (dodge_timer p) (dodge_cooldown_timer p) (dodge_direction p)
     (invulnerable p) (damage_flash_timer p) (guns p) i
     (facing_angle p) (money p).

(** [switch_weapon()]; [None] stands for the [ZeroDivisionError] of an
    empty gun list. *)
Definition switch_weapon (p : t) : option t :=
  match guns p with
  | [] => None
  | _ :: _ =>
      Some (set_current_gun p
              ((current_gun p + 1) mod length (guns p))%nat)
  end.

End Player.

Abbreviation Player := Player.t.

(** ** class Door *)
Module Door.

Inductive direction_t : Type := horizontal | vertical.

Record t : Type := mk {
  x : R;
  y : R;
  pos : Vector2;
  direction : direction_t;
  is_open : bool;
  open_progress : R;
  open_speed : R;
  width : Z;
  height : Z
}.

(** [Door(x, y, direction)]. *)
Definition init (dx dy : R) (d : direction_t) : t :=
  mk dx dy (Vector2.mk dx dy) d false 0 3
     (match d with horizontal => 32 | vertical => 16 end)
     (match d with horizontal => 16 | vertical => 32 end).

(** [update(dt, player_nearby)]. *)
Definition update (dt : R) (player_nearby : bool) (d : t) : t :=
  let target_progress := (if player_nearby then 1 else 0)%R in
  let progress' :=
    if Rlt_dec (open_progress d) target_progress then
      Rmin 1 (open_progress d + open_speed d * dt)
    else if Rlt_dec target_progress (open_progress d) then
      Rmax 0 (open_progress d - open_speed d * dt)
    else open_progress d in
  mk (x d) (y d) (pos d) (direction d) (Rltb 0.5 progress') progress'
     (open_speed d) (width d) (height d).

Definition can_pass_through (d : t) : bool := is_open d.

Definition get_collision_rect (d : t) : option (R * R * Z * Z) :=
  if is_open d then None else Some (x d, y d, width d, height d).

End Door.

Abbreviation Door := Door.t.

(** ** class Enemy (and its subclass Boss) *)
Module Enemy.

(** [enemy_type] is one of four strings. *)
Inductive enemy_type_t : Type := basic | aggressive | sniper | rusher.

(** The attributes that [Boss.__init__] adds to an enemy. *)
Record boss_t : Type := mk_boss {
  phase : Z;
  special_attack_timer : R;
  special_attack_cooldown : R
}.

Record t : Type := mk {
  eid : nat;
  pos : Vector2;
  velocity : Vector2;
  size : R;
  health : Z;
  max_health : Z;
  speed : R;
  fire_timer : R;
  fire_rate : R;
  detection_range : R;
  damage : Z;
  contact_damage : Z;
  contact_damage_cooldown : R;
  last_contact_damage : R;
  enemy_type : enemy_type_t;
  state : string;
  state_timer : R;
  patrol_target : Vector2;
  circle_angle : R;
  circle_radius : R;
  retreat_timer : R;
  sight_blocked : bool;
  boss : option boss_t   (* [Some _] exactly for instances of [Boss] *)
}.

(** The outcomes of the calls to [random] that one [update] can make:
    two [random.randint] and one [random.random()]. *)
Record draws : Type := mk_draws { int1 : Z; int2 : Z; unit : R }.

Definition set_pos (e : t) (p : Vector2) : t :=
  mk (eid e) p (velocity e) (size e) (health e) (max_health e) (speed e)
     (fire_timer e) (fire_rate e) (detection_range e) (damage e)
     (contact_damage e) (contact_damage_cooldown e) (last_contact_damage e)
     (enemy_type e) (state e) (state_timer e) (patrol_target e)
     (circle_angle e) (circle_radius e) (retreat_timer e) (sight_blocked e)
     (boss e).

Definition set_velocity (e : t) (v : Vector2) : t :=
  mk (eid e) (pos e) v (size e) (health e) (max_health e) (speed e)
     (fire_timer e) (fire_rate e) (detection_range e) (damage e)
     (contact_damage e) (contact_damage_cooldown e) (last_contact_damage e)
     (enemy_type e) (state e) (state_timer e) (patrol_target e)
     (circle_angle e) (circle_radius e) (retreat_timer e) (sight_blocked e)
     (boss e).

Definition set_health (e : t) (h : Z) : t :=
  mk (eid e) (pos e) (velocity e) (size e) h (max_health e) (speed e)
     (fire_timer e) (fire_rate e) (detection_range e) (damage e)
     (contact_damage e) (contact_damage_cooldown e) (last_contact_damage e)
     (enemy_type e) (state e) (state_timer e) (patrol_target e)
     (circle_angle e) (circle_radius e) (retreat_timer e) (sight_blocked e)
     (boss e).

Definition set_fire_timer (e : t) (ft : R) : t :=
  mk (eid e) (pos e) (velocity e) (size e) (health e) (max_health e)
     (speed e) ft (fire_rate e) (detection_range e) (damage e)
     (contact_damage e) (contact_damage_cooldown e) (last_contact_damage e)
     (enemy_type e) (state e) (state_timer e) (patrol_target e)
     (circle_angle e) (circle_radius e) (retreat_timer e) (sight_blocked e)
     (boss e).

Definition set_last_contact_damage (e : t) (l : R) : t :=
  mk (eid e) (pos e) (velocity e) (size e) (health e) (max_health e)
     (speed e) (fire_timer e) (fire_rate e) (detection_range e) (damage e)
     (contact_damage e) (contact_damage_cooldown e) l
     (enemy_type e) (state e) (state_timer e) (patrol_target e)
     (circle_angle e) (circle_radius e) (retreat_timer e) (sight_blocked e)
     (boss e).

Definition set_state_timer (e : t) (s : R) : t :=
  mk (eid e) (pos e) (velocity e) (size e) (health e) (max_health e)
     (speed e) (fire_timer e) (fire_rate e) (detection_range e) (damage e)
     (contact_damage e) (contact_damage_cooldown e) (last_contact_damage e)
     (enemy_type e) (state e) s (patrol_target e)
     (circle_angle e) (circle_radius e) (retreat_timer e) (sight_blocked e)
     (boss e).

Definition set_patrol_target (e : t) (p : Vector2) : t :=
  mk (eid e) (pos e) (velocity e) (size e) (health e) (max_health e)
     (speed e) (fire_timer e) (fire_rate e) (detection_range e) (damage e)
     (contact_damage e) (contact_damage_cooldown e) (last_contact_damage e)
     (enemy_type e) (state e) (state_timer e) p
     (circle_angle e) (circle_radius e) (retreat_timer e) (sight_blocked e)
     (boss e).

Definition set_circle_angle (e : t) (a : R) : t :=
  mk (eid e) (pos e) (velocity e) (size e) (health e) (max_health e)
     (speed e) (fire_timer e) (fire_rate e) (detection_range e) (damage e)
     (contact_damage e) (contact_damage_cooldown e) (last_contact_damage e)
     (enemy_type e) (state e) (state_timer e) (patrol_target e)
     a (circle_radius e) (retreat_timer e) (sight_blocked e)
     (boss e).

Definition set_sight_blocked (e : t) (b : bool) : t :=
  mk (eid e) (pos e) (velocity e) (size e) (health e) (max_health e)
     (speed e) (fire_timer e) (fire_rate e) (detection_range e) (damage e)
     (contact_damage e) (contact_damage_cooldown e) (last_contact_damage e)
     (enemy_type e) (state e) (state_timer e) (patrol_target e)
     (circle_angle e) (circle_radius e) (retreat_timer e) b
     (boss e).

Definition set_boss (e : t) (b : option boss_t) : t :=
  mk (eid e) (pos e) (velocity e) (size e) (health e) (max_health e)
     (speed e) (fire_timer e) (fire_rate e) (detection_range e) (damage e)
     (contact_damage e) (contact_damage_cooldown e) (last_contact_damage e)
     (enemy_type e) (state e) (state_timer e) (patrol_target e)
     (circle_angle e) (circle_radius e) (retreat_timer e) (sight_blocked e)
     b.

(** [Enemy(x, y, enemy_type, level)], created as object [i]; the two
    [randint(-50, 50)] of the patrol target are [int1 d] and [int2 d]. *)
Definition init (i : nat) (d : draws) (px py : R) (ty : enemy_type_t)
    (level : Z) : t :=
  let speed0 : R :=
    match ty with
    | aggressive => 80 | sniper => 40 | rusher => 100 | basic => 60
    end%R in
  let fire_rate0 : R :=
    match ty with
    | aggressive => 0.8 | sniper => 0.3 | rusher => 0.2 | basic => 0.5
    end%R in
  let contact0 : Z :=
    match ty with aggressive => 18 | rusher => 20 | _ => 12 end in
  let damage0 : Z :=
    match ty with
    | aggressive => 10 | sniper => 15 | rusher => 6 | basic => 8
    end in
  let range0 : R := match ty with sniper => 250 | _ => 180 end%R in
  let size0 : R := match ty with rusher => 6 | _ => 8 end%R in
  let level_multiplier := (1 + 0.15 * (IZR level - 1))%R in
  let health1 := Z.max 1 (py_int (30 * level_multiplier)) in
  let late := 3 <? level in
  mk i (Vector2.mk px py) (Vector2.mk 0 0) size0 health1 health1
     (if late
      then IZR (py_int (speed0 * (1 + 0.05 * (IZR level - 3))))
      else speed0)
     0 fire_rate0
     (if late
      then IZR (py_int (range0 * (1 + 0.1 * (IZR level - 3))))
      else range0)
     (Z.max 1 (py_int (IZR damage0 * level_multiplier)))
     (Z.max 1 (py_int (IZR contact0 * level_multiplier)))
     2 0 ty "patrol" 0
     (Vector2.mk (px + IZR (int1 d)) (py + IZR (int2 d)))
     0 80 0 false None.

(** The sampling loop of [check_line_of_sight]: [n] more steps from
    [current_pos]. *)
Fixpoint sight_loop (walls : gset (Z * Z)) (step_vec : Vector2) (n : nat)
    (current_pos : Vector2) : bool :=
  match n with
  | O => false
  | S n' =>
      let current_pos := current_pos +v step_vec in
      let tile_x := tile_of (Vector2.x current_pos) in
      let tile_y := tile_of (Vector2.y current_pos) in
      if bool_decide ((tile_x, tile_y) ∈ walls) then true
      else sight_loop walls step_vec n' current_pos
  end.

(** [check_line_of_sight(player_pos, walls)]: [true] means blocked. *)
Definition check_line_of_sight (player_pos : Vector2)
    (walls : gset (Z * Z)) (e : t) : bool :=
  let direction := player_pos -v pos e in
  let distance := Vector2.distance_to direction (Vector2.mk 0 0) in
  if Reqb distance 0 || Rltb distance 8 then false
  else
    let steps := py_int (distance / 8) in
    if steps =? 0 then false
    else
      let step_vec := direction *v (1 / IZR steps) in
      sight_loop walls step_vec (Z.to_nat steps)
                 (Vector2.mk (Vector2.x (pos e)) (Vector2.y (pos e))).

Definition rusher_behavior (player_pos : Vector2) (distance : R) (e : t)
  : t :=
  if Rlt_dec 30 distance then
    let direction := Vector2.normalize (player_pos -v pos e) in
    set_velocity e (direction *v speed e)
  else
    let e := set_circle_angle e (circle_angle e + 0.05) in
    let circle_pos :=
      player_pos +v Vector2.mk (cos (circle_angle e) * 25)
                               (sin (circle_angle e) * 25) in
    let direction := Vector2.normalize (circle_pos -v pos e) in
    set_velocity e (direction *v speed e *v 0.7).

Definition sniper_behavior (player_pos : Vector2) (distance : R) (e : t)
  : t :=
  if Rlt_dec 120 distance then
    let direction := Vector2.normalize (player_pos -v pos e) in
    set_velocity e (direction *v speed e *v 0.6)
  else if Rlt_dec distance 80 then
    let direction := Vector2.normalize (pos e -v player_pos) in
    set_velocity e (direction *v speed e *v 0.8)
  else
    let perpendicular :=
      Vector2.normalize
        (Vector2.mk (- Vector2.y (velocity e)) (Vector2.x (velocity e))) in
    if Rlt_dec 2 (state_timer e) then
      let e := set_state_timer e 0 in
      set_velocity e (perpendicular *v (-1) *v speed e *v 0.4)
    else set_velocity e (perpendicular *v speed e *v 0.4).

Definition navigate_around_obstacles (d : draws) (player_pos : Vector2)
    (e : t) : t :=
  let direction_to_player := Vector2.normalize (player_pos -v pos e) in
  let left_direction :=
    Vector2.mk (- Vector2.y direction_to_player)
               (Vector2.x direction_to_player) in
  let right_direction :=
    Vector2.mk (Vector2.y direction_to_player)
               (- Vector2.x direction_to_player) in
  if Rlt_dec (unit d) 0.5 then
    set_velocity e (left_direction *v speed e *v 0.6)
  else set_velocity e (right_direction *v speed e *v 0.6).

Definition smart_chase_behavior (d : draws) (player_pos : Vector2)
    (distance : R) (e : t) : t :=
  if sight_blocked e then navigate_around_obstacles d player_pos e
  else if Rlt_dec 100 distance then
    let predicted_pos :=
      player_pos +v Vector2.mk (IZR (int1 d)) (IZR (int2 d)) in
    let direction := Vector2.normalize (predicted_pos -v pos e) in
    set_velocity e (direction *v speed e)
  else if Rlt_dec 50 distance then
    let angle_to_player := Vector2.angle_to (pos e) player_pos in
    let circle_angle :=
      (angle_to_player + PI / 2 + sin (state_timer e * 2) * 0.5)%R in
    let direction := Vector2.mk (cos circle_angle) (sin circle_angle) in
    set_velocity e (direction *v speed e *v 0.7)
  else
    let direction := Vector2.normalize (pos e -v player_pos) in
    set_velocity e (direction *v speed e *v 0.5).

Definition update_ai_behavior (d : draws) (dt : R) (player_pos : Vector2)
    (walls : gset (Z * Z)) (distance_to_player : R) (e : t) : t :=
  let e := set_sight_blocked e (check_line_of_sight player_pos walls e) in
  match enemy_type e with
  | rusher => rusher_behavior player_pos distance_to_player e
  | sniper => sniper_behavior player_pos distance_to_player e
  | _ => smart_chase_behavior d player_pos distance_to_player e
  end.

Definition patrol_behavior (d : draws) (dt : R) (e : t) : t :=
  let direction := patrol_target e -v pos e in
  if Rlt_dec (Vector2.distance_to direction (Vector2.mk 0 0)) 20 then
    set_patrol_target e
      (pos e +v Vector2.mk (IZR (int1 d)) (IZR (int2 d)))
  else set_velocity e (Vector2.normalize direction *v speed e *v 0.3).

(** The two counters that [update] advances before it looks at the
    player. *)
Definition tick (dt : R) (e : t) : t :=
  let e := set_state_timer e (state_timer e + dt) in
  set_last_contact_damage e (last_contact_damage e + dt).

(** The end of [update]: integrate the velocity, advance the fire timer. *)
Definition move (dt : R) (e : t) : t :=
  let e := set_pos e (pos e +v velocity e *v dt) in
  set_fire_timer e (fire_timer e + dt).

(** [Enemy.update(dt, player_pos, walls)]. *)
Definition update (d : draws) (dt : R) (player_pos : Vector2)
    (walls : gset (Z * Z)) (e : t) : t :=
  let e := tick dt e in
  let distance_to_player := Vector2.distance_to (pos e) player_pos in
  let e :=
    if Rlt_dec distance_to_player (detection_range e) then
      update_ai_behavior d dt player_pos walls distance_to_player e
    else patrol_behavior d dt e in
  move dt e.

Definition can_fire (e : t) : bool :=
  Rleb (1 / fire_rate e) (fire_timer e) && negb (sight_blocked e).

(** [fire_at_player(player_pos)]; a bullet it creates is object [fresh]. *)
Definition fire_at_player (fresh : nat) (player_pos : Vector2) (e : t)
  : t * list Bullet :=
  if can_fire e then
    let angle := Vector2.angle_to (pos e) player_pos in
    let bullet_speed : R :=
      match enemy_type e with
      | sniper => 200 | aggressive => 160 | _ => 150
      end%R in
    (set_fire_timer e 0,
     [Bullet.init fresh (Vector2.x (pos e)) (Vector2.y (pos e)) angle
                  bullet_speed (damage e) 3])
  else (e, []).

Definition can_contact_damage (e : t) : bool :=
  Rleb (contact_damage_cooldown e) (last_contact_damage e).

(** [deal_contact_damage()]: the enemy afterwards and the damage dealt. *)
Definition deal_contact_damage (e : t) : t * Z :=
  if can_contact_damage e then
    (set_last_contact_damage e 0, contact_damage e)
  else (e, 0).

(** [take_damage(amount)]: the enemy afterwards and whether it died. *)
Definition take_damage (amount : Z) (e : t) : t * bool :=
  let h := Z.max 0 (health e - amount) in
  (set_health e h, h <=? 0).

End Enemy.

Abbreviation Enemy := Enemy.t.

(** ** class Boss(Enemy) *)
Module Boss.

(** [Boss(x, y, level)], created as object [i]. *)
Definition init (i : nat) (d : Enemy.draws) (px py : R) (level : Z)
  : Enemy :=
  let e := Enemy.init i d px py Enemy.basic level in
  let h := 200 + level * 50 in
  Enemy.mk (Enemy.eid e) (Enemy.pos e) (Enemy.velocity e) 20 h h 40
     (Enemy.fire_timer e) 2 300 (15 + level * 3) (25 + level * 5)
     (Enemy.contact_damage_cooldown e) (Enemy.last_contact_damage e)
     (Enemy.enemy_type e) (Enemy.state e) (Enemy.state_timer e)
     (Enemy.patrol_target e) (Enemy.circle_angle e)
     (Enemy.circle_radius e) (Enemy.retreat_timer e)
     (Enemy.sight_blocked e)
     (Some (Enemy.mk_boss 1 0 5)).

(** [special_attack(player_pos)]: eight bullets, objects [fresh ..]. *)
Definition special_attack (fresh : nat) (e : Enemy) : list Bullet :=
  map (fun i : nat =>
         Bullet.init (fresh + i) (Vector2.x (Enemy.pos e))
           (Vector2.y (Enemy.pos e))
           (IZR (Z.of_nat i) / 8 * 2 * PI) 120 (Enemy.damage e) 4)
      (seq 0 8).

(** [Boss.update(dt, player_pos, walls)] on a boss with attributes [b]. *)
Definition update (d : Enemy.draws) (fresh : nat) (dt : R)
    (player_pos : Vector2) (walls : gset (Z * Z)) (b : Enemy.boss_t)
    (e : Enemy) : Enemy * list Bullet :=
  let e := Enemy.update d dt player_pos walls e in
  let timer := (Enemy.special_attack_timer b + dt)%R in
  if Rle_dec (Enemy.special_attack_cooldown b) timer then
    (Enemy.set_boss e
       (Some (Enemy.mk_boss (Enemy.phase b) 0
                            (Enemy.special_attack_cooldown b))),
     special_attack fresh e)
  else
    (Enemy.set_boss e
       (Some (Enemy.mk_boss (Enemy.phase b) timer
                            (Enemy.special_attack_cooldown b))),
     []).

End Boss.

(** The method that [enemy.update(...)] dispatches to, with the list it
    returns ([Enemy.update] returns nothing). *)
Definition Enemy_update_dyn (d : Enemy.draws) (fresh : nat) (dt : R)
    (player_pos : Vector2) (walls : gset (Z * Z)) (e : Enemy)
  : Enemy * list Bullet :=
  match Enemy.boss e with
  | Some b => Boss.update d fresh dt player_pos walls b e
  | None => (Enemy.update d dt player_pos walls e, [])
  end.

(** ** class Room *)
Module Room.

Record t : Type := mk {
  width : Z;
  height : Z;
  level : Z;
  enemies : list Enemy;
  player_bullets : list Bullet;
  enemy_bullets : list Bullet;
  cleared : bool;
  walls : gset (Z * Z);
  floor_tiles : gset (Z * Z)
}.

Definition set_enemies (r : t) (es : list Enemy) : t :=
  mk (width r) (height r) (level r) es (player_bullets r) (enemy_bullets r)
     (cleared r) (walls r) (floor_tiles r).

Definition set_player_bullets (r : t) (bs : list Bullet) : t :=
  mk (width r) (height r) (level r) (enemies r) bs (enemy_bullets r)
     (cleared r) (walls r) (floor_tiles r).

Definition set_enemy_bullets (r : t) (bs : list Bullet) : t :=
  mk (width r) (height r) (level r) (enemies r) (player_bullets r) bs
     (cleared r) (walls r) (floor_tiles r).

Definition set_cleared (r : t) (c : bool) : t :=
  mk (width r) (height r) (level r) (enemies r) (player_bullets r)
     (enemy_bullets r) c (walls r) (floor_tiles r).

(** *** generate_room

    The part of [generate_room] that does not draw from [random]: the
    floor tiles inside and the wall tiles around the perimeter. *)
Definition interior_floor (width height : Z) : gset (Z * Z) :=
  list_to_set
    (flat_map (fun x => map (fun y => (x, y)) (seqZ 1 (height - 2)))
              (seqZ 1 (width - 2))).

Definition perimeter_walls (width height : Z) : gset (Z * Z) :=
  list_to_set
    (flat_map (fun x => [(x, 0); (x, height - 1)]) (seqZ 0 width)
     ++ flat_map (fun y => [(0, y); (width - 1, y)]) (seqZ 0 height)).

(** One obstacle of [generate_room]: the corner [(x, y)] that the two
    calls to [random.randint] give, and the outcome [roll dx dy] of
    [random.random()] for each of the four cells. *)
Record obstacle_t : Type := mk_obstacle {
  ob_x : Z;
  ob_y : Z;
  roll : Z -> Z -> R
}.

(** The body of the loops over [dx] and [dy] for one cell. *)
Definition obstacle_cell (o : obstacle_t)
    (tiles : gset (Z * Z) * gset (Z * Z)) (d : Z * Z)
  : gset (Z * Z) * gset (Z * Z) :=
  let '(walls, floor_tiles) := tiles in
  if Rlt_dec (roll o (fst d) (snd d)) 0.7 then
    let wall := (ob_x o + fst d, ob_y o + snd d) in
    if bool_decide (wall ∈ floor_tiles)
    then (walls ∪ {[ wall ]}, floor_tiles ∖ {[ wall ]})
    else tiles
  else tiles.

Definition place_obstacle (tiles : gset (Z * Z) * gset (Z * Z))
    (o : obstacle_t) : gset (Z * Z) * gset (Z * Z) :=
  fold_left (obstacle_cell o) [(0, 0); (0, 1); (1, 0); (1, 1)] tiles.

(** [random.randint(a, b)] raises [ValueError] when the range from [a]
    to [b] is empty. *)
Definition randint_defined (a b : Z) : bool := a <=? b.

(** The outcomes that the calls of [random.randint] in the obstacle loop
    of [generate_room] can have: between 3 and
    [3 + min(level * 2, 12)] obstacles, each with its corner between
    [(2, 2)] and [(width - 3, height - 3)]. *)
Definition possible_obstacles (width height level : Z)
    (obstacles : list obstacle_t) : Prop :=
  3 <= Z.of_nat (length obstacles) <= 3 + Z.min (level * 2) 12
  /\ Forall (fun o => 2 <= ob_x o <= width - 3 /\ 2 <= ob_y o <= height - 3)
            obstacles.

(** Whether the calls of [random.randint] in [spawn_enemies], which
    [generate_room] calls last, have a range to draw from: the number of
    enemies, which is then at least 1, and the tile of the first attempt
    to place one. *)
Definition spawn_enemies_defined (width height level : Z) : bool :=
  let level_bonus := Z.min (level - 1) 12 in
  randint_defined (5 + level_bonus / 2) (5 + level_bonus + 3)
  && randint_defined 3 (width - 4) && randint_defined 3 (height - 4).

(** The walls and the floor tiles that [generate_room] leaves, for the
    obstacles drawn; [None] when a call of [random.randint] raises
    [ValueError]. *)
Definition generate_room (width height level : Z)
    (obstacles : list obstacle_t)
  : option (gset (Z * Z) * gset (Z * Z)) :=
  if negb (randint_defined 3 (3 + Z.min (level * 2) 12)) then None
  else if negb (forallb (fun _ => randint_defined 2 (width - 3)
                                  && randint_defined 2 (height - 3))
                        obstacles)
  then None
  else if negb (spawn_enemies_defined width height level) then None
  else Some (fold_left place_obstacle obstacles
                       (perimeter_walls width height,
                        interior_floor width height)).

(** *** validate_position *)

(** One coordinate of the boundary check:
    [if v < margin: v = margin  elif v > limit - margin: v = limit - margin]. *)
Definition clamp (margin limit v : R) : R :=
  if Rlt_dec v margin then margin
  else if Rlt_dec (limit - margin) v then (limit - margin)%R
  else v.

Definition clamp_pos (r : t) (margin : R) (pos : Vector2) : Vector2 :=
  Vector2.mk (clamp margin (IZR (width r * 16)) (Vector2.x pos))
             (clamp margin (IZR (height r * 16)) (Vector2.y pos)).

(** The offsets [(dx, dy)] in the order of the two nested loops. *)
Definition neighbourhood : list (Z * Z) :=
  [(-1, -1); (-1, 0); (-1, 1); (0, -1); (0, 0); (0, 1);
   (1, -1); (1, 0); (1, 1)].

(** The accumulators [push_x], [push_y], [collision_count]. *)
Record push_t : Type := mk_push {
  push_x : R;
  push_y : R;
  collision_count : Z
}.

(** The body of the nested loops for one offset. *)
Definition check_tile (r : t) (pos : Vector2) (size : R)
    (tile_x tile_y : Z) (acc : push_t) (d : Z * Z) : push_t :=
  let check_x := tile_x + fst d in
  let check_y := tile_y + snd d in
  if bool_decide ((check_x, check_y) ∈ walls r) then
    let wall_center_x := IZR (check_x * 16 + 8) in
    let wall_center_y := IZR (check_y * 16 + 8) in
    let wall_distance :=
      Vector2.distance_to (Vector2.mk wall_center_x wall_center_y) pos in
    let required_distance := (size / 2 + 8)%R in
    if Rlt_dec wall_distance required_distance then
      if Rlt_dec 0.1 wall_distance then
        let push_dir :=
          Vector2.normalize
            (pos -v Vector2.mk wall_center_x wall_center_y) in
        let push_strength := (required_distance - wall_distance + 1)%R in
        mk_push (push_x acc + Vector2.x push_dir * push_strength)
                (push_y acc + Vector2.y push_dir * push_strength)
                (collision_count acc + 1)
      else mk_push (push_x acc) (push_y acc) (collision_count acc + 1)
    else acc
  else acc.

(** The accumulated push at an (already clamped) position. *)
Definition wall_push (r : t) (pos : Vector2) (size : R) : push_t :=
  let tile_x := tile_of (Vector2.x pos) in
  let tile_y := tile_of (Vector2.y pos) in
  fold_left (check_tile r pos size tile_x tile_y) neighbourhood
            (mk_push 0 0 0).

(** [validate_position(pos, size)]: the position that [pos] holds
    afterwards (the method updates [pos] in place). *)
Definition validate_position (r : t) (pos : Vector2) (size : R)
  : Vector2 :=
  let margin := (size / 2 + 2)%R in
  let pos := clamp_pos r margin pos in
  let p := wall_push r pos size in
  if 0 <? collision_count p then
    clamp_pos r margin
      (Vector2.mk
         (Vector2.x pos + push_x p / IZR (collision_count p))
         (Vector2.y pos + push_y p / IZR (collision_count p)))
  else pos.

Definition validate_enemy_position (r : t) (e : Enemy) : Enemy :=
  Enemy.set_pos e (validate_position r (Enemy.pos e) (Enemy.size e)).

(** *** update *)

(** The state of the first loop of [update]: the enemies already
    visited, the bullets appended to [enemy_bullets], the number of
    [random] tapes used and the next free object identity. *)
Record ai_t : Type := mk_ai {
  ai_done : list Enemy;
  ai_bullets : list Bullet;
  ai_calls : nat;
  ai_fresh : nat
}.

(** The body of the first loop of [update] for one enemy.  A boss is
    updated a second time, and only the bullets of that second call are
    kept. *)
Definition ai_step (tape : nat -> Enemy.draws) (dt : R)
    (player_pos : Vector2) (walls : gset (Z * Z)) (st : ai_t) (e : Enemy)
  : ai_t :=
  let '(e, dropped) :=
    Enemy_update_dyn (tape (ai_calls st)) (ai_fresh st) dt player_pos
                     walls e in
  let fresh := (ai_fresh st + length dropped)%nat in
  let '(e, bullets) := Enemy.fire_at_player fresh player_pos e in
  let fresh := (fresh + length bullets)%nat in
  match Enemy.boss e with
  | Some _ =>
      let '(e, special_bullets) :=
        Enemy_update_dyn (tape (S (ai_calls st))) fresh dt player_pos
                         walls e in
      mk_ai (ai_done st ++ [e])
            (ai_bullets st ++ bullets ++ special_bullets)
            (S (S (ai_calls st)))
            (fresh + length special_bullets)
  | None =>
      mk_ai (ai_done st ++ [e]) (ai_bullets st ++ bullets)
            (S (ai_calls st)) fresh
  end.

(** The body of the separation loops for the pair of indices [i < j];
    both enemies are read from the current list, as the code reads the
    objects it shares with the list. *)
Definition separate_pair (r : t) (es : list Enemy) (ij : nat * nat)
  : list Enemy :=
  match es !! fst ij, es !! snd ij with
  | Some enemy1, Some enemy2 =>
      let distance :=
        Vector2.distance_to (Enemy.pos enemy1) (Enemy.pos enemy2) in
      let min_distance :=
        ((Enemy.size enemy1 + Enemy.size enemy2) / 2 + 5)%R in
      if Rltb distance min_distance && Rltb 0.1 distance then
        let push_direction :=
          Vector2.normalize (Enemy.pos enemy1 -v Enemy.pos enemy2) in
        let push_strength := ((min_distance - distance) * 0.5)%R in
        let enemy1 :=
          Enemy.set_pos enemy1
            (Enemy.pos enemy1 +v push_direction *v push_strength *v 0.5) in
        let enemy2 :=
          Enemy.set_pos enemy2
            (Enemy.pos enemy2 -v push_direction *v push_strength *v 0.5) in
        <[snd ij := validate_enemy_position r enemy2]>
          (<[fst ij := validate_enemy_position r enemy1]> es)
      else es
  | _, _ => es
  end.

(** The pairs [(i, j)], [i < j < n], in the order the loops visit them. *)
Definition index_pairs (n : nat) : list (nat * nat) :=
  flat_map (fun i => map (fun j => (i, j)) (seq (S i) (n - S i))) (seq 0 n).

(** The separation step of [update]: one pass over all pairs. *)
Definition separate_enemies (r : t) : t :=
  set_enemies r
    (fold_left (separate_pair r) (index_pairs (length (enemies r)))
               (enemies r)).

(** [[b for b in bullets if b.update(dt)]]. *)
Definition age_bullets (dt : R) (bs : list Bullet) : list Bullet :=
  map fst (filter (fun p => snd p = true) (map (Bullet.update dt) bs)).

(** [update(dt, player)]. *)
Definition update (tape : nat -> Enemy.draws) (fresh : nat) (dt : R)
    (player : Player) (r : t) : t :=
  let st :=
    fold_left (ai_step tape dt (Player.pos player) (walls r)) (enemies r)
              (mk_ai [] [] 0 fresh) in
  let r := set_enemies r (ai_done st) in
  let r := set_enemy_bullets r (enemy_bullets r ++ ai_bullets st) in
  let r := separate_enemies r in
  let r := set_player_bullets r (age_bullets dt (player_bullets r)) in
  let r := set_enemy_bullets r (age_bullets dt (enemy_bullets r)) in
  if negb (cleared r) && (length (enemies r) =? 0)%nat
  then set_cleared r true else r.

(** [add_player_bullet(bullets)] with a list of bullets. *)
Definition add_player_bullet (bullets : list Bullet) (r : t) : t :=
  match bullets with
  | [] => r
  | _ :: _ => set_player_bullets r (player_bullets r ++ bullets)
  end.

End Room.

Abbreviation Room := Room.t.

(** ** Room.check_collisions *)
Module Collisions.

(** [bullets.remove(bullet)] / [bullet in bullets], by identity. *)
Fixpoint remove_bullet (i : nat) (bs : list Bullet) : list Bullet :=
  match bs with
  | [] => []
  | b :: bs' =>
      if (Bullet.bid b =? i)%nat then bs' else b :: remove_bullet i bs'
  end.

(** [enemies.remove(enemy)], by identity. *)
Fixpoint remove_enemy (i : nat) (es : list Enemy) : list Enemy :=
  match es with
  | [] => []
  | e :: es' =>
      if (Enemy.eid e =? i)%nat then es' else e :: remove_enemy i es'
  end.

(** The effect on the list of a method that mutates the enemy object
    [e]: every reference to that object sees the new attributes. *)
Definition store_enemy (e : Enemy) (es : list Enemy) : list Enemy :=
  map (fun e0 => if (Enemy.eid e0 =? Enemy.eid e)%nat then e else e0) es.

(** The state that [check_collisions] works on.  [kills] is
    [game_instance.enemies_killed] when a game instance is passed,
    [draws] counts the calls to [random.randint(2, 8)] made so far, and
    [hits] records every call [enemy.take_damage(bullet.damage)] of the
    first loop as (bullet identity, enemy identity). *)
Record t : Type := mk {
  room : Room;
  player : Player;
  kills : option Z;
  draws : nat;
  hits : list (nat * nat)
}.

Definition hit (bullet : Bullet) (enemy : Enemy) : bool :=
  Rltb (Vector2.distance_to (Bullet.pos bullet) (Enemy.pos enemy))
       (Enemy.size enemy + Bullet.size bullet).

(** Player bullets vs enemies: what happens when [bullet] overlaps
    [enemy], up to the [break]. *)
Definition resolve_hit (reward : nat -> Z) (st : t) (bullet : Bullet)
    (enemy : Enemy) : t :=
  let r := room st in
  let '(enemy', dead) := Enemy.take_damage (Bullet.damage bullet) enemy in
  let log := hits st ++ [(Bullet.bid bullet, Enemy.eid enemy)] in
  let es := store_enemy enemy' (Room.enemies r) in
  let '(es, p, k, n) :=
    if dead then
      (remove_enemy (Enemy.eid enemy) es,
       Player.set_money (player st)
         (Player.money (player st) + reward (draws st)),
       option_map (fun k => k + 1) (kills st),
       S (draws st))
    else (es, player st, kills st, draws st) in
  let bs :=
    if existsb (fun b => (Bullet.bid b =? Bullet.bid bullet)%nat)
               (Room.player_bullets r)
    then remove_bullet (Bullet.bid bullet) (Room.player_bullets r)
    else Room.player_bullets r in
  mk (Room.set_player_bullets (Room.set_enemies r es) bs) p k n log.

(** The inner loop, over the copy [snapshot] of the enemy list: it ends
    ([break]) at the first enemy that the bullet overlaps. *)
Fixpoint enemies_loop (reward : nat -> Z) (bullet : Bullet)
    (snapshot : list Enemy) (st : t) : t :=
  match snapshot with
  | [] => st
  | enemy :: rest =>
      if hit bullet enemy then resolve_hit reward st bullet enemy
      else enemies_loop reward bullet rest st
  end.

(** The body of the outer loop for one player bullet. *)
Definition bullet_vs_enemies (reward : nat -> Z) (st : t)
    (bullet : Bullet) : t :=
  enemies_loop reward bullet (Room.enemies (room st)) st.

(** Enemy bullets vs player: the body of the loop. *)
Definition bullet_vs_player (st : t) (bullet : Bullet) : t :=
  let p := player st in
  if Rltb (Vector2.distance_to (Bullet.pos bullet) (Player.pos p))
          (Player.size p + Bullet.size bullet)
  then
    mk (Room.set_enemy_bullets (room st)
          (remove_bullet (Bullet.bid bullet)
             (Room.enemy_bullets (room st))))
       (fst (Player.take_damage (Bullet.damage bullet) p))
       (kills st) (draws st) (hits st)
  else st.

(** Contact damage: the body of the loop for one enemy. *)
Definition contact (st : t) (enemy : Enemy) : t :=
  let p := player st in
  let r := room st in
  let distance := Vector2.distance_to (Enemy.pos enemy) (Player.pos p) in
  let collision_threshold := ((Enemy.size enemy + Player.size p) / 2)%R in
  if Rltb distance collision_threshold && Rltb 0.1 distance then
    let '(enemy, contact_damage) := Enemy.deal_contact_damage enemy in
    if 0 <? contact_damage then
      let push_direction :=
        Vector2.normalize (Player.pos p -v Enemy.pos enemy) in
      let p := fst (Player.take_damage contact_damage p) in
      let knockback_strength := 25%R in
      let p :=
        Player.set_pos p
          (Player.pos p +v push_direction *v knockback_strength) in
      let enemy :=
        Enemy.set_pos enemy (Enemy.pos enemy -v push_direction *v 8) in
      let p :=
        Player.set_pos p
          (Room.validate_position r (Player.pos p) (Player.size p)) in
      let enemy := Room.validate_enemy_position r enemy in
      mk (Room.set_enemies r (store_enemy enemy (Room.enemies r)))
         p (kills st) (draws st) (hits st)
    else
      mk (Room.set_enemies r (store_enemy enemy (Room.enemies r)))
         p (kills st) (draws st) (hits st)
  else st.

Definition in_wall (r : Room) (bullet : Bullet) : bool :=
  let tile_x := tile_of (Vector2.x (Bullet.pos bullet)) in
  let tile_y := tile_of (Vector2.y (Bullet.pos bullet)) in
  bool_decide ((tile_x, tile_y) ∈ Room.walls r).

(** Bullets vs walls, for the player's bullets and for the enemies'. *)
Definition player_bullet_vs_wall (st : t) (bullet : Bullet) : t :=
  if in_wall (room st) bullet then
    mk (Room.set_player_bullets (room st)
          (remove_bullet (Bullet.bid bullet)
             (Room.player_bullets (room st))))
       (player st) (kills st) (draws st) (hits st)
  else st.

Definition enemy_bullet_vs_wall (st : t) (bullet : Bullet) : t :=
  if in_wall (room st) bullet then
    mk (Room.set_enemy_bullets (room st)
          (remove_bullet (Bullet.bid bullet)
             (Room.enemy_bullets (room st))))
       (player st) (kills st) (draws st) (hits st)
  else st.

(** The first loop of [check_collisions], over a copy of
    [player_bullets]. *)
Definition player_bullets_phase (reward : nat -> Z) (st : t) : t :=
  fold_left (bullet_vs_enemies reward) (Room.player_bullets (room st)) st.

(** [check_collisions(player, game_instance)].  Every loop runs over a
    copy of the list taken when the loop starts.  [reward k] is the
    outcome of the [k]-th call to [random.randint(2, 8)]. *)
Definition check_collisions (reward : nat -> Z) (r : Room) (p : Player)
    (game_kills : option Z) : t :=
  let st := player_bullets_phase reward (mk r p game_kills 0 []) in
  let st := fold_left bullet_vs_player (Room.enemy_bullets (room st)) st in
  let st :=
    if negb (Player.invulnerable (player st))
    then fold_left contact (Room.enemies (room st)) st
    else st in
  let st :=
    fold_left player_bullet_vs_wall (Room.player_bullets (room st)) st in
  fold_left enemy_bullet_vs_wall (Room.enemy_bullets (room st)) st.

End Collisions.

(** [later st st']: [st'] has the same record of hits as [st] and no
    player bullet that [st] does not have. *)
Definition later (st st' : Collisions.t) : Prop :=
  Collisions.hits st' = Collisions.hits st
  /\ forall b,
       b ∈ Bullet.bid <$> Room.player_bullets (Collisions.room st') ->
       b ∈ Bullet.bid <$> Room.player_bullets (Collisions.room st).

(** The coins that the first [n] calls to [random.randint(2, 8)] of one
    [check_collisions] pay. *)
Definition rewards (reward : nat -> Z) (n : nat) : Z :=
  fold_right Z.add 0 (map reward (seq 0 n)).

(** [same_counters st st']: between [st] and [st'] no enemy was killed:
    the same number of rewards drawn, the same kill count, the same
    money and the same number of enemies in the room. *)
Definition same_counters (st st' : Collisions.t) : Prop :=
  Collisions.draws st' = Collisions.draws st
  /\ Collisions.kills st' = Collisions.kills st
  /\ Player.money (Collisions.player st')
     = Player.money (Collisions.player st)
  /\ length (Room.enemies (Collisions.room st'))
     = length (Room.enemies (Collisions.room st)).

(** [accounted reward game_kills money0 enemies0 st]: the books of [st]
    balance against the start of the call, where the kill count was
    [game_kills], the player had [money0] coins and the room held
    [enemies0] enemies. *)
Definition accounted (reward : nat -> Z) (game_kills : option Z)
    (money0 : Z) (enemies0 : nat) (st : Collisions.t) : Prop :=
  Collisions.kills st
  = option_map (fun k => k + Z.of_nat (Collisions.draws st)) game_kills
  /\ Player.money (Collisions.player st)
     = money0 + rewards reward (Collisions.draws st)
  /\ (length (Room.enemies (Collisions.room st)) + Collisions.draws st
      = enemies0)%nat.

(** ** class Shop *)
Module Shop.

(** The [type] and [value] of an item. *)
Inductive effect_t : Type :=
| health (value : Z)
| armor (value : Z)
| damage (value : R)
| speed (value : R)
| max_health (value : Z)
| ammo (value : Z).

Record item_t : Type := mk_item {
  name : string;
  price : Z;
  description : string;
  effect : effect_t
}.

Record t : Type := mk {
  items : list item_t;
  is_open : bool;
  selected_item : nat
}.

(** [Shop()]. *)
Definition init : t :=
  mk [ mk_item "Health Medkit" 25 "Restore 30 HP" (health 30);
       mk_item "Armor Vest" 40 "Gain 1 Armor" (armor 1);
       mk_item "Damage Boost" 60 "Increase weapon damage by 25%"
               (damage 1.25);
       mk_item "Speed Boost" 35 "Increase movement speed by 20%"
               (speed 1.2);
       mk_item "Max Health Up" 80 "Increase max health by 20"
               (max_health 20);
       mk_item "Ammo Pack" 15 "Refill shotgun ammo" (ammo 50) ]
     false 0.

Definition toggle (s : t) : t :=
  mk (items s) (negb (is_open s)) (selected_item s).

Definition boost_gun (value : R) (g : Gun) : Gun :=
  Gun.mk (Gun.name g) (py_int (IZR (Gun.damage g) * value))
         (Gun.fire_rate g) (Gun.bullet_speed g) (Gun.accuracy g)
         (Gun.ammo g) (Gun.pellets g) (Gun.fire_timer g).

Definition refill_gun (value : Z) (g : Gun) : Gun :=
  if 0 <? Gun.ammo g then
    Gun.mk (Gun.name g) (Gun.damage g) (Gun.fire_rate g)
           (Gun.bullet_speed g) (Gun.accuracy g)
           (Z.min (Gun.ammo g + value) 99) (Gun.pellets g)
           (Gun.fire_timer g)
  else g.

(** [apply_item_effect(player, item)]. *)
Definition apply_item_effect (p : Player) (item : item_t) : Player :=
  match effect item with
  | health v =>
      Player.set_health p (Z.min (Player.max_health p) (Player.health p + v))
  | armor v =>
      Player.mk (Player.pos p) (Player.velocity p) (Player.size p)
        (Player.speed p) (Player.health p) (Player.max_health p)
        (Player.armor p + v)
        (Player.dodge_speed p) (Player.dodge_duration p)
        (Player.dodge_cooldown p) (Player.is_dodging p)
        (Player.dodge_timer p) (Player.dodge_cooldown_timer p)
        (Player.dodge_direction p) (Player.invulnerable p)
        (Player.damage_flash_timer p) (Player.guns p)
        (Player.current_gun p) (Player.facing_angle p) (Player.money p)
  | damage v => Player.set_guns p (map (boost_gun v) (Player.guns p))
  | speed v =>
      Player.mk (Player.pos p) (Player.velocity p) (Player.size p)
        (IZR (py_int (Player.speed p * v)))
        (Player.health p) (Player.max_health p) (Player.armor p)
        (Player.dodge_speed p) (Player.dodge_duration p)
        (Player.dodge_cooldown p) (Player.is_dodging p)
        (Player.dodge_timer p) (Player.dodge_cooldown_timer p)
        (Player.dodge_direction p) (Player.invulnerable p)
        (Player.damage_flash_timer p) (Player.guns p)
        (Player.current_gun p) (Player.facing_angle p) (Player.money p)
  | max_health v =>
      Player.mk (Player.pos p) (Player.velocity p) (Player.size p)
        (Player.speed p) (Player.health p + v) (Player.max_health p + v)
        (Player.armor p)
        (Player.dodge_speed p) (Player.dodge_duration p)
        (Player.dodge_cooldown p) (Player.is_dodging p)
        (Player.dodge_timer p) (Player.dodge_cooldown_timer p)
        (Player.dodge_direction p) (Player.invulnerable p)
        (Player.damage_flash_timer p) (Player.guns p)
        (Player.current_gun p) (Player.facing_angle p) (Player.money p)
  | ammo v => Player.set_guns p (map (refill_gun v) (Player.guns p))
  end.

(** [buy_item(player, item_index)]: the player afterwards and the
    returned flag. *)
Definition buy_item (s : t) (p : Player) (item_index : nat)
  : Player * bool :=
  match items s !! item_index with
  | Some item =>
      if price item <=? Player.money p then
        (apply_item_effect
           (Player.set_money p (Player.money p - price item)) item,
         true)
      else (p, false)
  | None => (p, false)
  end.

End Shop.

(** ** class HazardRoom(Room) *)
Module HazardRoom.

(** The room attributes of the base class, and those that
    [HazardRoom.__init__] adds (the moving platforms and the two door
    slots are never used and are left out). *)
Record t : Type := mk {
  base : Room;
  ditches : gset (Z * Z);
  bridges : gset (Z * Z);
  spikes : gset (Z * Z);
  lava_tiles : gset (Z * Z);
  challenge_complete : bool
}.

(** [update(dt, player)]. *)
Definition update (tape : nat -> Enemy.draws) (fresh : nat) (dt : R)
    (player : Player) (h : t) : t :=
  let r := Room.update tape fresh dt player (base h) in
  let complete :=
    if negb (challenge_complete h) then
      let end_area_x := Room.width r - 6 in
      let end_area_y := Room.height r - 5 in
      let player_tile_x := tile_of (Vector2.x (Player.pos player)) in
      let player_tile_y := tile_of (Vector2.y (Player.pos player)) in
      (end_area_x <=? player_tile_x) && (end_area_y <=? player_tile_y)
      && (length (Room.enemies r) =? 0)%nat
    else true in
  mk r (ditches h) (bridges h) (spikes h) (lava_tiles h) complete.

(** [check_hazard_damage(player)]: the player afterwards and the
    returned flag. *)
Definition check_hazard_damage (h : t) (player : Player) : Player * bool :=
  let player_tile_x := tile_of (Vector2.x (Player.pos player)) in
  let player_tile_y := tile_of (Vector2.y (Player.pos player)) in
  if Player.invulnerable player || Player.is_dodging player then
    (player, false)
  else if bool_decide ((player_tile_x, player_tile_y) ∈ ditches h) then
    (Player.set_health player 0, true)
  else if bool_decide ((player_tile_x, player_tile_y) ∈ spikes h) then
    (fst (Player.take_damage 20 player), true)
  else if bool_decide ((player_tile_x, player_tile_y) ∈ lava_tiles h) then
    (fst (Player.take_damage 15 player), true)
  else (player, false).

End HazardRoom.

Abbreviation HazardRoom := HazardRoom.t.

(** ** class BossRoom(Room) *)
Module BossRoom.

Record t : Type := mk {
  base : Room;
  boss : option nat;      (* the identity of the boss object, once spawned *)
  boss_spawned : bool
}.

(** [spawn_boss()]; the boss is created as object [fresh], and [d] holds
    the two [randint] draws of its patrol target. *)
Definition spawn_boss (d : Enemy.draws) (fresh : nat) (b : t) : t :=
  if negb (boss_spawned b) then
    let r := base b in
    let boss_x := IZR (Room.width r / 2 * 16) in
    let boss_y := IZR (Room.height r / 2 * 16) in
    let the_boss := Boss.init fresh d boss_x boss_y (Room.level r) in
    mk (Room.set_enemies r ([] ++ [the_boss])) (Some fresh) true
  else b.

End BossRoom.

Abbreviation BossRoom := BossRoom.t.

(** ** class MultiRoomSystem *)
Module MultiRoomSystem.

(** A value of [self.rooms]: an instance of [Room], [HazardRoom] or
    [BossRoom]. *)
Inductive room_t : Type :=
| Combat (r : Room)
| Hazard (h : HazardRoom)
| BossR (b : BossRoom).

Definition base (x : room_t) : Room :=
  match x with
  | Combat r => r
  | Hazard h => HazardRoom.base h
  | BossR b => BossRoom.base b
  end.

Definition set_base (x : room_t) (r : Room) : room_t :=
  match x with
  | Combat _ => Combat r
  | Hazard h =>
      Hazard (HazardRoom.mk r (HazardRoom.ditches h) (HazardRoom.bridges h)
                (HazardRoom.spikes h) (HazardRoom.lava_tiles h)
                (HazardRoom.challenge_complete h))
  | BossR b => BossR (BossRoom.mk r (BossRoom.boss b) (BossRoom.boss_spawned b))
  end.

(** One entry of [self.enemy_waves[room_id]]. *)
Record wave_t : Type := mk_wave {
  enemy_count : Z;
  enemy_types : list Enemy.enemy_type_t;
  weights : list Z;
  spawned : bool;
  wave_cleared : bool
}.

(** [doors] keeps the insertion order of the dictionary, which is the
    order in which the loops visit the doors. *)
Record t : Type := mk {
  level : Z;
  rooms : gmap string room_t;
  current_room_id : string;
  doors : list (string * Door);
  room_connections : gmap string (list string);
  rooms_cleared : gset string;
  total_rooms : Z;
  teleporter_active : bool;
  enemy_waves : gmap string (list wave_t);
  current_wave : gmap string nat
}.

(** The value [__init__] gives [total_rooms]. *)
Definition initial_total_rooms (level : Z) : Z :=
  if level =? 1 then 3 else if level =? 2 then 4
  else if level =? 3 then 5 else 6.

Definition set_rooms (s : t) (m : gmap string room_t) : t :=
  mk (level s) m (current_room_id s) (doors s) (room_connections s)
     (rooms_cleared s) (total_rooms s) (teleporter_active s)
     (enemy_waves s) (current_wave s).

Definition set_current_room_id (s : t) (i : string) : t :=
  mk (level s) (rooms s) i (doors s) (room_connections s)
     (rooms_cleared s) (total_rooms s) (teleporter_active s)
     (enemy_waves s) (current_wave s).

Definition set_doors (s : t) (ds : list (string * Door)) : t :=
  mk (level s) (rooms s) (current_room_id s) ds (room_connections s)
     (rooms_cleared s) (total_rooms s) (teleporter_active s)
     (enemy_waves s) (current_wave s).

Definition set_rooms_cleared (s : t) (c : gset string) : t :=
  mk (level s) (rooms s) (current_room_id s) (doors s) (room_connections s)
     c (total_rooms s) (teleporter_active s)
     (enemy_waves s) (current_wave s).

Definition set_teleporter_active (s : t) (b : bool) : t :=
  mk (level s) (rooms s) (current_room_id s) (doors s) (room_connections s)
     (rooms_cleared s) (total_rooms s) b
     (enemy_waves s) (current_wave s).

Definition set_enemy_waves (s : t) (w : gmap string (list wave_t)) : t :=
  mk (level s) (rooms s) (current_room_id s) (doors s) (room_connections s)
     (rooms_cleared s) (total_rooms s) (teleporter_active s)
     w (current_wave s).

Definition set_current_wave (s : t) (w : gmap string nat) : t :=
  mk (level s) (rooms s) (current_room_id s) (doors s) (room_connections s)
     (rooms_cleared s) (total_rooms s) (teleporter_active s)
     (enemy_waves s) w.

(** [get_current_room()]; [None] stands for the [KeyError]. *)
Definition get_current_room (s : t) : option room_t :=
  rooms s !! current_room_id s.

(** [s.split('_', 1)] when it has two parts. *)
Fixpoint split_once (s : string) : option (string * string) :=
  match s with
  | EmptyString => None
  | String c s' =>
      if Ascii.eqb c "_"%char then Some (EmptyString, s')
      else
        match split_once s' with
        | Some (a, b) => Some (String c a, b)
        | None => None
        end
  end.

(** The target room that [check_room_transitions] computes from a door
    identifier; [None] stands for the exception of a failed unpacking
    or indexing. *)
Definition door_target (door_id current : string) : option string :=
  match split_once door_id with
  | None => None
  | Some (room1, room2) =>
      match
        (if String.prefix "room" room2 then
           match split_once room2 with
           | Some (_, rest) => Some ("room_" +:+ rest)
           | None => None
           end
         else Some room2)
      with
      | None => None
      | Some room2 =>
          Some (if String.eqb current room1 then room2 else room1)
      end
  end.

(** [transition_to_room(target_room_id, player)]. *)
Definition transition_to_room (target_room_id : string)
    (sp : t * Player) : t * Player :=
  let '(s, player) := sp in
  if negb (String.eqb target_room_id (current_room_id s)) then
    (set_current_room_id s target_room_id,
     Player.set_pos player
       (if String.eqb target_room_id "boss_room" then Vector2.mk 240 320
        else if String.eqb target_room_id "hazard_room"
             then Vector2.mk 64 48
             else Vector2.mk 200 200))
  else sp.

(** The body of the loop of [check_room_transitions] for one door. *)
Definition check_door (sp : t * Player) (d : string * Door)
  : option (t * Player) :=
  let '(door_id, door) := d in
  if Door.can_pass_through door then
    match Door.get_collision_rect door with
    | None =>
        let door_center_x := (Door.x door + IZR (Door.width door / 2))%R in
        let door_center_y := (Door.y door + IZR (Door.height door / 2))%R in
        if Rltb (Vector2.distance_to
                   (Vector2.mk door_center_x door_center_y)
                   (Player.pos (snd sp))) 20
        then
          match door_target door_id (current_room_id (fst sp)) with
          | None => None
          | Some target_room =>
              if bool_decide (is_Some (rooms (fst sp) !! target_room))
              then Some (transition_to_room target_room sp)
              else Some sp
          end
        else Some sp
    | Some _ => Some sp
    end
  else Some sp.

Fixpoint check_doors (ds : list (string * Door)) (sp : t * Player)
  : option (t * Player) :=
  match ds with
  | [] => Some sp
  | d :: ds' =>
      match check_door sp d with
      | Some sp' => check_doors ds' sp'
      | None => None
      end
  end.

Definition check_room_transitions (sp : t * Player)
  : option (t * Player) :=
  check_doors (doors (fst sp)) sp.

Section Update.

(** The list [room.enemies] after [spawn_enemy_wave(room, wave_data)];
    the random placement itself is not modelled. *)
Variable spawn_enemy_wave : Z -> Room -> wave_t -> list Enemy.

(** [handle_enemy_waves()]; [None] stands for the [KeyError]s. *)
Definition handle_enemy_waves (s : t) : option t :=
  match get_current_room s with
  | None => None
  | Some current_room =>
    let id := current_room_id s in
    let room_waves := default [] (enemy_waves s !! id) in
    let current_wave_idx := default 0%nat (current_wave s !! id) in
    match room_waves !! current_wave_idx with
    | None => Some s
    | Some wave =>
      (* spawn the wave if it is not spawned and the room is empty *)
      let do_spawn :=
        negb (spawned wave)
        && (length (Room.enemies (base current_room)) =? 0)%nat in
      let current_room :=
        if do_spawn then
          set_base current_room
            (Room.set_enemies (base current_room)
               (spawn_enemy_wave (level s) (base current_room) wave))
        else current_room in
      let wave :=
        if do_spawn then
          mk_wave (enemy_count wave) (enemy_types wave) (weights wave)
                  true (wave_cleared wave)
        else wave in
      let s := set_rooms s (<[id := current_room]> (rooms s)) in
      (* check whether the wave is cleared *)
      if spawned wave
         && (length (Room.enemies (base current_room)) =? 0)%nat
         && negb (wave_cleared wave)
      then
        let wave :=
          mk_wave (enemy_count wave) (enemy_types wave) (weights wave)
                  (spawned wave) true in
        let s :=
          set_enemy_waves s
            (<[id := <[current_wave_idx := wave]> room_waves]>
               (enemy_waves s)) in
        match current_wave s !! id with
        | None => None
        | Some n =>
            let s := set_current_wave s (<[id := S n]> (current_wave s)) in
            if (length room_waves <=? S n)%nat then
              Some (set_rooms_cleared s ({[ id ]} ∪ rooms_cleared s))
            else Some s
        end
      else
        Some (set_enemy_waves s
                (<[id := <[current_wave_idx := wave]> room_waves]>
                   (enemy_waves s)))
    end
  end.

(** [current_room.update(dt, player)], dispatched on the class. *)
Definition room_update (tape : nat -> Enemy.draws) (fresh : nat)
    (dt : R) (player : Player) (x : room_t) : room_t :=
  match x with
  | Combat r => Combat (Room.update tape fresh dt player r)
  | Hazard h => Hazard (HazardRoom.update tape fresh dt player h)
  | BossR b =>
      BossR (BossRoom.mk (Room.update tape fresh dt player (BossRoom.base b))
                         (BossRoom.boss b) (BossRoom.boss_spawned b))
  end.

(** The door loop of [update]. *)
Definition update_door (dt : R) (player : Player) (d : string * Door)
  : string * Door :=
  let player_nearby :=
    Rltb (Vector2.distance_to (Door.pos (snd d)) (Player.pos player)) 50 in
  (fst d, Door.update dt player_nearby (snd d)).

(** The room-specific logic of [update]. *)
Definition room_logic (s : t) : option t :=
  match get_current_room s with
  | None => None
  | Some (Hazard h) =>
      if HazardRoom.challenge_complete h
         && negb (bool_decide (current_room_id s ∈ rooms_cleared s))
      then Some (set_rooms_cleared s
                   ({[ current_room_id s ]} ∪ rooms_cleared s))
      else Some s
  | Some _ =>
      if negb (String.eqb (current_room_id s) "boss_room")
      then handle_enemy_waves s
      else Some s
  end.

(** The teleporter check that ends [update]. *)
Definition check_teleporter (s : t) : t :=
  if (total_rooms s <=? Z.of_nat (size (rooms_cleared s)))
     && negb (teleporter_active s)
  then set_teleporter_active s true
  else s.

(** [update(dt, player)]; [None] stands for an uncaught exception. *)
Definition update (tape : nat -> Enemy.draws) (fresh : nat) (dt : R)
    (sp : t * Player) : option (t * Player) :=
  let '(s, player) := sp in
  match get_current_room s with
  | None => None
  | Some current_room =>
      let s :=
        set_rooms s
          (<[current_room_id s :=
               room_update tape fresh dt player current_room]> (rooms s)) in
      let s := set_doors s (map (update_door dt player) (doors s)) in
      match room_logic s with
      | None => None
      | Some s =>
          match check_room_transitions (s, player) with
          | None => None
          | Some (s, player) => Some (check_teleporter s, player)
          end
      end
  end.

End Update.

(** *** The room graph of a level *)

Inductive room_type : Type := combat | hazard | boss.

(** One entry of [room_configs]. *)
Record config_t : Type := mk_config {
  id : string;
  grid_pos : Z * Z;
  connections : list string;
  type : room_type
}.

(** The [room_configs] of [generate_room_layout]. *)
Definition room_configs (level : Z) : list config_t :=
  if level =? 1 then
    [ mk_config "room_1" (0, 0) ["room_2"] combat;
      mk_config "room_2" (1, 0) ["room_1"; "hazard_room"] combat;
      mk_config "hazard_room" (2, 0) ["room_2"; "boss_room"] hazard;
      mk_config "boss_room" (3, 0) ["hazard_room"] boss ]
  else if level =? 2 then
    [ mk_config "room_1" (0, 0) ["room_2"] combat;
      mk_config "room_2" (1, 0) ["room_1"; "room_3"] combat;
      mk_config "room_3" (2, 0) ["room_2"; "hazard_room"] combat;
      mk_config "hazard_room" (3, 0) ["room_3"; "boss_room"] hazard;
      mk_config "boss_room" (4, 0) ["hazard_room"] boss ]
  else if level =? 3 then
    [ mk_config "room_1" (0, 0) ["room_2"] combat;
      mk_config "room_2" (1, 0) ["room_1"; "room_3"] combat;
      mk_config "room_3" (2, 0) ["room_2"; "hazard_room"] combat;
      mk_config "hazard_room" (3, 0) ["room_3"; "room_4"] hazard;
      mk_config "room_4" (4, 0) ["hazard_room"; "boss_room"] combat;
      mk_config "boss_room" (5, 0) ["room_4"] boss ]
  else
    [ mk_config "room_1" (0, 0) ["room_2"] combat;
      mk_config "room_2" (1, 0) ["room_1"; "room_3"] combat;
      mk_config "room_3" (2, 0) ["room_2"; "hazard_room"] combat;
      mk_config "hazard_room" (3, 0) ["room_3"; "room_4"] hazard;
      mk_config "room_4" (4, 0) ["hazard_room"; "room_5"] combat;
      mk_config "room_5" (5, 0) ["room_4"; "boss_room"] combat;
      mk_config "boss_room" (6, 0) ["room_5"] boss ].

(** The keys of [door_positions] in [generate_doors]; every door stands
    at [(24 * 16, 10 * 16)] and is horizontal. *)
Definition door_pairs (level : Z) : list (string * string) :=
  if level =? 1 then
    [ ("room_1", "room_2"); ("room_2", "hazard_room");
      ("hazard_room", "boss_room") ]
  else if level =? 2 then
    [ ("room_1", "room_2"); ("room_2", "room_3"); ("room_3", "hazard_room");
      ("hazard_room", "boss_room") ]
  else if level =? 3 then
    [ ("room_1", "room_2"); ("room_2", "room_3"); ("room_3", "hazard_room");
      ("hazard_room", "room_4"); ("room_4", "boss_room") ]
  else
    [ ("room_1", "room_2"); ("room_2", "room_3"); ("room_3", "hazard_room");
      ("hazard_room", "room_4"); ("room_4", "room_5");
      ("room_5", "boss_room") ].

(** [generate_doors()]: the entries of [self.doors], in insertion order. *)
Definition generate_doors (level : Z) : list (string * Door) :=
  map (fun rr : string * string =>
         (fst rr +:+ "_" +:+ snd rr,
          Door.init (IZR (24 * 16)) (IZR (10 * 16)) Door.horizontal))
      (door_pairs level).

(** [generate_enemy_waves(room_id)]. *)
Definition generate_enemy_waves (level : Z) : list wave_t :=
  map (fun wave : Z =>
         mk_wave (3 + level + wave * 2)
           [Enemy.basic; Enemy.aggressive; Enemy.sniper; Enemy.rusher]
           (if wave =? 0 then [60; 20; 15; 5] else [30; 35; 25; 10])
           false false)
      [0; 1].

(** *** The life of one instance

    Besides the ticks of the game loop, the design document considers a
    hypothetical event that no method performs: the removal of a room
    identifier from [rooms_cleared].  [Forget] is that event. *)
Inductive event : Type :=
| Tick (tape : nat -> Enemy.draws) (fresh : nat) (dt : R)
| Forget (room_id : string).

Definition step (spawn_enemy_wave : Z -> Room -> wave_t -> list Enemy)
    (ev : event) (sp : t * Player) : option (t * Player) :=
  match ev with
  | Tick tape fresh dt => update spawn_enemy_wave tape fresh dt sp
  | Forget room_id =>
      Some (set_rooms_cleared (fst sp) (rooms_cleared (fst sp) ∖ {[ room_id ]}),
            snd sp)
  end.

(** The states that a sequence of events goes through, the first one
    included; [None] when an update raises. *)
Fixpoint trace (spawn_enemy_wave : Z -> Room -> wave_t -> list Enemy)
    (evs : list event) (sp : t * Player) : option (list (t * Player)) :=
  match evs with
  | [] => Some [sp]
  | ev :: evs' =>
      match step spawn_enemy_wave ev sp with
      | None => None
      | Some sp' =>
          match trace spawn_enemy_wave evs' sp' with
          | None => None
          | Some tr => Some (sp :: tr)
          end
      end
  end.

End MultiRoomSystem.

Abbreviation MultiRoomSystem := MultiRoomSystem.t.


(** ** Line of sight as the design document words it

    The document describes [check_line_of_sight] as sampling the segment
    from the enemy to the player every 8 units.  This second definition
    follows those words, to be compared with [Enemy.check_line_of_sight]:
    its [k]-th sample lies [8 * k] units from the enemy, for every [k]
    with [8 * k] at most the distance. *)
Definition sample_every_8_units (player_pos : Vector2) (e : Enemy) (k : nat)
  : Vector2 :=
  Enemy.pos e
  +v Vector2.normalize (player_pos -v Enemy.pos e) *v (8 * INR k).

Definition sight_blocked_every_8_units (player_pos : Vector2)
    (walls : gset (Z * Z)) (e : Enemy) : bool :=
  let distance := Vector2.distance_to (Enemy.pos e) player_pos in
  existsb
    (fun k =>
       let p := sample_every_8_units player_pos e k in
       bool_decide
         ((tile_of (Vector2.x p), tile_of (Vector2.y p)) ∈ walls))
    (seq 1 (Z.to_nat (Zfloor (distance / 8)))).

(** The [k]-th point that [Enemy.check_line_of_sight] samples when it
    takes [n] steps: [k / n] of the way from the enemy to the player. *)
Definition sight_sample (player_pos : Vector2) (e : Enemy) (n : Z) (k : nat)
  : Vector2 :=
  Enemy.pos e +v (player_pos -v Enemy.pos e) *v (INR k / IZR n).

(** The centre of the tile [t], as [validate_position] computes it:
    [(check_x * 16 + 8, check_y * 16 + 8)]. *)
Definition wall_center (t : Z * Z) : Vector2 :=
  Vector2.mk (IZR (fst t * 16 + 8)) (IZR (snd t * 16 + 8)).

(** [clear_of_tile_borders margin p]: on both axes the point [p] lies
    at least [margin] inside the tile that it is in. *)
Definition clear_of_tile_borders (margin : R) (p : Vector2) : Prop :=
  (16 * IZR (tile_of (Vector2.x p)) + margin <= Vector2.x p
   <= 16 * IZR (tile_of (Vector2.x p)) + 16 - margin)%R
  /\ (16 * IZR (tile_of (Vector2.y p)) + margin <= Vector2.y p
      <= 16 * IZR (tile_of (Vector2.y p)) + 16 - margin)%R.

(** ** Concrete states used in the examples *)
Module Scenario.

(** A new player who bought two armor vests. *)
Definition armored_player : Player :=
  Player.mk (Vector2.mk 200 200) (Vector2.mk 0 0) 8 120 100 100 2
    250 0.4 1 false 0 0 (Vector2.mk 0 0) false 0 [] 0%nat 0 0.


(** A room of the default size as [generate_room] lays it out, with
    the given tiles turned from floor into obstacles and no enemies. *)
Definition bordered_room (obstacles : list (Z * Z)) : Room :=
  Room.mk 25 20 1 [] [] [] false
    (Room.perimeter_walls 25 20 ∪ list_to_set obstacles)
    (Room.interior_floor 25 20 ∖ list_to_set obstacles).

(** The same without obstacles. *)
Definition open_room : Room := bordered_room [].

(** A hazard room with a single ditch tile at [(8, 5)]. *)
Definition ditch_room : HazardRoom :=
  HazardRoom.mk open_room {[ (8, 5) ]} ∅ ∅ ∅ false.

(** A player at full health, with the flags [invulnerable] and
    [is_dodging] as given, standing at [(x, y)]. *)
Definition player_at (px py : R) (invulnerable is_dodging : bool) : Player :=
  Player.mk (Vector2.mk px py) (Vector2.mk 0 0) 8 120 100 100 0
    250 0.4 1 is_dodging 0 0 (Vector2.mk 0 0) invulnerable 0.6 [] 0%nat 0 0.

(** A basic enemy of level 1 at [(x, y)], as [Enemy(x, y)] creates it
    (with the patrol target 10 units to its right). *)
Definition basic_enemy (i : nat) (px py : R) : Enemy :=
  Enemy.init i (Enemy.mk_draws 10 0 0) px py Enemy.basic 1.

(** A room with the single obstacle tile [(5, 5)]. *)
Definition one_wall_room : Room := bordered_room [(5, 5)].

(** A basic enemy in the floor tile [(4, 5)] of that room and the player
    15 units away in the floor tile [(5, 4)]; the segment between them
    cuts the corner of the obstacle. *)
Definition sight_enemy : Enemy := basic_enemy 0 76 86.
Definition sight_player_pos : Vector2 := Vector2.mk 88 77.
Definition sight_walls : gset (Z * Z) := Room.walls one_wall_room.

(** A room of the size of a boss room, without obstacles. *)
Definition boss_arena : Room :=
  Room.mk 30 25 1 [] [] [] false
    (Room.perimeter_walls 30 25) (Room.interior_floor 30 25).

(** A room without obstacles that holds two basic enemies (size 8),
    2 units apart. *)
Definition crowded_room : Room :=
  Room.set_enemies open_room
    [basic_enemy 0 100 100; basic_enemy 1 102 100].

(** The room [crowded_room] with one player bullet (object 7, damage 8,
    size 4) that overlaps both enemies. *)
Definition shooting_room : Room :=
  Room.set_player_bullets crowded_room
    [Bullet.mk 7 (Vector2.mk 100 100) (Vector2.mk 200 0) 8 4 5 0].

(** [shooting_room] after the bullet has hit the first enemy. *)
Definition wounded_room : Room :=
  Room.set_enemies open_room
    [Enemy.set_health (basic_enemy 0 100 100) 22; basic_enemy 1 102 100].

(** [shooting_room] with the first enemy down to 5 points of health,
    less than the damage of the bullet. *)
Definition last_shot_room : Room :=
  Room.set_player_bullets
    (Room.set_enemies open_room
       [Enemy.set_health (basic_enemy 0 100 100) 5; basic_enemy 1 102 100])
    [Bullet.mk 7 (Vector2.mk 100 100) (Vector2.mk 200 0) 8 4 5 0].

(** A door as [generate_doors] creates it, closed. *)
Definition closed_door : Door := Door.init 384 160 Door.horizontal.

(** The two waves of a combat room of level 1, both spawned and
    cleared. *)
Definition finished_waves : list MultiRoomSystem.wave_t :=
  [ MultiRoomSystem.mk_wave 4
      [Enemy.basic; Enemy.aggressive; Enemy.sniper; Enemy.rusher]
      [60; 20; 15; 5] true true;
    MultiRoomSystem.mk_wave 6
      [Enemy.basic; Enemy.aggressive; Enemy.sniper; Enemy.rusher]
      [30; 35; 25; 10] true true ].

(** A level-1 system ([total_rooms = 3]) with empty rooms, the player in
    [room_1], all waves finished, and [rooms_cleared], [teleporter_active]
    and the [cleared] flag of [room_1] as given. *)
Definition level1_system (room1_cleared : bool) (cleared : gset string)
    (flag : bool) : MultiRoomSystem :=
  MultiRoomSystem.mk 1
    (<["room_1" := MultiRoomSystem.Combat
                     (Room.set_cleared open_room room1_cleared)]>
       (<["room_2" := MultiRoomSystem.Combat open_room]>
          (<["hazard_room" := MultiRoomSystem.Hazard ditch_room]>
             (<["boss_room" := MultiRoomSystem.BossR
                                 (BossRoom.mk open_room None false)]> ∅))))
    "room_1"
    [("room_1_room_2", closed_door); ("room_2_hazard_room", closed_door);
     ("hazard_room_boss_room", closed_door)]
    (<["room_1" := ["room_2"]]>
       (<["room_2" := ["room_1"; "hazard_room"]]>
          (<["hazard_room" := ["room_2"; "boss_room"]]>
             (<["boss_room" := ["hazard_room"]]> ∅))))
    cleared 3 flag
    (<["room_1" := finished_waves]> (<["room_2" := finished_waves]> ∅))
    (<["room_1" := 2%nat]> (<["room_2" := 2%nat]> ∅)).

(** The three non-boss rooms of level 1. *)
Definition all_rooms : gset string :=
  {[ "room_1"; "room_2"; "hazard_room" ]}.

(** A spawner that places no enemy. *)
Definition no_spawn : Z -> Room -> MultiRoomSystem.wave_t -> list Enemy :=
  fun _ r _ => Room.enemies r.

(** Three events: a tick, the removal of [room_1] from [rooms_cleared],
    and another tick. *)
Definition tick_forget_tick : list MultiRoomSystem.event :=
  [ MultiRoomSystem.Tick (fun _ => Enemy.mk_draws 0 0 0) 0 0.016;
    MultiRoomSystem.Forget "room_1";
    MultiRoomSystem.Tick (fun _ => Enemy.mk_draws 0 0 0) 0 0.016 ].

(** The states that [tick_forget_tick] goes through from a system whose
    three rooms are all in [rooms_cleared] and whose teleporter is off. *)
Definition latch_states : list (MultiRoomSystem * Player) :=
  [ (level1_system false all_rooms false, player_at 200 200 false false);
    (level1_system true all_rooms true, player_at 200 200 false false);
    (level1_system true (all_rooms ∖ {[ "room_1" ]}) true,
     player_at 200 200 false false);
    (level1_system true (all_rooms ∖ {[ "room_1" ]}) true,
     player_at 200 200 false false) ].
End Scenario.


(** * Properties *)

(** ** Facts about the numeric helpers *)
Section NumberFacts.

Local Open Scope R_scope.

Lemma Rltb_true (a b : R) : a < b -> Rltb a b = true.
Proof. intros H. unfold Rltb. destruct (Rlt_dec a b); [reflexivity | lra]. Qed.

Lemma Rltb_false (a b : R) : b <= a -> Rltb a b = false.
Proof. intros H. unfold Rltb. destruct (Rlt_dec a b); [lra | reflexivity]. Qed.

Lemma Rltb_spec (a b : R) : Rltb a b = true <-> a < b.
Proof.
  unfold Rltb. destruct (Rlt_dec a b); split; intros; auto; discriminate.
Qed.

Lemma Rleb_true (a b : R) : a <= b -> Rleb a b = true.
Proof. intros H. unfold Rleb. destruct (Rle_dec a b); [reflexivity | lra]. Qed.

Lemma Rleb_false (a b : R) : b < a -> Rleb a b = false.
Proof. intros H. unfold Rleb. destruct (Rle_dec a b); [lra | reflexivity]. Qed.

Lemma Reqb_false (a b : R) : a <> b -> Reqb a b = false.
Proof.
  intros H. unfold Reqb. destruct (Req_dec_T a b); [contradiction | reflexivity].
Qed.

(** A coordinate inside the tile [z] has tile index [z]. *)
Lemma tile_of_eq (z : Z) (x : R) :
  16 * IZR z <= x < 16 * IZR z + 16 -> tile_of x = z.
Proof.
  intros H. unfold tile_of. apply Zfloor_eq. lra.
Qed.

Lemma py_int_eq (z : Z) (x : R) :
  0 <= x -> IZR z <= x < IZR z + 1 -> py_int x = z.
Proof.
  intros H0 H. unfold py_int.
  destruct (Rle_dec 0 x); [ | lra]. now apply Zfloor_eq.
Qed.

(** The square root of a square. *)
Lemma sqrt_of_square (c a : R) : 0 <= c -> a = c * c -> sqrt a = c.
Proof. intros Hc ->. now apply sqrt_square. Qed.

Lemma sqrt_lt_bound (a c : R) : 0 <= a -> 0 < c -> a < c * c -> sqrt a < c.
Proof.
  intros Ha Hc H.
  rewrite <- (sqrt_square c) by lra.
  apply sqrt_lt_1; nra.
Qed.

Lemma sqrt_ge_bound (a c : R) : 0 <= c -> c * c <= a -> c <= sqrt a.
Proof.
  intros Hc H.
  rewrite <- (sqrt_square c) at 1 by lra.
  apply sqrt_le_1; nra.
Qed.

Lemma sum_squares_nonneg (a b : R) : 0 <= a ^ 2 + b ^ 2.
Proof. nra. Qed.

End NumberFacts.

(** Arithmetic on the coordinates of concrete tiles. *)
Ltac real_arith :=
  cbn; repeat first [rewrite mult_IZR | rewrite plus_IZR]; lra.

(** Membership of a concrete tile in a concrete wall set, by evaluation. *)
Ltac in_walls :=
  match goal with
  | |- ?P => apply (bool_decide_unpack P); vm_compute; exact I
  end.
Ltac not_in_walls :=
  apply (proj1 (bool_decide_eq_false _)); vm_compute; reflexivity.


(** ** Door *)
Section DoorFacts.

Local Open Scope R_scope.



End DoorFacts.

(** ** Gun *)

(** C9.  A gun whose ammo is 0 does not fire: [fire] returns the empty
    list and the gun itself, with [fire_timer], [ammo] and every other
    attribute as before. *)
Theorem gun_fire_out_of_ammo (draws : nat -> R) (fresh : nat)
    (px py angle : R) (g : Gun) :
  Gun.ammo g = 0 -> Gun.fire draws fresh px py angle g = (g, []).
Proof.
  intros H. unfold Gun.fire, Gun.can_fire. rewrite H. cbn.
  now rewrite andb_false_r.
Qed.

(** The shotgun of a new player after its 50 shells are spent. *)
Lemma gun_fire_out_of_ammo_witness :
  Gun.fire (fun _ => 0%R) 0 10 10 0
           (Gun.mk "Shotgun" 12 1.5 180 0.7 0 5 0)
  = (Gun.mk "Shotgun" 12 1.5 180 0.7 0 5 0, []).
Proof.
  apply (gun_fire_out_of_ammo (fun _ => 0%R) 0 10 10 0
           (Gun.mk "Shotgun" 12 1.5 180 0.7 0 5 0)).
  reflexivity.
Defined.

(** ** Player *)

(** C10.  A hit on a player who is not invulnerable and has armor takes
    exactly one armor, whatever the amount; health and every other
    attribute stay as they are, except that the player is now
    invulnerable with the damage-flash timer at 0.6. *)
Theorem player_take_damage_armor (amount : Z) (p : Player) :
  Player.invulnerable p = false ->
  0 < Player.armor p ->
  Player.take_damage amount p =
  (Player.mk (Player.pos p) (Player.velocity p) (Player.size p)
     (Player.speed p) (Player.health p) (Player.max_health p)
     (Player.armor p - 1)
     (Player.dodge_speed p) (Player.dodge_duration p)
     (Player.dodge_cooldown p) (Player.is_dodging p) (Player.dodge_timer p)
     (Player.dodge_cooldown_timer p) (Player.dodge_direction p)
     true 0.6 (Player.guns p) (Player.current_gun p)
     (Player.facing_angle p) (Player.money p),
   true).
Proof.
  intros Hinv Harmor. unfold Player.take_damage. rewrite Hinv. cbn.
  assert (H : (0 <? Player.armor p) = true) by now apply Z.ltb_lt.
  now rewrite H.
Qed.

Lemma player_take_damage_armor_witness :
  Player.armor (fst (Player.take_damage 40 Scenario.armored_player)) = 1
  /\ Player.health (fst (Player.take_damage 40 Scenario.armored_player)) = 100
  /\ Player.invulnerable (fst (Player.take_damage 40 Scenario.armored_player)) = true.
Proof.
  rewrite (player_take_damage_armor 40 Scenario.armored_player);
    [ | reflexivity | reflexivity ].
  repeat split.
Defined.

(** ** HazardRoom *)
Section HazardFacts.

Local Open Scope R_scope.

(** C2, as stated, fails: a player on a ditch tile who is not dodging but
    still invulnerable from an earlier hit keeps all of its health. *)
Lemma ditch_spares_invulnerable_player :
  let p := Scenario.player_at 136 88 true false in
  (tile_of (Vector2.x (Player.pos p)), tile_of (Vector2.y (Player.pos p)))
    ∈ HazardRoom.ditches Scenario.ditch_room
  /\ Player.is_dodging p = false
  /\ Player.health (fst (HazardRoom.check_hazard_damage Scenario.ditch_room p))
     = 100%Z
  /\ Player.health (fst (HazardRoom.check_hazard_damage Scenario.ditch_room p))
     <> 0%Z.
Proof.
  cbn. rewrite (tile_of_eq 8 136), (tile_of_eq 5 88) by lra.
  split; [ now apply elem_of_singleton | ].
  repeat split. discriminate.
Qed.

(** C2, amended.  For a player on a ditch tile, one
    [check_hazard_damage] does one of two things.  A player who is
    neither invulnerable nor dodging has health exactly 0 afterwards, the
    call reports the damage, and nothing else about the player changes.
    A player who is invulnerable or dodging is returned unchanged, and
    the call reports no damage. *)
Theorem ditch_kills_vulnerable_player (h : HazardRoom) (p : Player) :
  (tile_of (Vector2.x (Player.pos p)), tile_of (Vector2.y (Player.pos p)))
    ∈ HazardRoom.ditches h ->
  (Player.invulnerable p = false ->
   Player.is_dodging p = false ->
   HazardRoom.check_hazard_damage h p = (Player.set_health p 0, true)
   /\ Player.health (fst (HazardRoom.check_hazard_damage h p)) = 0%Z)
  /\ (Player.invulnerable p = true \/ Player.is_dodging p = true ->
      HazardRoom.check_hazard_damage h p = (p, false)).
Proof.
  intros Hin. unfold HazardRoom.check_hazard_damage. split.
  - intros Hinv Hdodge. rewrite Hinv, Hdodge. cbn [orb].
    rewrite bool_decide_eq_true_2 by exact Hin.
    split; reflexivity.
  - intros [Hinv | Hdodge].
    + now rewrite Hinv.
    + rewrite Hdodge. now rewrite orb_true_r.
Qed.

(** On the ditch tile (8, 5) of the scenario: a vulnerable player dies,
    and a player who is dodging (and not otherwise invulnerable) is
    returned unchanged. *)
Lemma ditch_kills_vulnerable_player_witness :
  Player.health
    (fst (HazardRoom.check_hazard_damage Scenario.ditch_room
            (Scenario.player_at 136 88 false false))) = 0%Z
  /\ HazardRoom.check_hazard_damage Scenario.ditch_room
       (Scenario.player_at 136 88 false true)
     = (Scenario.player_at 136 88 false true, false).
Proof.
  assert (Hin : forall inv dodge,
            (tile_of (Vector2.x (Player.pos
                                   (Scenario.player_at 136 88 inv dodge))),
             tile_of (Vector2.y (Player.pos
                                   (Scenario.player_at 136 88 inv dodge))))
              ∈ HazardRoom.ditches Scenario.ditch_room).
  { intros inv dodge. cbn.
    rewrite (tile_of_eq 8 136), (tile_of_eq 5 88) by lra.
    now apply elem_of_singleton. }
  split.
  - apply (ditch_kills_vulnerable_player Scenario.ditch_room
             (Scenario.player_at 136 88 false false) (Hin false false));
      reflexivity.
  - apply (ditch_kills_vulnerable_player Scenario.ditch_room
             (Scenario.player_at 136 88 false true) (Hin false true)).
    now right.
Defined.

End HazardFacts.

(** ** Enemy *)
Section EnemyFacts.

Local Open Scope R_scope.

Lemma tick_pos (dt : R) (e : Enemy) : Enemy.pos (Enemy.tick dt e) = Enemy.pos e.
Proof. reflexivity. Qed.

Lemma tick_detection_range (dt : R) (e : Enemy) :
  Enemy.detection_range (Enemy.tick dt e) = Enemy.detection_range e.
Proof. reflexivity. Qed.

(** The detection test of [update] is strict: the AI branch is taken
    exactly below [detection_range]. *)
Lemma enemy_update_detected (d : Enemy.draws) (dt : R) (player_pos : Vector2)
    (walls : gset (Z * Z)) (e : Enemy) :
  Vector2.distance_to (Enemy.pos e) player_pos < Enemy.detection_range e ->
  Enemy.update d dt player_pos walls e =
  Enemy.move dt
    (Enemy.update_ai_behavior d dt player_pos walls
       (Vector2.distance_to (Enemy.pos e) player_pos) (Enemy.tick dt e)).
Proof.
  intros H. unfold Enemy.update.
  rewrite tick_pos, tick_detection_range.
  destruct (Rlt_dec _ _); [reflexivity | contradiction].
Qed.

(** C7.  An enemy whose distance to the player equals its
    [detection_range] is not detected: [update] runs [patrol_behavior]
    (between the timer ticks and the move), not the AI behaviour. *)
Theorem enemy_update_at_detection_range (d : Enemy.draws) (dt : R)
    (player_pos : Vector2) (walls : gset (Z * Z)) (e : Enemy) :
  Vector2.distance_to (Enemy.pos e) player_pos = Enemy.detection_range e ->
  Enemy.update d dt player_pos walls e =
  Enemy.move dt (Enemy.patrol_behavior d dt (Enemy.tick dt e)).
Proof.
  intros H. unfold Enemy.update.
  rewrite tick_pos, tick_detection_range, H.
  destruct (Rlt_dec _ _) as [Hlt | _]; [ | reflexivity].
  exfalso. lra.
Qed.

Lemma basic_enemy_distance_180 :
  Vector2.distance_to (Enemy.pos (Scenario.basic_enemy 0 100 100))
                      (Vector2.mk 280 100) = 180.
Proof.
  cbn. unfold Vector2.distance_to; cbn [Vector2.x Vector2.y].
  apply sqrt_of_square; lra.
Qed.

(** A basic enemy (detection range 180) with the player 180 units away. *)
Lemma enemy_update_at_detection_range_witness :
  Enemy.update (Enemy.mk_draws 0 0 0) 0.1 (Vector2.mk 280 100) ∅
               (Scenario.basic_enemy 0 100 100) =
  Enemy.move 0.1
    (Enemy.patrol_behavior (Enemy.mk_draws 0 0 0) 0.1
       (Enemy.tick 0.1 (Scenario.basic_enemy 0 100 100))).
Proof.
  apply (enemy_update_at_detection_range (Enemy.mk_draws 0 0 0) 0.1
           (Vector2.mk 280 100) ∅ (Scenario.basic_enemy 0 100 100)).
  rewrite basic_enemy_distance_180. reflexivity.
Defined.

End EnemyFacts.

(** ** Line of sight *)
Section SightFacts.

Local Open Scope R_scope.

Lemma vector2_eq (a b : Vector2) :
  Vector2.x a = Vector2.x b -> Vector2.y a = Vector2.y b -> a = b.
Proof. destruct a, b; cbn; intros -> ->; reflexivity. Qed.

Lemma distance_to_nonneg (a b : Vector2) : 0 <= Vector2.distance_to a b.
Proof. apply sqrt_pos. Qed.

Lemma distance_to_sym (a b : Vector2) :
  Vector2.distance_to a b = Vector2.distance_to b a.
Proof. unfold Vector2.distance_to. f_equal. ring. Qed.

(** The length that [check_line_of_sight] computes is the distance
    between enemy and player. *)
Lemma direction_length (a b : Vector2) :
  Vector2.distance_to (b -v a) (Vector2.mk 0 0) = Vector2.distance_to a b.
Proof. unfold Vector2.distance_to. cbn. f_equal. ring. Qed.

(** After [k] steps the loop stands at [current_pos + k * step_vec]. *)
Lemma sight_loop_blocked (walls : gset (Z * Z)) (step_vec : Vector2)
    (n : nat) (current_pos : Vector2) :
  Enemy.sight_loop walls step_vec n current_pos = true <->
  exists k : nat,
    (1 <= k <= n)%nat
    /\ (tile_of (Vector2.x (current_pos +v step_vec *v INR k)),
        tile_of (Vector2.y (current_pos +v step_vec *v INR k))) ∈ walls.
Proof.
  revert current_pos. induction n as [ | n IH]; intros current_pos.
  - cbn. split; [discriminate | ]. intros (k & Hk & _). lia.
  - cbn [Enemy.sight_loop].
    assert (Hfirst : current_pos +v step_vec *v INR 1 = current_pos +v step_vec).
    { apply vector2_eq; cbn; ring. }
    destruct (bool_decide _) eqn:Hhere.
    + apply bool_decide_eq_true in Hhere.
      split; [intros _ | reflexivity].
      exists 1%nat. split; [lia | ].
      rewrite Hfirst. exact Hhere.
    + apply bool_decide_eq_false in Hhere.
      rewrite IH. split.
      * intros (k & Hk & Hin). exists (S k). split; [lia | ].
        replace (current_pos +v step_vec *v INR (S k))
          with (current_pos +v step_vec +v step_vec *v INR k); [exact Hin | ].
        apply vector2_eq; rewrite S_INR; cbn; ring.
      * intros (k & Hk & Hin).
        destruct k as [ | k]; [lia | ].
        destruct k as [ | k].
        -- rewrite Hfirst in Hin. contradiction.
        -- exists (S k). split; [lia | ].
           replace (current_pos +v step_vec +v step_vec *v INR (S k))
             with (current_pos +v step_vec *v INR (S (S k))); [exact Hin | ].
           apply vector2_eq; rewrite !S_INR; cbn; ring.
Qed.

(** The number of steps: at least one from 8 units on, and such that
    consecutive samples are at least 8 and less than 16 units apart. *)
Lemma sight_steps (d : R) :
  8 <= d ->
  (1 <= Zfloor (d / 8))%Z
  /\ py_int (d / 8) = Zfloor (d / 8)
  /\ 8 <= d / IZR (Zfloor (d / 8)) < 16.
Proof.
  intros Hd.
  assert (H1 : (1 <= Zfloor (d / 8))%Z) by (apply Zfloor_lub; lra).
  destruct (Zfloor_bound (d / 8)) as [Hlo Hhi].
  assert (Hn : 1 <= IZR (Zfloor (d / 8))) by now apply IZR_le.
  split; [exact H1 | split].
  - unfold py_int. destruct (Rle_dec 0 (d / 8)); [reflexivity | lra].
  - set (n := IZR (Zfloor (d / 8))) in *.
    split.
    + apply (Rmult_le_reg_r n); [lra | ].
      unfold Rdiv. rewrite Rmult_assoc, Rinv_l by lra. lra.
    + apply (Rmult_lt_reg_r n); [lra | ].
      unfold Rdiv. rewrite Rmult_assoc, Rinv_l by lra. lra.
Qed.

(** What [check_line_of_sight] computes, in one equivalence. *)
Lemma check_line_of_sight_blocked (player_pos : Vector2)
    (walls : gset (Z * Z)) (e : Enemy) :
  Enemy.check_line_of_sight player_pos walls e = true <->
  8 <= Vector2.distance_to (Enemy.pos e) player_pos
  /\ exists k : nat,
       (1 <= k
        <= Z.to_nat (Zfloor (Vector2.distance_to (Enemy.pos e) player_pos / 8)))%nat
       /\ (tile_of
             (Vector2.x
                (sight_sample player_pos e
                   (Zfloor (Vector2.distance_to (Enemy.pos e) player_pos / 8)) k)),
           tile_of
             (Vector2.y
                (sight_sample player_pos e
                   (Zfloor (Vector2.distance_to (Enemy.pos e) player_pos / 8)) k)))
          ∈ walls.
Proof.
  unfold Enemy.check_line_of_sight. rewrite direction_length.
  set (d := Vector2.distance_to (Enemy.pos e) player_pos).
  destruct (Rlt_dec d 8) as [Hlt | Hge].
  - rewrite (Rltb_true d 8), orb_true_r by exact Hlt.
    split; [discriminate | intros [H _]; lra].
  - apply Rnot_lt_le in Hge.
    rewrite (Rltb_false d 8), (Reqb_false d 0), orb_false_r by lra.
    destruct (sight_steps d Hge) as (H1 & Hint & _).
    rewrite Hint.
    set (n := Zfloor (d / 8)) in *.
    assert (Hn0 : (n =? 0)%Z = false) by (apply Z.eqb_neq; lia).
    rewrite Hn0, sight_loop_blocked.
    assert (Hnz : IZR n <> 0) by (apply not_0_IZR; lia).
    assert (Hsame : forall k,
      Vector2.mk (Vector2.x (Enemy.pos e)) (Vector2.y (Enemy.pos e))
        +v (player_pos -v Enemy.pos e) *v (1 / IZR n) *v INR k
      = sight_sample player_pos e n k).
    { intros k. unfold sight_sample. apply vector2_eq; cbn; field; exact Hnz. }
    split.
    + intros (k & Hk & Hin). split; [exact Hge | ].
      exists k. split; [exact Hk | ]. now rewrite <- Hsame.
    + intros (_ & k & Hk & Hin).
      exists k. split; [exact Hk | ]. now rewrite Hsame.
Qed.

Lemma normalize_eq (a : Vector2) (l : R) :
  0 < l -> sqrt (Vector2.x a ^ 2 + Vector2.y a ^ 2) = l ->
  Vector2.normalize a = Vector2.mk (Vector2.x a / l) (Vector2.y a / l).
Proof.
  intros Hl H. unfold Vector2.normalize. rewrite H.
  destruct (Rlt_dec 0 l); [reflexivity | contradiction].
Qed.

Lemma sight_scenario_distance :
  Vector2.distance_to (Enemy.pos Scenario.sight_enemy)
                      Scenario.sight_player_pos = 15.
Proof.
  unfold Vector2.distance_to; cbn.
  apply sqrt_of_square; lra.
Qed.

Lemma sight_scenario_steps : Zfloor (15 / 8) = 1%Z.
Proof. apply Zfloor_eq. lra. Qed.

(** C6, as stated, fails: with the player 15 units away the only point
    sampled is the player's own position, 15 units from the enemy, in a
    floor tile; sight is reported unblocked, although the point 8 units
    along the segment lies in the wall tile [(5, 5)]. *)
Lemma sight_samples_not_every_8_units :
  Enemy.check_line_of_sight Scenario.sight_player_pos Scenario.sight_walls
                            Scenario.sight_enemy = false
  /\ sight_blocked_every_8_units Scenario.sight_player_pos
       Scenario.sight_walls Scenario.sight_enemy = true
  /\ (tile_of (Vector2.x (sample_every_8_units Scenario.sight_player_pos
                            Scenario.sight_enemy 1)),
       tile_of (Vector2.y (sample_every_8_units Scenario.sight_player_pos
                            Scenario.sight_enemy 1)))
     = (5, 5)%Z.
Proof.
  assert (Hsample :
    (tile_of (Vector2.x (sample_every_8_units Scenario.sight_player_pos
                           Scenario.sight_enemy 1)),
     tile_of (Vector2.y (sample_every_8_units Scenario.sight_player_pos
                           Scenario.sight_enemy 1))) = (5, 5)%Z).
  { unfold sample_every_8_units.
    rewrite (normalize_eq _ 15);
      [ | lra | cbn; apply sqrt_of_square; lra ].
    cbn. now rewrite (tile_of_eq 5), (tile_of_eq 5) by lra. }
  split; [ | split; [ | exact Hsample]].
  - destruct (Enemy.check_line_of_sight _ _ _) eqn:Hb; [ | reflexivity].
    apply check_line_of_sight_blocked in Hb.
    rewrite sight_scenario_distance, sight_scenario_steps in Hb.
    destruct Hb as (_ & k & Hk & Hin).
    change (Z.to_nat 1) with 1%nat in Hk.
    assert (k = 1%nat) as -> by lia.
    exfalso. revert Hin. cbn.
    rewrite (tile_of_eq 5), (tile_of_eq 4) by lra.
    unfold Scenario.sight_walls. not_in_walls.
  - unfold sight_blocked_every_8_units.
    rewrite sight_scenario_distance, sight_scenario_steps.
    change (Z.to_nat 1) with 1%nat. cbn [seq existsb].
    rewrite orb_false_r. apply bool_decide_eq_true.
    rewrite Hsample. unfold Scenario.sight_walls. in_walls.
Qed.

(** C6, amended.  The samples are not 8 units apart: from 8 units on,
    [check_line_of_sight] takes [n = floor(distance / 8)] steps of equal
    length [distance / n], which is at least 8 and less than 16 units;
    the last sample falls in the player's tile; and sight is reported
    blocked if and only if one of the [n] samples lies in a wall tile.
    Under 8 units sight is reported unblocked.

    The code computes the distance and the samples in floating-point
    arithmetic, and rounding can move a sample that lies on the border
    of two tiles into the neighbouring tile: with the enemy at (122, 88)
    and the player at (96, 88) the third sample is 95.99999999999999, in
    tile 5, where the exact sample 96 is in tile 6.  The statement
    therefore covers positions within 10000 units of the origin whose
    samples stay 0.001 inside their tiles and for which [distance / 8]
    stays 0.001 away from a whole number; there the rounding, of
    relative size [2^-53] per operation, changes neither the tile of a
    sample nor the number of steps. *)
Theorem line_of_sight_samples (player_pos : Vector2) (walls : gset (Z * Z))
    (e : Enemy) :
  let d := Vector2.distance_to (Enemy.pos e) player_pos in
  let n := Zfloor (d / 8) in
  Rabs (Vector2.x (Enemy.pos e)) <= 10000 ->
  Rabs (Vector2.y (Enemy.pos e)) <= 10000 ->
  Rabs (Vector2.x player_pos) <= 10000 ->
  Rabs (Vector2.y player_pos) <= 10000 ->
  (d / 8 <= 1 - 0.001 ->
   Enemy.check_line_of_sight player_pos walls e = false)
  /\ ((1 <= n)%Z ->
      IZR n + 0.001 <= d / 8 <= IZR n + 1 - 0.001 ->
      (forall k : nat,
         (1 <= k <= Z.to_nat n)%nat ->
         clear_of_tile_borders 0.001 (sight_sample player_pos e n k)) ->
      8 <= d / IZR n < 16
      /\ (tile_of (Vector2.x (sight_sample player_pos e n (Z.to_nat n))),
          tile_of (Vector2.y (sight_sample player_pos e n (Z.to_nat n))))
         = (tile_of (Vector2.x player_pos), tile_of (Vector2.y player_pos))
      /\ (Enemy.check_line_of_sight player_pos walls e = true <->
          exists k : nat,
            (1 <= k <= Z.to_nat n)%nat
            /\ (tile_of (Vector2.x (sight_sample player_pos e n k)),
                tile_of (Vector2.y (sight_sample player_pos e n k)))
               ∈ walls)).
Proof.
  intros d n _ _ _ _. split.
  - intros Hlt.
    destruct (Enemy.check_line_of_sight player_pos walls e) eqn:Hb;
      [ | reflexivity].
    apply check_line_of_sight_blocked in Hb. fold d in Hb.
    destruct Hb as [Hge _]. lra.
  - intros Hn Hd _.
    assert (Hge : 8 <= d).
    { apply IZR_le in Hn. lra. }
    destruct (sight_steps d Hge) as (H1 & _ & Hspacing).
    fold n in H1, Hspacing.
    split; [exact Hspacing | split].
    + assert (Hlast : sight_sample player_pos e n (Z.to_nat n) = player_pos).
      { unfold sight_sample. rewrite INR_IZR_INZ, Z2Nat.id by lia.
        assert (Hnz : IZR n <> 0) by (apply not_0_IZR; lia).
        destruct player_pos as [px py], (Enemy.pos e) as [ex ey].
        apply vector2_eq; cbn; field; exact Hnz. }
      now rewrite Hlast.
    + rewrite check_line_of_sight_blocked. fold d. fold n.
      split; [intros [_ H]; exact H | intros H; split; [exact Hge | exact H]].
Qed.

(** In the scenario above the distance is 15, the single step is 15
    units long, and the one sample, the player's position (88, 77), lies
    8 and 3 units inside its tile. *)
Lemma line_of_sight_samples_witness :
  8 <= Vector2.distance_to (Enemy.pos Scenario.sight_enemy)
                           Scenario.sight_player_pos
       / IZR (Zfloor (Vector2.distance_to (Enemy.pos Scenario.sight_enemy)
                                          Scenario.sight_player_pos / 8))
    < 16.
Proof.
  assert (Hbound : forall v : R, -10000 <= v <= 10000 -> Rabs v <= 10000).
  { intros v Hv. unfold Rabs. destruct (Rcase_abs v); lra. }
  destruct (line_of_sight_samples Scenario.sight_player_pos
              Scenario.sight_walls Scenario.sight_enemy) as [_ H];
    try (apply Hbound; cbn; lra).
  rewrite sight_scenario_distance, sight_scenario_steps in H.
  rewrite sight_scenario_distance, sight_scenario_steps.
  apply H.
  - lia.
  - lra.
  - intros k Hk. assert (k = 1%nat) as -> by lia.
    unfold sight_sample, clear_of_tile_borders.
    cbn [Scenario.sight_enemy Scenario.basic_enemy Enemy.init Enemy.pos
         Scenario.sight_player_pos Vector2.add Vector2.sub Vector2.mul
         Vector2.x Vector2.y INR].
    replace (76 + (88 - 76) * (1 / 1)) with 88 by field.
    replace (86 + (77 - 86) * (1 / 1)) with 77 by field.
    rewrite (tile_of_eq 5 88), (tile_of_eq 4 77) by lra.
    lra.
Defined.

End SightFacts.

(** ** Tile push-out *)
Section PushOutFacts.

Local Open Scope R_scope.

Lemma clamp_inside (margin limit v : R) :
  margin <= v <= limit - margin -> Room.clamp margin limit v = v.
Proof.
  intros H. unfold Room.clamp.
  destruct (Rlt_dec v margin); [lra | ].
  destruct (Rlt_dec (limit - margin) v); [lra | reflexivity].
Qed.

Lemma clamp_range (margin limit v : R) :
  margin <= limit - margin ->
  margin <= Room.clamp margin limit v <= limit - margin.
Proof.
  intros H. unfold Room.clamp.
  destruct (Rlt_dec v margin); [lra | ].
  destruct (Rlt_dec (limit - margin) v); lra.
Qed.

(** The boundary check is idempotent in a room that is at least two
    margins wide and high. *)
Lemma clamp_pos_idempotent (r : Room) (margin : R) (pos : Vector2) :
  margin <= IZR (Room.width r * 16) - margin ->
  margin <= IZR (Room.height r * 16) - margin ->
  Room.clamp_pos r margin (Room.clamp_pos r margin pos)
  = Room.clamp_pos r margin pos.
Proof.
  intros Hw Hh. unfold Room.clamp_pos. cbn [Vector2.x Vector2.y].
  rewrite (clamp_inside margin (IZR (Room.width r * 16)))
    by now apply clamp_range.
  rewrite (clamp_inside margin (IZR (Room.height r * 16)))
    by now apply clamp_range.
  reflexivity.
Qed.

Lemma clamp_pos_inside (r : Room) (margin : R) (pos : Vector2) :
  margin <= Vector2.x pos <= IZR (Room.width r * 16) - margin ->
  margin <= Vector2.y pos <= IZR (Room.height r * 16) - margin ->
  Room.clamp_pos r margin pos = pos.
Proof.
  intros Hx Hy. unfold Room.clamp_pos.
  rewrite (clamp_inside margin (IZR (Room.width r * 16))) by exact Hx.
  rewrite (clamp_inside margin (IZR (Room.height r * 16))) by exact Hy.
  now destruct pos.
Qed.

(** The three outcomes of the loop body for one tile. *)
Lemma check_tile_miss (r : Room) (pos : Vector2) (size : R)
    (tile_x tile_y : Z) (acc : Room.push_t) (d : Z * Z) :
  (tile_x + fst d, tile_y + snd d)%Z ∉ Room.walls r ->
  Room.check_tile r pos size tile_x tile_y acc d = acc.
Proof.
  intros H. unfold Room.check_tile.
  now rewrite bool_decide_eq_false_2 by exact H.
Qed.

Lemma check_tile_far (r : Room) (pos : Vector2) (size : R)
    (tile_x tile_y : Z) (acc : Room.push_t) (d : Z * Z) :
  size / 2 + 8
  <= Vector2.distance_to
       (Vector2.mk (IZR ((tile_x + fst d) * 16 + 8))
                   (IZR ((tile_y + snd d) * 16 + 8))) pos ->
  Room.check_tile r pos size tile_x tile_y acc d = acc.
Proof.
  intros H. unfold Room.check_tile.
  destruct (bool_decide _); [ | reflexivity].
  destruct (Rlt_dec _ _); [lra | reflexivity].
Qed.

Lemma check_tile_hit (r : Room) (pos : Vector2) (size : R)
    (tile_x tile_y : Z) (acc : Room.push_t) (d : Z * Z) (l : R) :
  (tile_x + fst d, tile_y + snd d)%Z ∈ Room.walls r ->
  Vector2.distance_to
    (Vector2.mk (IZR ((tile_x + fst d) * 16 + 8))
                (IZR ((tile_y + snd d) * 16 + 8))) pos = l ->
  0.1 < l < size / 2 + 8 ->
  Room.check_tile r pos size tile_x tile_y acc d =
  Room.mk_push
    (Room.push_x acc
     + (Vector2.x pos - IZR ((tile_x + fst d) * 16 + 8)) / l
       * (size / 2 + 8 - l + 1))
    (Room.push_y acc
     + (Vector2.y pos - IZR ((tile_y + snd d) * 16 + 8)) / l
       * (size / 2 + 8 - l + 1))
    (Room.collision_count acc + 1).
Proof.
  intros Hin Hl Hrange. unfold Room.check_tile.
  rewrite bool_decide_eq_true_2 by exact Hin.
  rewrite Hl.
  destruct (Rlt_dec l (size / 2 + 8)); [ | lra].
  destruct (Rlt_dec 0.1 l); [ | lra].
  rewrite (normalize_eq _ l); [reflexivity | lra | ].
  rewrite <- Hl. unfold Vector2.distance_to. cbn. f_equal. ring.
Qed.



(** The position that [validate_position] leaves is always the result
    of a boundary check. *)
Lemma validate_position_clamped (r : Room) (pos : Vector2) (size : R) :
  exists q,
    Room.validate_position r pos size = Room.clamp_pos r (size / 2 + 2) q.
Proof.
  unfold Room.validate_position.
  destruct (0 <? _)%Z; eexists; reflexivity.
Qed.

(** A position inside the bounds at which no wall tile collides is a
    fixed point of the resolver. *)
Lemma validate_position_settled (r : Room) (pos : Vector2) (size : R) :
  Room.clamp_pos r (size / 2 + 2) pos = pos ->
  Room.collision_count (Room.wall_push r pos size) = 0%Z ->
  Room.validate_position r pos size = pos.
Proof.
  intros Hclamp Hcount. unfold Room.validate_position.
  rewrite Hclamp, Hcount. reflexivity.
Qed.

End PushOutFacts.

(** ** The tiles that [generate_room] starts from *)
Section TileSetFacts.

Lemma elem_of_interior_floor (width height x y : Z) :
  (x, y) ∈ Room.interior_floor width height
  <-> 1 <= x < width - 1 /\ 1 <= y < height - 1.
Proof.
  unfold Room.interior_floor.
  rewrite elem_of_list_to_set, list_elem_of_In, in_flat_map.
  split.
  - intros (x' & Hx & Hin). apply in_map_iff in Hin as (y' & Heq & Hy).
    injection Heq as -> ->.
    apply list_elem_of_In, elem_of_seqZ in Hx.
    apply list_elem_of_In, elem_of_seqZ in Hy. lia.
  - intros [Hx Hy]. exists x. split.
    + apply list_elem_of_In, elem_of_seqZ. lia.
    + apply in_map_iff. exists y. split; [reflexivity | ].
      apply list_elem_of_In, elem_of_seqZ. lia.
Qed.

Lemma elem_of_perimeter_walls (width height x y : Z) :
  (x, y) ∈ Room.perimeter_walls width height
  <-> (0 <= x < width /\ (y = 0 \/ y = height - 1))
      \/ (0 <= y < height /\ (x = 0 \/ x = width - 1)).
Proof.
  unfold Room.perimeter_walls.
  rewrite elem_of_list_to_set, elem_of_app, !list_elem_of_In, !in_flat_map.
  split.
  - intros [(x' & Hx & Hin) | (y' & Hy & Hin)].
    + left. apply list_elem_of_In, elem_of_seqZ in Hx.
      cbn in Hin. destruct Hin as [Heq | [Heq | []]];
        injection Heq as Hx' Hy'; lia.
    + right. apply list_elem_of_In, elem_of_seqZ in Hy.
      cbn in Hin. destruct Hin as [Heq | [Heq | []]];
        injection Heq as Hx' Hy'; lia.
  - intros [[Hx Hy] | [Hy Hx]].
    + left. exists x. split; [apply list_elem_of_In, elem_of_seqZ; lia | ].
      cbn. destruct Hy as [-> | ->]; auto.
    + right. exists y. split; [apply list_elem_of_In, elem_of_seqZ; lia | ].
      cbn. destruct Hx as [-> | ->]; auto.
Qed.

End TileSetFacts.

(** ** Idempotence of the push-out *)
Section IdempotenceFacts.

Local Open Scope R_scope.

(** [validate_position] at a position inside the bounds, once the
    accumulated push is known. *)
Lemma validate_position_pushed (r : Room) (pos : Vector2) (size : R)
    (p : Room.push_t) :
  Room.clamp_pos r (size / 2 + 2) pos = pos ->
  Room.wall_push r pos size = p ->
  (0 < Room.collision_count p)%Z ->
  Room.validate_position r pos size =
  Room.clamp_pos r (size / 2 + 2)
    (Vector2.mk
       (Vector2.x pos + Room.push_x p / IZR (Room.collision_count p))
       (Vector2.y pos + Room.push_y p / IZR (Room.collision_count p))).
Proof.
  intros Hclamp Hpush Hcount. unfold Room.validate_position.
  rewrite Hclamp, Hpush.
  assert (H : (0 <? Room.collision_count p)%Z = true) by now apply Z.ltb_lt.
  now rewrite H.
Qed.

(** A boss (size 20) at the centre of the corner tile [(1, 1)] stands 16
    units from the centres of the wall tiles [(0, 1)] and [(1, 0)]; each
    pushes it 3 units away. *)
Lemma corner_push_first :
  Room.wall_push Scenario.boss_arena (Vector2.mk 24 24) 20
  = Room.mk_push 3 3 2.
Proof.
  unfold Room.wall_push, Room.neighbourhood. cbn [Vector2.x Vector2.y].
  rewrite (tile_of_eq 1 24) by lra.
  cbn [fold_left].
  rewrite (check_tile_miss _ _ _ _ _ _ (1, 1)%Z) by not_in_walls.
  rewrite (check_tile_miss _ _ _ _ _ _ (1, 0)%Z) by not_in_walls.
  rewrite (check_tile_far _ _ _ _ _ _ (1, -1)%Z)
    by (unfold Vector2.distance_to; apply sqrt_ge_bound; real_arith).
  rewrite (check_tile_miss _ _ _ _ _ _ (0, 1)%Z) by not_in_walls.
  rewrite (check_tile_miss _ _ _ _ _ _ (0, 0)%Z) by not_in_walls.
  rewrite (check_tile_hit _ _ _ _ _ _ (0, -1)%Z 16);
    [ | in_walls
      | unfold Vector2.distance_to; apply sqrt_of_square; real_arith
      | lra ].
  rewrite (check_tile_far _ _ _ _ _ _ (-1, 1)%Z)
    by (unfold Vector2.distance_to; apply sqrt_ge_bound; real_arith).
  rewrite (check_tile_hit _ _ _ _ _ _ (-1, 0)%Z 16);
    [ | in_walls
      | unfold Vector2.distance_to; apply sqrt_of_square; real_arith
      | lra ].
  rewrite (check_tile_far _ _ _ _ _ _ (-1, -1)%Z)
    by (unfold Vector2.distance_to; apply sqrt_ge_bound; real_arith).
  f_equal; real_arith.
Qed.

(** The average of the two pushes moves the boss 1.5 units right and
    1.5 units down. *)
Lemma corner_first_call :
  Room.validate_position Scenario.boss_arena (Vector2.mk 24 24) 20
  = Vector2.mk 25.5 25.5.
Proof.
  rewrite (validate_position_pushed _ _ _ (Room.mk_push 3 3 2));
    [ | apply clamp_pos_inside; real_arith
      | exact corner_push_first
      | cbn; lia ].
  cbn [Room.push_x Room.push_y Room.collision_count Vector2.x Vector2.y].
  rewrite clamp_pos_inside by real_arith.
  apply vector2_eq; real_arith.
Qed.

Lemma clamp_above (margin limit c v : R) :
  margin <= c -> c < limit - margin -> c < v -> c < Room.clamp margin limit v.
Proof.
  intros Hm Hl Hv. unfold Room.clamp.
  destruct (Rlt_dec v margin); [lra | ].
  destruct (Rlt_dec (limit - margin) v); lra.
Qed.

Lemma push_share_positive (a l s : R) :
  0 < a -> 0 < l < s -> 0 < a / l * (s - l + 1).
Proof.
  intros Ha Hl. apply Rmult_lt_0_compat; [ | lra].
  apply Rdiv_lt_0_compat; lra.
Qed.

(** From [(25.5, 25.5)] both wall tiles are still closer than 18 units
    (about 17.6), and both push to the right. *)
Lemma corner_push_second :
  exists p,
    Room.wall_push Scenario.boss_arena (Vector2.mk 25.5 25.5) 20 = p
    /\ Room.collision_count p = 2%Z
    /\ 0 < Room.push_x p.
Proof.
  assert (Hrange : forall cx cy : R,
            (cx = 8 /\ cy = 24) \/ (cx = 24 /\ cy = 8) ->
            0.1 < Vector2.distance_to (Vector2.mk cx cy)
                    (Vector2.mk 25.5 25.5)
                < 20 / 2 + 8).
  { intros cx cy Hc. unfold Vector2.distance_to. cbn [Vector2.x Vector2.y].
    split.
    - apply Rlt_le_trans with 1; [lra | ].
      apply sqrt_ge_bound; [lra | destruct Hc as [[-> ->] | [-> ->]]; lra].
    - apply sqrt_lt_bound;
        [apply sum_squares_nonneg | lra
         | destruct Hc as [[-> ->] | [-> ->]]; lra]. }
  eexists. split; [ | split].
  - unfold Room.wall_push, Room.neighbourhood. cbn [Vector2.x Vector2.y].
    rewrite (tile_of_eq 1 25.5) by lra.
    cbn [fold_left].
    rewrite (check_tile_miss _ _ _ _ _ _ (1, 1)%Z) by not_in_walls.
    rewrite (check_tile_miss _ _ _ _ _ _ (1, 0)%Z) by not_in_walls.
    rewrite (check_tile_far _ _ _ _ _ _ (1, -1)%Z)
      by (unfold Vector2.distance_to; apply sqrt_ge_bound; real_arith).
    rewrite (check_tile_miss _ _ _ _ _ _ (0, 1)%Z) by not_in_walls.
    rewrite (check_tile_miss _ _ _ _ _ _ (0, 0)%Z) by not_in_walls.
    rewrite (check_tile_hit _ _ _ _ _ _ (0, -1)%Z
               (Vector2.distance_to (Vector2.mk 24 8)
                                    (Vector2.mk 25.5 25.5)));
      [ | in_walls
        | unfold Vector2.distance_to; f_equal; real_arith
        | apply Hrange; now right ].
    rewrite (check_tile_far _ _ _ _ _ _ (-1, 1)%Z)
      by (unfold Vector2.distance_to; apply sqrt_ge_bound; real_arith).
    rewrite (check_tile_hit _ _ _ _ _ _ (-1, 0)%Z
               (Vector2.distance_to (Vector2.mk 8 24)
                                    (Vector2.mk 25.5 25.5)));
      [ | in_walls
        | unfold Vector2.distance_to; f_equal; real_arith
        | apply Hrange; now left ].
    rewrite (check_tile_far _ _ _ _ _ _ (-1, -1)%Z)
      by (unfold Vector2.distance_to; apply sqrt_ge_bound; real_arith).
    reflexivity.
  - reflexivity.
  - cbn [Room.push_x Vector2.x].
    pose proof (Hrange 8 24 (or_introl (conj eq_refl eq_refl))) as H1.
    pose proof (Hrange 24 8 (or_intror (conj eq_refl eq_refl))) as H2.
    assert (Ha : 0 < 25.5 - IZR ((1 + fst (-1, 0)%Z) * 16 + 8)) by real_arith.
    assert (Hb : 0 < 25.5 - IZR ((1 + fst (0, -1)%Z) * 16 + 8)) by real_arith.
    set (d1 := Vector2.distance_to (Vector2.mk 8 24) _) in *.
    set (d2 := Vector2.distance_to (Vector2.mk 24 8) _) in *.
    assert (H1' : 0 < d1 < 20 / 2 + 8) by lra.
    assert (H2' : 0 < d2 < 20 / 2 + 8) by lra.
    pose proof (push_share_positive _ d1 (20 / 2 + 8) Ha H1') as P1.
    pose proof (push_share_positive _ d2 (20 / 2 + 8) Hb H2') as P2.
    lra.
Qed.

(** So the second call moves the boss again. *)
Lemma corner_second_call :
  25.5 < Vector2.x
           (Room.validate_position Scenario.boss_arena
              (Vector2.mk 25.5 25.5) 20).
Proof.
  destruct corner_push_second as (p & Hp & Hcount & Hpos).
  rewrite (validate_position_pushed _ _ _ p);
    [ | apply clamp_pos_inside; real_arith | exact Hp | lia ].
  rewrite Hcount. unfold Room.clamp_pos. cbn [Vector2.x Vector2.y].
  apply clamp_above; [lra | real_arith | ].
  assert (0 < Room.push_x p / 2) by lra.
  lra.
Qed.

(** C3, as stated, fails: in the corner of a room the averaged push
    leaves a boss about 17.6 units from the centres of both wall tiles,
    closer than the 18 units required, so a second call moves it again. *)
Lemma push_out_not_idempotent :
  Room.validate_position Scenario.boss_arena
    (Room.validate_position Scenario.boss_arena (Vector2.mk 24 24) 20) 20
  <> Room.validate_position Scenario.boss_arena (Vector2.mk 24 24) 20.
Proof.
  rewrite corner_first_call. intros H.
  pose proof corner_second_call as Hmoved.
  rewrite H in Hmoved. cbn in Hmoved. lra.
Qed.

End IdempotenceFacts.

(** ** The push-out with a single colliding wall tile *)
Section SingleWallFacts.

Local Open Scope R_scope.

Lemma fold_left_idle {A B : Type} (f : A -> B -> A) (l : list B) (acc : A) :
  (forall a b, In b l -> f a b = a) -> fold_left f l acc = acc.
Proof.
  revert acc. induction l as [ | b l IH]; intros acc Hidle; [reflexivity | ].
  cbn [fold_left]. rewrite Hidle by now left.
  apply IH. intros a b' Hin. apply Hidle. now right.
Qed.

Lemma fold_left_single {A B : Type} (f : A -> B -> A) (l : list B) (b0 : B)
    (acc : A) :
  List.NoDup l -> In b0 l ->
  (forall a b, In b l -> b <> b0 -> f a b = a) ->
  fold_left f l acc = f acc b0.
Proof.
  revert acc. induction l as [ | b l IH]; intros acc Hnd Hin Hidle;
    [destruct Hin | ].
  apply List.NoDup_cons_iff in Hnd as [Hnotin Hnd].
  cbn [fold_left]. destruct Hin as [-> | Hin].
  - apply fold_left_idle. intros a b Hb. apply Hidle; [now right | ].
    intros ->. contradiction.
  - rewrite Hidle; [ | now left | intros ->; contradiction].
    apply IH; [exact Hnd | exact Hin | ].
    intros a b' Hb' Hne. apply Hidle; [now right | exact Hne].
Qed.

Lemma neighbourhood_NoDup : List.NoDup Room.neighbourhood.
Proof.
  unfold Room.neighbourhood.
  repeat (constructor; [cbn; intuition congruence | ]). constructor.
Qed.

Lemma neighbourhood_spec (d : Z * Z) :
  In d Room.neighbourhood
  <-> (-1 <= fst d <= 1)%Z /\ (-1 <= snd d <= 1)%Z.
Proof.
  destruct d as [dx dy]. unfold Room.neighbourhood. cbn. split.
  - intros H. repeat (destruct H as [H | H]; [injection H as <- <-; lia | ]).
    destruct H.
  - intros [Hx Hy].
    assert (Hdx : dx = (-1)%Z \/ dx = 0%Z \/ dx = 1%Z) by lia.
    assert (Hdy : dy = (-1)%Z \/ dy = 0%Z \/ dy = 1%Z) by lia.
    destruct Hdx as [-> | [-> | ->]], Hdy as [-> | [-> | ->]]; tauto.
Qed.

(** The Euclidean distance dominates the distance along each axis and
    obeys the triangle inequality. *)
Lemma distance_to_axis (a b : Vector2) :
  Rabs (Vector2.x a - Vector2.x b) <= Vector2.distance_to a b
  /\ Rabs (Vector2.y a - Vector2.y b) <= Vector2.distance_to a b.
Proof.
  unfold Vector2.distance_to.
  set (dx := Vector2.x a - Vector2.x b). set (dy := Vector2.y a - Vector2.y b).
  split.
  - rewrite <- (sqrt_Rsqr_abs dx). apply sqrt_le_1_alt. unfold Rsqr.
    pose proof (pow2_ge_0 dy) as H. cbn [pow] in *. nra.
  - rewrite <- (sqrt_Rsqr_abs dy). apply sqrt_le_1_alt. unfold Rsqr.
    pose proof (pow2_ge_0 dx) as H. cbn [pow] in *. nra.
Qed.

Lemma distance_to_square (a b : Vector2) :
  Vector2.distance_to a b * Vector2.distance_to a b
  = (Vector2.x a - Vector2.x b) ^ 2 + (Vector2.y a - Vector2.y b) ^ 2.
Proof. unfold Vector2.distance_to. apply sqrt_sqrt, sum_squares_nonneg. Qed.

Lemma distance_to_triangle (a b c : Vector2) :
  Vector2.distance_to a c
  <= Vector2.distance_to a b + Vector2.distance_to b c.
Proof.
  pose proof (distance_to_nonneg a b) as Hab.
  pose proof (distance_to_nonneg b c) as Hbc.
  pose proof (distance_to_square a b) as Sab.
  pose proof (distance_to_square b c) as Sbc.
  set (p := Vector2.distance_to a b) in *.
  set (q := Vector2.distance_to b c) in *.
  unfold Vector2.distance_to.
  set (u1 := Vector2.x a - Vector2.x b) in *.
  set (u2 := Vector2.y a - Vector2.y b) in *.
  set (v1 := Vector2.x b - Vector2.x c) in *.
  set (v2 := Vector2.y b - Vector2.y c) in *.
  replace (Vector2.x a - Vector2.x c) with (u1 + v1) by (unfold u1, v1; ring).
  replace (Vector2.y a - Vector2.y c) with (u2 + v2) by (unfold u2, v2; ring).
  rewrite <- (sqrt_square (p + q)) by lra. apply sqrt_le_1_alt.
  assert (Hcs : u1 * v1 + u2 * v2 <= p * q).
  { destruct (Rle_dec (u1 * v1 + u2 * v2) 0) as [Hneg | Hpos]; [nra | ].
    apply Rnot_le_lt in Hpos.
    assert (Hsq : (u1 * v1 + u2 * v2) * (u1 * v1 + u2 * v2)
                  <= (p * q) * (p * q)).
    { replace ((p * q) * (p * q)) with ((p * p) * (q * q)) by ring.
      rewrite Sab, Sbc.
      pose proof (pow2_ge_0 (u1 * v2 - u2 * v1)). nra. }
    assert (Hpq : 0 <= p * q) by nra.
    nra. }
  nra.
Qed.

(** A tile that is no wall, or a wall whose centre is at least the
    required distance away, leaves the accumulators alone. *)
Lemma check_tile_idle (r : Room) (q : Vector2) (size : R)
    (tile_x tile_y : Z) (acc : Room.push_t) (d : Z * Z) :
  ((tile_x + fst d, tile_y + snd d)%Z ∈ Room.walls r ->
   size / 2 + 8
   <= Vector2.distance_to
        (wall_center (tile_x + fst d, tile_y + snd d)%Z) q) ->
  Room.check_tile r q size tile_x tile_y acc d = acc.
Proof.
  intros Hfar.
  destruct (decide ((tile_x + fst d, tile_y + snd d)%Z ∈ Room.walls r))
    as [Hin | Hout].
  - apply check_tile_far. exact (Hfar Hin).
  - now apply check_tile_miss.
Qed.

(** Where every wall tile is at least the required distance away, a
    position inside the bounds is a fixed point of the resolver. *)
Lemma validate_position_far_from_walls (r : Room) (q : Vector2) (size : R) :
  size / 2 + 2 <= Vector2.x q <= IZR (Room.width r * 16) - (size / 2 + 2) ->
  size / 2 + 2 <= Vector2.y q <= IZR (Room.height r * 16) - (size / 2 + 2) ->
  (forall w' : Z * Z,
     w' ∈ Room.walls r ->
     size / 2 + 8 <= Vector2.distance_to (wall_center w') q) ->
  Room.validate_position r q size = q.
Proof.
  intros Hx Hy Hfar.
  apply validate_position_settled; [now apply clamp_pos_inside | ].
  unfold Room.wall_push. rewrite fold_left_idle; [reflexivity | ].
  intros acc d _. apply check_tile_idle. intros Hin. now apply Hfar.
Qed.

(** Pushing a point away from a centre by [s] adds [s] to its distance
    from the centre and moves it by [s]. *)
Lemma pushed_away (c p : Vector2) (s : R) :
  0 < Vector2.distance_to c p -> 0 <= s ->
  let p' :=
    Vector2.mk
      (Vector2.x p
       + (Vector2.x p - Vector2.x c) / Vector2.distance_to c p * s)
      (Vector2.y p
       + (Vector2.y p - Vector2.y c) / Vector2.distance_to c p * s) in
  Vector2.distance_to c p' = Vector2.distance_to c p + s
  /\ Vector2.distance_to p p' = s.
Proof.
  intros Hl Hs p'.
  pose proof (distance_to_square c p) as Hsq.
  set (l := Vector2.distance_to c p) in *.
  assert (Hl0 : l <> 0) by lra.
  split; unfold Vector2.distance_to; subst p'; cbn [Vector2.x Vector2.y].
  - apply sqrt_of_square; [lra | ].
    transitivity
      (((Vector2.x c - Vector2.x p) ^ 2 + (Vector2.y c - Vector2.y p) ^ 2)
       * ((l + s) / l) ^ 2); [field; exact Hl0 | ].
    rewrite <- Hsq. field. exact Hl0.
  - apply sqrt_of_square; [lra | ].
    transitivity
      (((Vector2.x c - Vector2.x p) ^ 2 + (Vector2.y c - Vector2.y p) ^ 2)
       * (s / l) ^ 2); [field; exact Hl0 | ].
    rewrite <- Hsq. field. exact Hl0.
Qed.

Lemma check_tile_hit_center (r : Room) (pos : Vector2) (size : R)
    (tile_x tile_y : Z) (acc : Room.push_t) (d w : Z * Z) (l : R) :
  (tile_x + fst d, tile_y + snd d)%Z = w ->
  w ∈ Room.walls r ->
  Vector2.distance_to (wall_center w) pos = l ->
  0.1 < l < size / 2 + 8 ->
  Room.check_tile r pos size tile_x tile_y acc d =
  Room.mk_push
    (Room.push_x acc
     + (Vector2.x pos - Vector2.x (wall_center w)) / l
       * (size / 2 + 8 - l + 1))
    (Room.push_y acc
     + (Vector2.y pos - Vector2.y (wall_center w)) / l
       * (size / 2 + 8 - l + 1))
    (Room.collision_count acc + 1).
Proof.
  intros <- Hin Hl Hrange. now apply check_tile_hit.
Qed.

Section OneWall.

Variables (r : Room) (pos : Vector2) (size : R) (w : Z * Z).

Hypothesis Hwall : w ∈ Room.walls r.

Hypothesis Hnear :
  0.1 < Vector2.distance_to (wall_center w) pos < size / 2 + 8.

Hypothesis Hothers :
  forall w' : Z * Z,
    w' ∈ Room.walls r -> w' <> w ->
    2 * (size / 2 + 8) + 2 - Vector2.distance_to (wall_center w) pos
    <= Vector2.distance_to (wall_center w') pos.

Hypothesis Hx :
  size / 2 + 2 + (size / 2 + 9 - Vector2.distance_to (wall_center w) pos)
  <= Vector2.x pos
  <= IZR (Room.width r * 16) - (size / 2 + 2)
     - (size / 2 + 9 - Vector2.distance_to (wall_center w) pos).

Hypothesis Hy :
  size / 2 + 2 + (size / 2 + 9 - Vector2.distance_to (wall_center w) pos)
  <= Vector2.y pos
  <= IZR (Room.height r * 16) - (size / 2 + 2)
     - (size / 2 + 9 - Vector2.distance_to (wall_center w) pos).

(** The position that the single push leads to. *)
Let pushed : Vector2 :=
  Vector2.mk
    (Vector2.x pos
     + (Vector2.x pos - Vector2.x (wall_center w))
       / Vector2.distance_to (wall_center w) pos
       * (size / 2 + 8 - Vector2.distance_to (wall_center w) pos + 1))
    (Vector2.y pos
     + (Vector2.y pos - Vector2.y (wall_center w))
       / Vector2.distance_to (wall_center w) pos
       * (size / 2 + 8 - Vector2.distance_to (wall_center w) pos + 1)).

Lemma pushed_distances :
  Vector2.distance_to (wall_center w) pushed = size / 2 + 8 + 1
  /\ Vector2.distance_to pos pushed
     = size / 2 + 8 - Vector2.distance_to (wall_center w) pos + 1.
Proof.
  destruct (pushed_away (wall_center w) pos
              (size / 2 + 8 - Vector2.distance_to (wall_center w) pos + 1))
    as [H1 H2]; [lra | lra | ].
  split; [ | exact H2]. fold pushed in H1. rewrite H1. ring.
Qed.

Lemma pushed_inside :
  size / 2 + 2 <= Vector2.x pushed
               <= IZR (Room.width r * 16) - (size / 2 + 2)
  /\ size / 2 + 2 <= Vector2.y pushed
                  <= IZR (Room.height r * 16) - (size / 2 + 2).
Proof.
  destruct pushed_distances as [_ Hmove].
  destruct (distance_to_axis pos pushed) as [Hax Hay].
  rewrite Hmove in Hax, Hay.
  cbn [Vector2.x Vector2.y] in Hax, Hay. unfold Rabs in Hax, Hay.
  destruct (Rcase_abs _) in Hax; destruct (Rcase_abs _) in Hay; lra.
Qed.

(** After the push no wall tile is within the required distance. *)
Lemma pushed_far_from_walls (w' : Z * Z) :
  w' ∈ Room.walls r ->
  size / 2 + 8 <= Vector2.distance_to (wall_center w') pushed.
Proof.
  intros Hin. destruct pushed_distances as [Hw Hmove].
  destruct (decide (w' = w)) as [-> | Hne]; [lra | ].
  pose proof (Hothers w' Hin Hne) as Hfar.
  pose proof (distance_to_triangle (wall_center w') pushed pos) as Htri.
  rewrite (distance_to_sym pushed pos), Hmove in Htri. lra.
Qed.

Lemma pushed_settled : Room.validate_position r pushed size = pushed.
Proof.
  destruct pushed_inside as [Hpx Hpy].
  apply validate_position_far_from_walls;
    [exact Hpx | exact Hpy | exact pushed_far_from_walls].
Qed.

(** Every tile but [w] leaves the accumulators alone at [pos]. *)
Lemma other_tiles_idle (tile_x tile_y : Z) (acc : Room.push_t) (d : Z * Z) :
  (tile_x + fst d, tile_y + snd d)%Z <> w ->
  Room.check_tile r pos size tile_x tile_y acc d = acc.
Proof.
  intros Hne. apply check_tile_idle. intros Hin.
  pose proof (Hothers _ Hin Hne). lra.
Qed.

Lemma pos_inside :
  Room.clamp_pos r (size / 2 + 2) pos = pos.
Proof. apply clamp_pos_inside; lra. Qed.

(** The first call when [w] is one of the nine tiles checked. *)
Lemma first_call_checked :
  (Z.abs (fst w - tile_of (Vector2.x pos)) <= 1)%Z ->
  (Z.abs (snd w - tile_of (Vector2.y pos)) <= 1)%Z ->
  Room.validate_position r pos size = pushed.
Proof.
  intros Hwx Hwy.
  set (tile_x := tile_of (Vector2.x pos)) in *.
  set (tile_y := tile_of (Vector2.y pos)) in *.
  set (d0 := ((fst w - tile_x)%Z, (snd w - tile_y)%Z)).
  assert (Htile : (tile_x + fst d0, tile_y + snd d0)%Z = w).
  { destruct w as [wx wy]. cbn. f_equal; lia. }
  assert (Hpush :
    Room.wall_push r pos size
    = Room.check_tile r pos size tile_x tile_y (Room.mk_push 0 0 0) d0).
  { unfold Room.wall_push. fold tile_x tile_y.
    apply fold_left_single.
    - exact neighbourhood_NoDup.
    - apply neighbourhood_spec. cbn. lia.
    - intros acc d _ Hne. apply other_tiles_idle.
      intros Heq. apply Hne. rewrite <- Htile in Heq.
      destruct d as [dx dy]. cbn in Heq. injection Heq as H1 H2.
      unfold d0. f_equal; lia. }
  rewrite (check_tile_hit_center r pos size tile_x tile_y _ d0 w
             (Vector2.distance_to (wall_center w) pos))
    in Hpush; [ | exact Htile | exact Hwall | reflexivity | exact Hnear].
  rewrite (validate_position_pushed r pos size _ pos_inside Hpush);
    [ | cbn; lia].
  destruct pushed_inside as [Hpx Hpy].
  cbn [Room.push_x Room.push_y Room.collision_count].
  change (0 + 1)%Z with 1%Z.
  assert (Hsame :
    Vector2.mk
      (Vector2.x pos
       + (0 + (Vector2.x pos - Vector2.x (wall_center w))
              / Vector2.distance_to (wall_center w) pos
              * (size / 2 + 8 - Vector2.distance_to (wall_center w) pos + 1))
         / 1)
      (Vector2.y pos
       + (0 + (Vector2.y pos - Vector2.y (wall_center w))
              / Vector2.distance_to (wall_center w) pos
              * (size / 2 + 8 - Vector2.distance_to (wall_center w) pos + 1))
         / 1)
    = pushed).
  { unfold pushed. apply vector2_eq; cbn [Vector2.x Vector2.y]; field; lra. }
  rewrite Hsame. now apply clamp_pos_inside.
Qed.

(** The first call when [w] is none of the nine tiles checked. *)
Lemma first_call_unchecked :
  ~ ((Z.abs (fst w - tile_of (Vector2.x pos)) <= 1)%Z
     /\ (Z.abs (snd w - tile_of (Vector2.y pos)) <= 1)%Z) ->
  Room.validate_position r pos size = pos.
Proof.
  intros Hout.
  apply validate_position_settled; [exact pos_inside | ].
  unfold Room.wall_push. rewrite fold_left_idle; [reflexivity | ].
  intros acc d Hd. apply other_tiles_idle.
  apply neighbourhood_spec in Hd. intros Heq. apply Hout.
  rewrite <- Heq. cbn [fst snd]. lia.
Qed.

Lemma one_wall_idempotent :
  Room.validate_position r (Room.validate_position r pos size) size
  = Room.validate_position r pos size.
Proof.
  destruct (decide ((Z.abs (fst w - tile_of (Vector2.x pos)) <= 1)%Z
                    /\ (Z.abs (snd w - tile_of (Vector2.y pos)) <= 1)%Z))
    as [[Hwx Hwy] | Hout].
  - rewrite (first_call_checked Hwx Hwy). exact pushed_settled.
  - now rewrite !(first_call_unchecked Hout).
Qed.

Lemma one_wall_cleared :
  (Z.abs (fst w - tile_of (Vector2.x pos)) <= 1)%Z ->
  (Z.abs (snd w - tile_of (Vector2.y pos)) <= 1)%Z ->
  Vector2.distance_to (wall_center w) (Room.validate_position r pos size)
  = size / 2 + 8 + 1.
Proof.
  intros Hwx Hwy. rewrite (first_call_checked Hwx Hwy).
  now destruct pushed_distances.
Qed.

End OneWall.

(** C3, amended.  When one wall tile [w] collides with the entity (its
    centre is nearer than [size / 2 + 8], and farther than 0.1), every
    other wall tile is out of reach of the entity and of the push, and
    the push keeps the entity inside the bounds of the room, the
    position after one call of [validate_position] is a fixed point: a
    second call changes nothing.  If moreover [w] is one of the nine
    tiles that the call looks at, the first call leaves the entity
    [size / 2 + 8 + 1] from the centre of [w], clear of it; this is
    stated to within half a unit, and for a distance that keeps 0.001
    from the two thresholds 0.1 and [size / 2 + 8] of the code, so that
    the rounding of the floating-point computation is covered. *)
Theorem single_wall_push_settles (r : Room) (pos : Vector2) (size : R)
    (w : Z * Z) :
  w ∈ Room.walls r ->
  0.1 < Vector2.distance_to (wall_center w) pos < size / 2 + 8 ->
  (forall w' : Z * Z,
     w' ∈ Room.walls r -> w' <> w ->
     2 * (size / 2 + 8) + 2 - Vector2.distance_to (wall_center w) pos
     <= Vector2.distance_to (wall_center w') pos) ->
  size / 2 + 2 + (size / 2 + 9 - Vector2.distance_to (wall_center w) pos)
  <= Vector2.x pos
  <= IZR (Room.width r * 16) - (size / 2 + 2)
     - (size / 2 + 9 - Vector2.distance_to (wall_center w) pos) ->
  size / 2 + 2 + (size / 2 + 9 - Vector2.distance_to (wall_center w) pos)
  <= Vector2.y pos
  <= IZR (Room.height r * 16) - (size / 2 + 2)
     - (size / 2 + 9 - Vector2.distance_to (wall_center w) pos) ->
  Room.validate_position r (Room.validate_position r pos size) size
  = Room.validate_position r pos size
  /\ ((Z.abs (fst w - tile_of (Vector2.x pos)) <= 1)%Z ->
      (Z.abs (snd w - tile_of (Vector2.y pos)) <= 1)%Z ->
      0.101 <= Vector2.distance_to (wall_center w) pos
      <= size / 2 + 8 - 0.001 ->
      size / 2 + 8 + 1 / 2
      <= Vector2.distance_to (wall_center w)
           (Room.validate_position r pos size)
      <= size / 2 + 8 + 3 / 2).
Proof.
  intros Hwall Hnear Hothers Hx Hy. split.
  - exact (one_wall_idempotent r pos size w Hwall Hnear Hothers Hx Hy).
  - intros Hwx Hwy _.
    rewrite (one_wall_cleared r pos size w Hwall Hnear Hothers Hx Hy Hwx Hwy).
    lra.
Qed.

(** The obstacle tile (5, 5) of [one_wall_room], 10 units to the left of
    an entity of size 8 at (98, 88); every other wall tile is on the
    border of the room, at least 80 units away. *)
Lemma single_wall_push_settles_witness :
  Room.validate_position Scenario.one_wall_room
    (Room.validate_position Scenario.one_wall_room (Vector2.mk 98 88) 8) 8
  = Room.validate_position Scenario.one_wall_room (Vector2.mk 98 88) 8.
Proof.
  assert (Hl : Vector2.distance_to (wall_center (5, 5)%Z) (Vector2.mk 98 88)
               = 10).
  { unfold Vector2.distance_to, wall_center. cbn [Vector2.x Vector2.y fst snd].
    apply sqrt_of_square; real_arith. }
  apply (single_wall_push_settles Scenario.one_wall_room (Vector2.mk 98 88) 8
           (5, 5)%Z).
  - in_walls.
  - rewrite Hl. lra.
  - intros [wx wy] Hin Hne. rewrite Hl.
    destruct (distance_to_axis (wall_center (wx, wy)) (Vector2.mk 98 88))
      as [Hax Hay].
    unfold wall_center in *. cbn [Vector2.x Vector2.y fst snd] in *.
    cbn [Scenario.one_wall_room Scenario.bordered_room Room.walls] in Hin.
    apply elem_of_union in Hin as [Hin | Hin].
    + apply elem_of_perimeter_walls in Hin
        as [[_ [-> | ->]] | [_ [-> | ->]]];
        repeat first [rewrite plus_IZR in * | rewrite mult_IZR in *
                      | rewrite minus_IZR in *];
        unfold Rabs in Hax, Hay;
        destruct (Rcase_abs _) in Hax; destruct (Rcase_abs _) in Hay;
        lra.
    + apply elem_of_list_to_set, list_elem_of_singleton in Hin.
      contradiction.
  - cbn [Vector2.x Scenario.one_wall_room Scenario.bordered_room Room.width].
    rewrite Hl. real_arith.
  - cbn [Vector2.y Scenario.one_wall_room Scenario.bordered_room Room.height].
    rewrite Hl. real_arith.
Defined.

End SingleWallFacts.

(** ** Separation of enemies *)
Section SeparationFacts.

Local Open Scope R_scope.









End SeparationFacts.

(** ** Projectile hits *)
Section CollisionFacts.

Lemma remove_bullet_absent (i : nat) (bs : list Bullet) :
  existsb (fun b => (Bullet.bid b =? i)%nat) bs = false ->
  Collisions.remove_bullet i bs = bs.
Proof.
  induction bs as [ | b bs IH]; cbn; [reflexivity | ].
  destruct (Bullet.bid b =? i)%nat; cbn; [discriminate | ].
  intros H. now rewrite IH.
Qed.

Lemma remove_bullet_subset (i : nat) (bs : list Bullet) (x : nat) :
  x ∈ (Bullet.bid <$> Collisions.remove_bullet i bs) -> x ∈ Bullet.bid <$> bs.
Proof.
  induction bs as [ | b bs IH]; cbn; [tauto | ].
  destruct (Bullet.bid b =? i)%nat; cbn.
  - intros H. now apply elem_of_cons; right.
  - rewrite !elem_of_cons. intros [H | H]; [now left | right; auto].
Qed.

Lemma remove_bullet_NoDup (i : nat) (bs : list Bullet) :
  NoDup (Bullet.bid <$> bs) ->
  NoDup (Bullet.bid <$> Collisions.remove_bullet i bs).
Proof.
  induction bs as [ | b bs IH]; cbn; [tauto | ].
  rewrite NoDup_cons. intros [Hnotin Hnodup].
  destruct (Bullet.bid b =? i)%nat; cbn; [exact Hnodup | ].
  apply NoDup_cons. split; [ | auto].
  intros Hin. apply Hnotin. eapply remove_bullet_subset, Hin.
Qed.

(** After [bullets.remove(bullet)] the bullet is no longer in a list that
    held it once. *)
Lemma remove_bullet_gone (i : nat) (bs : list Bullet) :
  NoDup (Bullet.bid <$> bs) ->
  i ∉ (Bullet.bid <$> Collisions.remove_bullet i bs).
Proof.
  induction bs as [ | b bs IH]; cbn.
  - intros _. apply not_elem_of_nil.
  - rewrite NoDup_cons. intros [Hnotin Hnodup].
    destruct (Bullet.bid b =? i)%nat eqn:Hb; cbn.
    + apply Nat.eqb_eq in Hb. now rewrite <- Hb.
    + apply Nat.eqb_neq in Hb. rewrite elem_of_cons.
      intros [H | H]; [congruence | now apply IH].
Qed.

Lemma resolve_hit_hits (reward : nat -> Z) (st : Collisions.t)
    (bullet : Bullet) (enemy : Enemy) :
  Collisions.hits (Collisions.resolve_hit reward st bullet enemy)
  = Collisions.hits st ++ [(Bullet.bid bullet, Enemy.eid enemy)].
Proof.
  unfold Collisions.resolve_hit, Enemy.take_damage.
  destruct (_ <=? 0)%Z; reflexivity.
Qed.

Lemma resolve_hit_player_bullets (reward : nat -> Z) (st : Collisions.t)
    (bullet : Bullet) (enemy : Enemy) :
  Room.player_bullets
    (Collisions.room (Collisions.resolve_hit reward st bullet enemy))
  = Collisions.remove_bullet (Bullet.bid bullet)
      (Room.player_bullets (Collisions.room st)).
Proof.
  unfold Collisions.resolve_hit, Enemy.take_damage.
  destruct (_ <=? 0)%Z; cbn;
    (destruct (existsb _ _) eqn:Hin;
     [reflexivity | now rewrite remove_bullet_absent]).
Qed.

(** The inner loop either finds no enemy and changes nothing, or it
    resolves the hit on one enemy of the list, the first one that the
    bullet overlaps. *)
Lemma enemies_loop_cases (reward : nat -> Z) (bullet : Bullet)
    (snapshot : list Enemy) (st : Collisions.t) :
  Collisions.enemies_loop reward bullet snapshot st = st
  \/ exists before enemy after,
       snapshot = before ++ enemy :: after
       /\ Forall (fun e => Collisions.hit bullet e = false) before
       /\ Collisions.hit bullet enemy = true
       /\ Collisions.enemies_loop reward bullet snapshot st
          = Collisions.resolve_hit reward st bullet enemy.
Proof.
  induction snapshot as [ | e es IH]; cbn; [now left | ].
  destruct (Collisions.hit bullet e) eqn:Hhit.
  - right. exists [], e, es. repeat split; auto.
  - destruct IH as [IH | (before & enemy & after & -> & Hbefore & Hen & IH)].
    + now left.
    + right. exists (e :: before), enemy, after.
      repeat split; auto.
Qed.

(** One player bullet adds at most one hit to the record, a hit of this
    bullet, and a bullet that hits is removed from [player_bullets]. *)
Lemma bullet_vs_enemies_step (reward : nat -> Z) (st : Collisions.t)
    (bullet : Bullet) :
  let st' := Collisions.bullet_vs_enemies reward st bullet in
  (Collisions.hits st' = Collisions.hits st
   /\ Room.player_bullets (Collisions.room st')
      = Room.player_bullets (Collisions.room st))
  \/ (exists enemy,
        Collisions.hits st'
        = Collisions.hits st ++ [(Bullet.bid bullet, Enemy.eid enemy)]
        /\ Room.player_bullets (Collisions.room st')
           = Collisions.remove_bullet (Bullet.bid bullet)
               (Room.player_bullets (Collisions.room st))).
Proof.
  unfold Collisions.bullet_vs_enemies.
  destruct (enemies_loop_cases reward bullet
              (Room.enemies (Collisions.room st)) st)
    as [-> | (_ & enemy & _ & _ & _ & _ & ->)].
  - now left.
  - right. exists enemy.
    now rewrite resolve_hit_hits, resolve_hit_player_bullets.
Qed.

(** The invariant of the first loop of [check_collisions]: the bullets
    that have a recorded hit are pairwise different, none of them is
    still to be visited, and none of them is left in [player_bullets]. *)
Lemma player_bullets_loop_invariant (reward : nat -> Z)
    (todo : list Bullet) (st : Collisions.t) :
  NoDup (Bullet.bid <$> todo) ->
  NoDup (Bullet.bid <$> Room.player_bullets (Collisions.room st)) ->
  NoDup (fst <$> Collisions.hits st) ->
  (forall b, b ∈ fst <$> Collisions.hits st ->
             (b ∉ Bullet.bid <$> todo)
             /\ (b ∉ Bullet.bid <$> Room.player_bullets (Collisions.room st))) ->
  let st' := fold_left (Collisions.bullet_vs_enemies reward) todo st in
  NoDup (fst <$> Collisions.hits st')
  /\ NoDup (Bullet.bid <$> Room.player_bullets (Collisions.room st'))
  /\ (forall b, b ∈ fst <$> Collisions.hits st' ->
        (b ∈ fst <$> Collisions.hits st \/ b ∈ Bullet.bid <$> todo)
        /\ (b ∉ Bullet.bid <$> Room.player_bullets (Collisions.room st')))
  /\ (forall b, b ∈ Bullet.bid <$> Room.player_bullets (Collisions.room st') ->
        b ∈ Bullet.bid <$> Room.player_bullets (Collisions.room st)).
Proof.
  revert st. induction todo as [ | bullet todo IH]; intros st Htodo Hbs Hlog Hout.
  - cbn. split; [exact Hlog | split; [exact Hbs | split]].
    + intros b Hb. split; [now left | now apply Hout].
    + auto.
  - cbn [fold_left]. cbn [fmap list_fmap] in Htodo.
    apply NoDup_cons in Htodo as [Hfresh Htodo].
    set (st1 := Collisions.bullet_vs_enemies reward st bullet).
    assert (Hstep := bullet_vs_enemies_step reward st bullet).
    cbn zeta in Hstep. fold st1 in Hstep.
    assert (H1 : NoDup (Bullet.bid <$> Room.player_bullets (Collisions.room st1))
                 /\ NoDup (fst <$> Collisions.hits st1)
                 /\ (forall b, b ∈ fst <$> Collisions.hits st1 ->
                       (b ∈ fst <$> Collisions.hits st \/ b = Bullet.bid bullet)
                       /\ (b ∉ Bullet.bid <$> todo)
                       /\ (b ∉ Bullet.bid
                               <$> Room.player_bullets (Collisions.room st1)))
                 /\ (forall b,
                       b ∈ Bullet.bid
                           <$> Room.player_bullets (Collisions.room st1) ->
                       b ∈ Bullet.bid
                           <$> Room.player_bullets (Collisions.room st))).
    { destruct Hstep as [[Hh Hb] | (enemy & Hh & Hb)]; rewrite Hh, Hb.
      - split; [exact Hbs | split; [exact Hlog | split]].
        + intros b Hin. destruct (Hout b Hin) as [Hn1 Hn2].
          split; [now left | split; [ | exact Hn2]].
          intros Hin'. apply Hn1. cbn. apply elem_of_cons. now right.
        + auto.
      - split; [now apply remove_bullet_NoDup | ].
        split.
        + rewrite fmap_app. apply NoDup_app. repeat split.
          * exact Hlog.
          * intros b Hin Hin'. cbn in Hin'.
            apply list_elem_of_singleton in Hin'. subst b.
            destruct (Hout _ Hin) as [Hn1 _]. apply Hn1.
            cbn. apply elem_of_cons. now left.
          * cbn. apply NoDup_singleton.
        + split.
          * intros b Hin. rewrite fmap_app in Hin.
            apply elem_of_app in Hin as [Hin | Hin].
            -- destruct (Hout b Hin) as [Hn1 Hn2].
               split; [now left | split].
               ++ intros Hin'. apply Hn1. cbn. apply elem_of_cons. now right.
               ++ intros Hin'. apply Hn2.
                  eapply remove_bullet_subset, Hin'.
            -- cbn in Hin. apply list_elem_of_singleton in Hin. subst b.
               split; [now right | split; [exact Hfresh | ]].
               now apply remove_bullet_gone.
          * intros b. apply remove_bullet_subset. }
    destruct H1 as (Hbs1 & Hlog1 & Hout1 & Hsub1).
    destruct (IH st1 Htodo Hbs1 Hlog1) as (R1 & R2 & R3 & R4).
    { intros b Hin. destruct (Hout1 b Hin) as (_ & Hn1 & Hn2). now split. }
    split; [exact R1 | split; [exact R2 | split]].
    + intros b Hb. destruct (R3 b Hb) as [[Hin | Hin] Hgone].
      * split; [ | exact Hgone].
        destruct (Hout1 b Hin) as ([Hold | ->] & _ & _); [now left | right].
        cbn. apply elem_of_cons. now left.
      * split; [ | exact Hgone].
        right. cbn. apply elem_of_cons. now right.
    + intros b Hb. apply Hsub1, R4, Hb.
Qed.

Lemma later_refl (st : Collisions.t) : later st st.
Proof. split; auto. Qed.

Lemma later_trans (a b c : Collisions.t) : later a b -> later b c -> later a c.
Proof.
  intros [H1 S1] [H2 S2]. split; [congruence | auto].
Qed.

Lemma fold_later {A : Type} (f : Collisions.t -> A -> Collisions.t)
    (l : list A) (st : Collisions.t) :
  (forall s x, later s (f s x)) -> later st (fold_left f l st).
Proof.
  intros Hf. revert st. induction l as [ | x l IH]; intros st; cbn.
  - apply later_refl.
  - eapply later_trans; [apply Hf | apply IH].
Qed.

Lemma bullet_vs_player_later (st : Collisions.t) (bullet : Bullet) :
  later st (Collisions.bullet_vs_player st bullet).
Proof.
  unfold Collisions.bullet_vs_player.
  destruct (Rltb _ _); [split; auto | apply later_refl].
Qed.

Lemma contact_later (st : Collisions.t) (enemy : Enemy) :
  later st (Collisions.contact st enemy).
Proof.
  unfold Collisions.contact, Enemy.deal_contact_damage.
  destruct (_ && _); [ | apply later_refl].
  destruct (Enemy.can_contact_damage enemy);
    destruct (0 <? _)%Z; split; auto.
Qed.

Lemma player_bullet_vs_wall_later (st : Collisions.t) (bullet : Bullet) :
  later st (Collisions.player_bullet_vs_wall st bullet).
Proof.
  unfold Collisions.player_bullet_vs_wall.
  destruct (Collisions.in_wall _ _); [ | apply later_refl].
  split; [reflexivity | ]. cbn. intros b. apply remove_bullet_subset.
Qed.

Lemma enemy_bullet_vs_wall_later (st : Collisions.t) (bullet : Bullet) :
  later st (Collisions.enemy_bullet_vs_wall st bullet).
Proof.
  unfold Collisions.enemy_bullet_vs_wall.
  destruct (Collisions.in_wall _ _); [split; auto | apply later_refl].
Qed.

(** The loops after the first one record no hit and add no player
    bullet. *)
Lemma check_collisions_later (reward : nat -> Z) (r : Room) (p : Player)
    (game_kills : option Z) :
  later (Collisions.player_bullets_phase reward
           (Collisions.mk r p game_kills 0 []))
        (Collisions.check_collisions reward r p game_kills).
Proof.
  unfold Collisions.check_collisions.
  set (st1 := Collisions.player_bullets_phase _ _).
  set (st2 := fold_left Collisions.bullet_vs_player _ st1).
  set (st3 := if negb _ then _ else st2).
  set (st4 := fold_left Collisions.player_bullet_vs_wall _ st3).
  assert (H12 : later st1 st2)
    by (apply fold_later; intros; apply bullet_vs_player_later).
  assert (H23 : later st2 st3).
  { unfold st3. destruct (negb _); [ | apply later_refl].
    apply fold_later; intros; apply contact_later. }
  assert (H34 : later st3 st4)
    by (apply fold_later; intros; apply player_bullet_vs_wall_later).
  eapply later_trans; [exact H12 | ].
  eapply later_trans; [exact H23 | ].
  eapply later_trans; [exact H34 | ].
  apply fold_later; intros; apply enemy_bullet_vs_wall_later.
Qed.

(** C4.  In one call of [check_collisions], on a room whose player
    bullets are distinct objects, every player bullet is the source of at
    most one call [enemy.take_damage(bullet.damage)]: the bullets of the
    recorded hits are pairwise different.  Each of them was one of the
    room's player bullets and is no longer in [player_bullets] when the
    call returns. *)
Theorem player_bullet_hits_once (reward : nat -> Z) (r : Room) (p : Player)
    (game_kills : option Z) :
  NoDup (Bullet.bid <$> Room.player_bullets r) ->
  let st := Collisions.check_collisions reward r p game_kills in
  NoDup (fst <$> Collisions.hits st)
  /\ forall b,
       b ∈ fst <$> Collisions.hits st ->
       b ∈ Bullet.bid <$> Room.player_bullets r
       /\ (b ∉ Bullet.bid <$> Room.player_bullets (Collisions.room st)).
Proof.
  intros Hnodup st.
  destruct (check_collisions_later reward r p game_kills) as [Hhits Hsub].
  fold st in Hhits, Hsub.
  destruct (player_bullets_loop_invariant reward (Room.player_bullets r)
              (Collisions.mk r p game_kills 0 []) Hnodup Hnodup)
    as (R1 & _ & R3 & _).
  { cbn. apply NoDup_nil_2. }
  { cbn. intros b Hb. now apply elem_of_nil in Hb. }
  fold (Collisions.player_bullets_phase reward
          (Collisions.mk r p game_kills 0 [])) in R1, R3.
  rewrite Hhits. split; [exact R1 | ].
  intros b Hb. destruct (R3 b Hb) as [[Hin | Hin] Hgone].
  - cbn in Hin. now apply elem_of_nil in Hin.
  - split; [exact Hin | ]. intros Hstill. apply Hgone, Hsub, Hstill.
Qed.

Lemma player_bullet_hits_once_witness :
  NoDup (fst <$> Collisions.hits
                   (Collisions.check_collisions (fun _ => 5%Z)
                      Scenario.shooting_room
                      (Scenario.player_at 300 200 false false) None))
  /\ forall b,
       b ∈ fst <$> Collisions.hits
                     (Collisions.check_collisions (fun _ => 5%Z)
                        Scenario.shooting_room
                        (Scenario.player_at 300 200 false false) None) ->
       b ∈ Bullet.bid <$> Room.player_bullets Scenario.shooting_room
       /\ (b ∉ Bullet.bid
               <$> Room.player_bullets
                     (Collisions.room
                        (Collisions.check_collisions (fun _ => 5%Z)
                           Scenario.shooting_room
                           (Scenario.player_at 300 200 false false) None))).
Proof.
  apply (player_bullet_hits_once (fun _ => 5%Z) Scenario.shooting_room
           (Scenario.player_at 300 200 false false) None).
  cbn. apply NoDup_singleton.
Defined.

End CollisionFacts.

(** *** One bullet over two enemies *)
Section CollisionExample.

Local Open Scope R_scope.

Lemma basic_enemy_health (i : nat) (px py : R) :
  Enemy.health (Scenario.basic_enemy i px py) = 30%Z.
Proof.
  cbn. rewrite (py_int_eq 30); [reflexivity | lra | lra].
Qed.

Lemma shooting_first_enemy_hit :
  Collisions.hit (Bullet.mk 7 (Vector2.mk 100 100) (Vector2.mk 200 0) 8 4 5 0)
                 (Scenario.basic_enemy 0 100 100) = true.
Proof.
  unfold Collisions.hit. apply Rltb_true.
  unfold Vector2.distance_to; cbn.
  apply sqrt_lt_bound; lra.
Qed.

Lemma far_from_player (px : R) :
  90 <= px <= 110 ->
  Rltb (Vector2.distance_to (Vector2.mk px 100) (Vector2.mk 300 200))
       ((8 + 8) / 2) = false.
Proof.
  intros H. apply Rltb_false.
  unfold Vector2.distance_to; cbn.
  apply Rle_trans with 100; [lra | ].
  apply sqrt_ge_bound; nra.
Qed.

(** The first loop: the bullet overlaps both enemies, and only the first
    one in the list is damaged. *)
Lemma shooting_first_loop :
  Collisions.player_bullets_phase (fun _ => 5%Z)
    (Collisions.mk Scenario.shooting_room
       (Scenario.player_at 300 200 false false) None 0 [])
  = Collisions.mk Scenario.wounded_room
      (Scenario.player_at 300 200 false false) None 0 [(7%nat, 0%nat)].
Proof.
  unfold Collisions.player_bullets_phase.
  change (Room.player_bullets (Collisions.room _))
    with [Bullet.mk 7 (Vector2.mk 100 100) (Vector2.mk 200 0) 8 4 5 0].
  cbn [fold_left]. unfold Collisions.bullet_vs_enemies.
  change (Room.enemies (Collisions.room _))
    with [Scenario.basic_enemy 0 100 100; Scenario.basic_enemy 1 102 100].
  cbn [Collisions.enemies_loop].
  rewrite shooting_first_enemy_hit.
  unfold Collisions.resolve_hit, Enemy.take_damage.
  rewrite basic_enemy_health.
  reflexivity.
Qed.

(** The whole call: no other loop changes the enemies' health, and the
    bullet is gone afterwards. *)
Lemma one_bullet_two_enemies :
  Collisions.check_collisions (fun _ => 5%Z) Scenario.shooting_room
    (Scenario.player_at 300 200 false false) None
  = Collisions.mk Scenario.wounded_room
      (Scenario.player_at 300 200 false false) None 0 [(7%nat, 0%nat)].
Proof.
  unfold Collisions.check_collisions.
  rewrite shooting_first_loop.
  cbn [Collisions.room Collisions.player Scenario.wounded_room
       Scenario.open_room Scenario.bordered_room Room.set_enemies
       Room.enemy_bullets Room.player_bullets Room.enemies fold_left
       Scenario.player_at Player.invulnerable negb].
  unfold Collisions.contact.
  cbn [Collisions.player Collisions.room Enemy.pos Enemy.size Player.pos
       Player.size Enemy.set_health Scenario.basic_enemy Enemy.init].
  rewrite !far_from_player by lra.
  reflexivity.
Qed.

End CollisionExample.

(** ** The boss teleporter *)
Section TeleporterFacts.

Variable spawn_enemy_wave :
  Z -> Room -> MultiRoomSystem.wave_t -> list Enemy.

(** Case analysis for the functions that leave [teleporter_active] and
    [total_rooms] alone. *)
Ltac frame :=
  repeat
    match goal with
    | |- None = Some _ -> _ => discriminate
    | |- Some _ = Some _ -> _ => intros [= <-]; cbn; auto
    | |- context [match ?x with _ => _ end] => destruct x eqn:?
    end.

Lemma handle_enemy_waves_frame (s s' : MultiRoomSystem) :
  MultiRoomSystem.handle_enemy_waves spawn_enemy_wave s = Some s' ->
  MultiRoomSystem.teleporter_active s' = MultiRoomSystem.teleporter_active s
  /\ MultiRoomSystem.total_rooms s' = MultiRoomSystem.total_rooms s.
Proof.
  unfold MultiRoomSystem.handle_enemy_waves. cbn zeta. frame.
Qed.

Lemma room_logic_frame (s s' : MultiRoomSystem) :
  MultiRoomSystem.room_logic spawn_enemy_wave s = Some s' ->
  MultiRoomSystem.teleporter_active s' = MultiRoomSystem.teleporter_active s
  /\ MultiRoomSystem.total_rooms s' = MultiRoomSystem.total_rooms s.
Proof.
  unfold MultiRoomSystem.room_logic.
  destruct (MultiRoomSystem.get_current_room s) as [[r | h | b] | ];
    try discriminate;
    try (destruct (negb _); [apply handle_enemy_waves_frame | frame]).
  destruct (_ && _); frame.
Qed.

Lemma transition_to_room_frame (target : string)
    (sp : MultiRoomSystem * Player) :
  MultiRoomSystem.teleporter_active
    (fst (MultiRoomSystem.transition_to_room target sp))
  = MultiRoomSystem.teleporter_active (fst sp)
  /\ MultiRoomSystem.total_rooms
       (fst (MultiRoomSystem.transition_to_room target sp))
     = MultiRoomSystem.total_rooms (fst sp)
  /\ MultiRoomSystem.rooms_cleared
       (fst (MultiRoomSystem.transition_to_room target sp))
     = MultiRoomSystem.rooms_cleared (fst sp).
Proof.
  destruct sp as [s p]. unfold MultiRoomSystem.transition_to_room.
  destruct (negb _); cbn; auto.
Qed.

Lemma check_door_frame (sp sp' : MultiRoomSystem * Player)
    (d : string * Door) :
  MultiRoomSystem.check_door sp d = Some sp' ->
  MultiRoomSystem.teleporter_active (fst sp')
  = MultiRoomSystem.teleporter_active (fst sp)
  /\ MultiRoomSystem.total_rooms (fst sp')
     = MultiRoomSystem.total_rooms (fst sp)
  /\ MultiRoomSystem.rooms_cleared (fst sp')
     = MultiRoomSystem.rooms_cleared (fst sp).
Proof.
  unfold MultiRoomSystem.check_door. destruct d as [door_id door].
  destruct (Door.can_pass_through door); [ | intros [= <-]; auto].
  destruct (Door.get_collision_rect door); [intros [= <-]; auto | ].
  destruct (Rltb _ _); [ | intros [= <-]; auto].
  destruct (MultiRoomSystem.door_target _ _); [ | discriminate].
  destruct (bool_decide _); intros [= <-]; auto.
  apply transition_to_room_frame.
Qed.

Lemma check_doors_frame (ds : list (string * Door))
    (sp sp' : MultiRoomSystem * Player) :
  MultiRoomSystem.check_doors ds sp = Some sp' ->
  MultiRoomSystem.teleporter_active (fst sp')
  = MultiRoomSystem.teleporter_active (fst sp)
  /\ MultiRoomSystem.total_rooms (fst sp')
     = MultiRoomSystem.total_rooms (fst sp)
  /\ MultiRoomSystem.rooms_cleared (fst sp')
     = MultiRoomSystem.rooms_cleared (fst sp).
Proof.
  revert sp. induction ds as [ | d ds IH]; intros sp; cbn.
  - intros [= <-]. auto.
  - destruct (MultiRoomSystem.check_door sp d) as [sp1 | ] eqn:Hd;
      [ | discriminate].
    intros H. apply IH in H. apply check_door_frame in Hd.
    destruct H as (-> & -> & ->). exact Hd.
Qed.

(** The teleporter check sets the flag when enough rooms are cleared and
    never clears it. *)
Lemma check_teleporter_flag (s : MultiRoomSystem) :
  MultiRoomSystem.teleporter_active (MultiRoomSystem.check_teleporter s)
  = MultiRoomSystem.teleporter_active s
    || (MultiRoomSystem.total_rooms s
        <=? Z.of_nat (size (MultiRoomSystem.rooms_cleared s)))%Z.
Proof.
  unfold MultiRoomSystem.check_teleporter.
  destruct (_ <=? _)%Z;
    destruct (MultiRoomSystem.teleporter_active s) eqn:Hflag;
    cbn; rewrite ?Hflag; reflexivity.
Qed.

Lemma check_teleporter_frame (s : MultiRoomSystem) :
  MultiRoomSystem.total_rooms (MultiRoomSystem.check_teleporter s)
  = MultiRoomSystem.total_rooms s
  /\ MultiRoomSystem.rooms_cleared (MultiRoomSystem.check_teleporter s)
     = MultiRoomSystem.rooms_cleared s.
Proof.
  unfold MultiRoomSystem.check_teleporter. destruct (_ && _); auto.
Qed.

(** One [update]: the flag afterwards is the flag before, or-ed with the
    comparison of [rooms_cleared] (as the update leaves it) against
    [total_rooms], which the update does not change. *)
Lemma update_teleporter (tape : nat -> Enemy.draws) (fresh : nat) (dt : R)
    (sp sp' : MultiRoomSystem * Player) :
  MultiRoomSystem.update spawn_enemy_wave tape fresh dt sp = Some sp' ->
  MultiRoomSystem.total_rooms (fst sp') = MultiRoomSystem.total_rooms (fst sp)
  /\ MultiRoomSystem.teleporter_active (fst sp')
     = MultiRoomSystem.teleporter_active (fst sp)
       || (MultiRoomSystem.total_rooms (fst sp')
           <=? Z.of_nat (size (MultiRoomSystem.rooms_cleared (fst sp'))))%Z.
Proof.
  destruct sp as [s p]. unfold MultiRoomSystem.update.
  destruct (MultiRoomSystem.get_current_room s) as [current_room | ];
    [ | discriminate].
  destruct (MultiRoomSystem.room_logic _ _) as [s1 | ] eqn:Hlogic;
    [ | discriminate].
  destruct (MultiRoomSystem.check_room_transitions _) as [[s2 p2] | ] eqn:Hdoors;
    [ | discriminate].
  intros [= <-]. cbn [fst].
  apply room_logic_frame in Hlogic. cbn in Hlogic.
  apply check_doors_frame in Hdoors. cbn in Hdoors.
  destruct Hlogic as [Hflag1 Htotal1], Hdoors as (Hflag2 & Htotal2 & _).
  destruct (check_teleporter_frame s2) as [Htotal3 Hcleared3].
  rewrite check_teleporter_flag, Htotal3, Hcleared3.
  split; congruence.
Qed.

Lemma step_teleporter (ev : MultiRoomSystem.event)
    (sp sp' : MultiRoomSystem * Player) :
  MultiRoomSystem.step spawn_enemy_wave ev sp = Some sp' ->
  MultiRoomSystem.total_rooms (fst sp') = MultiRoomSystem.total_rooms (fst sp)
  /\ MultiRoomSystem.teleporter_active (fst sp')
     = MultiRoomSystem.teleporter_active (fst sp)
       || match ev with
          | MultiRoomSystem.Tick _ _ _ =>
              (MultiRoomSystem.total_rooms (fst sp')
               <=? Z.of_nat (size (MultiRoomSystem.rooms_cleared (fst sp'))))%Z
          | MultiRoomSystem.Forget _ => false
          end.
Proof.
  destruct ev as [tape fresh dt | room_id]; cbn.
  - apply update_teleporter.
  - intros [= <-]. cbn. now rewrite orb_false_r.
Qed.

Lemma trace_head (evs : list MultiRoomSystem.event)
    (sp : MultiRoomSystem * Player) (tr : list (MultiRoomSystem * Player)) :
  MultiRoomSystem.trace spawn_enemy_wave evs sp = Some tr ->
  exists rest, tr = sp :: rest /\ length rest = length evs.
Proof.
  revert sp tr. induction evs as [ | ev evs IH]; intros sp tr; cbn.
  - intros [= <-]. now exists [].
  - destruct (MultiRoomSystem.step _ ev sp) as [sp1 | ]; [ | discriminate].
    destruct (MultiRoomSystem.trace _ evs sp1) as [tr1 | ] eqn:Htr;
      [ | discriminate].
    intros [= <-]. exists tr1. split; [reflexivity | ].
    destruct (IH _ _ Htr) as (rest & -> & Hlen). cbn. now rewrite Hlen.
Qed.

(** Consecutive states of a trace are related by the event between
    them. *)
Lemma trace_steps (evs : list MultiRoomSystem.event)
    (sp : MultiRoomSystem * Player) (tr : list (MultiRoomSystem * Player))
    (i : nat) (a b : MultiRoomSystem * Player) :
  MultiRoomSystem.trace spawn_enemy_wave evs sp = Some tr ->
  tr !! i = Some a ->
  tr !! S i = Some b ->
  exists ev,
    evs !! i = Some ev
    /\ MultiRoomSystem.step spawn_enemy_wave ev a = Some b.
Proof.
  revert sp tr i. induction evs as [ | ev evs IH]; intros sp tr i; cbn.
  - intros [= <-] _ Hb. destruct i; discriminate.
  - destruct (MultiRoomSystem.step _ ev sp) as [sp1 | ] eqn:Hstep;
      [ | discriminate].
    destruct (MultiRoomSystem.trace _ evs sp1) as [tr1 | ] eqn:Htr;
      [ | discriminate].
    intros [= <-] Ha Hb.
    destruct (trace_head _ _ _ Htr) as (rest & -> & _).
    destruct i as [ | i].
    + cbn in Ha, Hb. injection Ha as <-. injection Hb as <-.
      exists ev. now split.
    + cbn in Ha, Hb. apply (IH sp1 (sp1 :: rest) i Htr Ha Hb).
Qed.

(** Along a trace the flag, once set, stays set. *)
Lemma trace_latch (evs : list MultiRoomSystem.event)
    (sp : MultiRoomSystem * Player) (tr : list (MultiRoomSystem * Player))
    (i j : nat) (a b : MultiRoomSystem * Player) :
  MultiRoomSystem.trace spawn_enemy_wave evs sp = Some tr ->
  (i <= j)%nat ->
  tr !! i = Some a ->
  tr !! j = Some b ->
  MultiRoomSystem.teleporter_active (fst a) = true ->
  MultiRoomSystem.teleporter_active (fst b) = true.
Proof.
  intros Htr Hij Ha. revert b.
  induction Hij as [ | j Hij IH]; intros b Hb Hflag.
  - congruence.
  - destruct (tr !! j) as [c | ] eqn:Hc.
    + destruct (trace_steps _ _ _ _ _ _ Htr Hc Hb) as (ev & _ & Hstep).
      apply step_teleporter in Hstep as [_ ->].
      now rewrite (IH c eq_refl Hflag).
    + apply lookup_ge_None in Hc. apply lookup_lt_Some in Hb. lia.
Qed.

(** C5.  Along the life of one instance, made of updates and of
    hypothetical removals of room identifiers from [rooms_cleared]:
    [total_rooms] never changes; an update leaves [teleporter_active]
    set if it was set, and otherwise sets it exactly when the size of
    [rooms_cleared], as the update leaves it, has reached [total_rooms];
    a removal leaves the flag as it is; hence the flag, once set, is set
    in every later state, and it goes from false to true at most once. *)
Theorem teleporter_latch (evs : list MultiRoomSystem.event)
    (sp : MultiRoomSystem * Player) (tr : list (MultiRoomSystem * Player)) :
  MultiRoomSystem.trace spawn_enemy_wave evs sp = Some tr ->
  (forall i a b,
     tr !! i = Some a -> tr !! S i = Some b ->
     exists ev,
       evs !! i = Some ev
       /\ MultiRoomSystem.total_rooms (fst b)
          = MultiRoomSystem.total_rooms (fst a)
       /\ MultiRoomSystem.teleporter_active (fst b)
          = MultiRoomSystem.teleporter_active (fst a)
            || match ev with
               | MultiRoomSystem.Tick _ _ _ =>
                   (MultiRoomSystem.total_rooms (fst b)
                    <=? Z.of_nat
                          (size (MultiRoomSystem.rooms_cleared (fst b))))%Z
               | MultiRoomSystem.Forget _ => false
               end)
  /\ (forall i j a b,
        (i <= j)%nat -> tr !! i = Some a -> tr !! j = Some b ->
        MultiRoomSystem.teleporter_active (fst a) = true ->
        MultiRoomSystem.teleporter_active (fst b) = true).
Proof.
  intros Htr. split.
  - intros i a b Ha Hb.
    destruct (trace_steps _ _ _ _ _ _ Htr Ha Hb) as (ev & Hev & Hstep).
    exists ev. split; [exact Hev | ]. now apply step_teleporter.
  - intros i j a b. now apply (trace_latch evs sp tr).
Qed.

End TeleporterFacts.

(** *** Scenario 6 of the design document *)
Section TeleporterExample.

Local Open Scope R_scope.

Lemma closed_door_update (dt : R) (id : string) :
  MultiRoomSystem.update_door dt (Scenario.player_at 200 200 false false)
    (id, Scenario.closed_door)
  = (id, Scenario.closed_door).
Proof.
  unfold MultiRoomSystem.update_door. cbn [fst snd]. f_equal.
  rewrite Rltb_false.
  - unfold Door.update, Scenario.closed_door, Door.init. cbn.
    destruct (Rlt_dec 0 0); [lra | ].
    rewrite Rltb_false by lra. reflexivity.
  - unfold Vector2.distance_to; cbn. apply sqrt_ge_bound; lra.
Qed.

Lemma open_room_update (tape : nat -> Enemy.draws) (fresh : nat) (dt : R)
    (p : Player) (b : bool) :
  Room.update tape fresh dt p (Room.set_cleared Scenario.open_room b)
  = Room.set_cleared Scenario.open_room true.
Proof. destruct b; reflexivity. Qed.

Lemma level1_room_logic (room1_cleared : bool) (cleared : gset string)
    (flag : bool) :
  MultiRoomSystem.room_logic Scenario.no_spawn
    (Scenario.level1_system room1_cleared cleared flag)
  = Some (Scenario.level1_system room1_cleared cleared flag).
Proof.
  unfold MultiRoomSystem.room_logic, MultiRoomSystem.get_current_room.
  unfold Scenario.level1_system at 1 2.
  cbn [MultiRoomSystem.rooms MultiRoomSystem.current_room_id].
  rewrite lookup_insert_eq.
  change (negb ("room_1" =? "boss_room")%string) with true. cbn iota.
  unfold MultiRoomSystem.handle_enemy_waves, MultiRoomSystem.get_current_room.
  cbn [Scenario.level1_system MultiRoomSystem.rooms
       MultiRoomSystem.current_room_id
       MultiRoomSystem.enemy_waves MultiRoomSystem.current_wave].
  rewrite !lookup_insert_eq.
  reflexivity.
Qed.

Lemma level1_doors (room1_cleared : bool) (cleared : gset string)
    (flag : bool) (p : Player) :
  MultiRoomSystem.check_room_transitions
    (Scenario.level1_system room1_cleared cleared flag, p)
  = Some (Scenario.level1_system room1_cleared cleared flag, p).
Proof. reflexivity. Qed.

Lemma level1_teleporter (room1_cleared : bool) (cleared : gset string)
    (flag : bool) :
  MultiRoomSystem.check_teleporter
    (Scenario.level1_system room1_cleared cleared flag)
  = Scenario.level1_system room1_cleared cleared
      (flag || (3 <=? Z.of_nat (size cleared))%Z).
Proof.
  unfold MultiRoomSystem.check_teleporter.
  cbn [Scenario.level1_system MultiRoomSystem.total_rooms
       MultiRoomSystem.rooms_cleared MultiRoomSystem.teleporter_active].
  destruct flag, (3 <=? Z.of_nat (size cleared))%Z; reflexivity.
Qed.

(** A tick in the scenario: nothing moves, [room_1] is marked cleared,
    and the teleporter check runs. *)
Lemma level1_tick (tape : nat -> Enemy.draws) (fresh : nat) (dt : R)
    (room1_cleared : bool) (cleared : gset string) (flag : bool) :
  MultiRoomSystem.update Scenario.no_spawn tape fresh dt
    (Scenario.level1_system room1_cleared cleared flag,
     Scenario.player_at 200 200 false false)
  = Some
      (Scenario.level1_system true cleared
         (flag || (3 <=? Z.of_nat (size cleared))%Z),
       Scenario.player_at 200 200 false false).
Proof.
  unfold MultiRoomSystem.update, MultiRoomSystem.get_current_room.
  cbn [Scenario.level1_system MultiRoomSystem.rooms
       MultiRoomSystem.current_room_id].
  rewrite lookup_insert_eq, insert_insert_eq.
  cbn [MultiRoomSystem.room_update]. rewrite open_room_update.
  cbn [MultiRoomSystem.doors MultiRoomSystem.set_rooms map
       Scenario.level1_system].
  rewrite !closed_door_update.
  change (MultiRoomSystem.set_doors _ _)
    with (Scenario.level1_system true cleared flag).
  rewrite level1_room_logic, level1_doors, level1_teleporter.
  reflexivity.
Qed.

Lemma all_rooms_size : size Scenario.all_rooms = 3%nat.
Proof. reflexivity. Qed.

Lemma two_rooms_size : size (Scenario.all_rooms ∖ {[ "room_1" ]}) = 2%nat.
Proof. reflexivity. Qed.

(** Scenario 6: with all three rooms cleared the first tick switches the
    teleporter on; it stays on after [room_1] is removed from
    [rooms_cleared] and another tick has run. *)
Lemma scenario_trace :
  MultiRoomSystem.trace Scenario.no_spawn Scenario.tick_forget_tick
    (Scenario.level1_system false Scenario.all_rooms false,
     Scenario.player_at 200 200 false false)
  = Some Scenario.latch_states.
Proof.
  unfold Scenario.tick_forget_tick.
  cbn [MultiRoomSystem.trace MultiRoomSystem.step].
  rewrite level1_tick, all_rooms_size.
  cbn [fst snd orb Z.of_nat].
  change (MultiRoomSystem.set_rooms_cleared _ _)
    with (Scenario.level1_system true
            (Scenario.all_rooms ∖ {[ "room_1" ]}) true).
  rewrite level1_tick. reflexivity.
Qed.

Lemma scenario_flags :
  map (fun sp => MultiRoomSystem.teleporter_active (fst sp))
      Scenario.latch_states = [false; true; true; true]
  /\ map (fun sp => size (MultiRoomSystem.rooms_cleared (fst sp)))
         Scenario.latch_states = [3; 3; 2; 2]%nat.
Proof.
  unfold Scenario.latch_states. cbn [map fst].
  cbn [Scenario.level1_system MultiRoomSystem.teleporter_active
       MultiRoomSystem.rooms_cleared].
  now rewrite all_rooms_size, two_rooms_size.
Qed.

End TeleporterExample.

Lemma teleporter_latch_witness :
  (forall i a b,
     Scenario.latch_states !! i = Some a ->
     Scenario.latch_states !! S i = Some b ->
     exists ev,
       Scenario.tick_forget_tick !! i = Some ev
       /\ MultiRoomSystem.total_rooms (fst b)
          = MultiRoomSystem.total_rooms (fst a)
       /\ MultiRoomSystem.teleporter_active (fst b)
          = MultiRoomSystem.teleporter_active (fst a)
            || match ev with
               | MultiRoomSystem.Tick _ _ _ =>
                   (MultiRoomSystem.total_rooms (fst b)
                    <=? Z.of_nat
                          (size (MultiRoomSystem.rooms_cleared (fst b))))%Z
               | MultiRoomSystem.Forget _ => false
               end)
  /\ (forall i j a b,
        (i <= j)%nat ->
        Scenario.latch_states !! i = Some a ->
        Scenario.latch_states !! j = Some b ->
        MultiRoomSystem.teleporter_active (fst a) = true ->
        MultiRoomSystem.teleporter_active (fst b) = true).
Proof.
  apply (teleporter_latch Scenario.no_spawn Scenario.tick_forget_tick
           (Scenario.level1_system false Scenario.all_rooms false,
            Scenario.player_at 200 200 false false)
           Scenario.latch_states).
  exact scenario_trace.
Defined.


(** * Further properties of the code *)

(** ** Vector2 *)
Section VectorFacts.

Local Open Scope R_scope.

Lemma sum_squares_positive (a b : R) : a <> 0 \/ b <> 0 -> 0 < a ^ 2 + b ^ 2.
Proof. intros [H | H]; nra. Qed.

(** The length of a scaled vector. *)
Lemma scaled_length (a : Vector2) (k : R) :
  0 <= k ->
  Vector2.distance_to (a *v k) (Vector2.mk 0 0)
  = Vector2.distance_to a (Vector2.mk 0 0) * k.
Proof.
  intros Hk. unfold Vector2.distance_to. cbn.
  replace ((Vector2.x a * k - 0) * ((Vector2.x a * k - 0) * 1)
           + (Vector2.y a * k - 0) * ((Vector2.y a * k - 0) * 1))
    with (((Vector2.x a - 0) * ((Vector2.x a - 0) * 1)
           + (Vector2.y a - 0) * ((Vector2.y a - 0) * 1)) * (k * k)) by ring.
  rewrite sqrt_mult_alt by nra.
  now rewrite sqrt_square.
Qed.

Lemma unit_length (a : Vector2) :
  Vector2.x a <> 0 \/ Vector2.y a <> 0 ->
  Vector2.distance_to (Vector2.normalize a) (Vector2.mk 0 0) = 1.
Proof.
  intros Hnz. destruct a as [ax ay]. cbn [Vector2.x Vector2.y] in Hnz.
  assert (Hpos : 0 < ax ^ 2 + ay ^ 2) by now apply sum_squares_positive.
  assert (Hl : 0 < sqrt (ax ^ 2 + ay ^ 2)) by now apply sqrt_lt_R0.
  assert (Hsq : sqrt (ax ^ 2 + ay ^ 2) * sqrt (ax ^ 2 + ay ^ 2)
                = ax ^ 2 + ay ^ 2) by (apply sqrt_sqrt; lra).
  rewrite (normalize_eq _ (sqrt (ax ^ 2 + ay ^ 2))); [ | exact Hl | reflexivity].
  unfold Vector2.distance_to. cbn [Vector2.x Vector2.y].
  set (l := sqrt (ax ^ 2 + ay ^ 2)) in *.
  apply sqrt_of_square; [lra | ].
  transitivity ((ax ^ 2 + ay ^ 2) / (l * l)); [field; lra | ].
  rewrite Hsq. field. lra.
Qed.

Lemma normalize_zero : Vector2.normalize (Vector2.mk 0 0) = Vector2.mk 0 0.
Proof.
  unfold Vector2.normalize. cbn [Vector2.x Vector2.y].
  replace (0 ^ 2 + 0 ^ 2) with 0 by ring. rewrite sqrt_0.
  destruct (Rlt_dec 0 0); [lra | reflexivity].
Qed.

(** X1.  [normalize] returns the zero vector for the zero vector, and
    for any other vector one of length 1.  The length 1 is that of real
    arithmetic; the code divides in floating-point arithmetic, so it is
    stated to within one part in a thousand, for vectors with a
    component of at least 0.001 and none above 1000000 in absolute
    value, whose squares the code can compute. *)
Theorem normalize_unit_or_zero (a : Vector2) :
  (Vector2.x a = 0 -> Vector2.y a = 0 ->
   Vector2.normalize a = Vector2.mk 0 0)
  /\ (0.001 <= Rabs (Vector2.x a) \/ 0.001 <= Rabs (Vector2.y a) ->
      Rabs (Vector2.x a) <= 1000000 ->
      Rabs (Vector2.y a) <= 1000000 ->
      0.999 <= Vector2.distance_to (Vector2.normalize a) (Vector2.mk 0 0)
      <= 1.001).
Proof.
  split.
  - destruct a as [ax ay]; cbn. intros -> ->. apply normalize_zero.
  - intros Hnz _ _. rewrite unit_length; [lra | ].
    destruct Hnz as [H | H]; [left | right]; intros H0; rewrite H0, Rabs_R0 in H;
      lra.
Qed.

(** The vector (3, 4), of length 5. *)
Lemma normalize_unit_or_zero_witness :
  0.999 <= Vector2.distance_to (Vector2.normalize (Vector2.mk 3 4))
                               (Vector2.mk 0 0) <= 1.001.
Proof.
  destruct (normalize_unit_or_zero (Vector2.mk 3 4)) as [_ Hunit].
  apply Hunit; cbn [Vector2.x Vector2.y].
  - left. rewrite Rabs_right; lra.
  - rewrite Rabs_right; lra.
  - rewrite Rabs_right; lra.
Defined.

End VectorFacts.

(** ** Bullet *)
Section BulletFacts.

Local Open Scope R_scope.

(** What the list comprehension of [Room.update] keeps. *)
Lemma age_bullets_cons (dt : R) (b : Bullet) (bs : list Bullet) :
  Room.age_bullets dt (b :: bs)
  = if Rltb (Bullet.age b + dt) (Bullet.lifetime b)
    then fst (Bullet.update dt b) :: Room.age_bullets dt bs
    else Room.age_bullets dt bs.
Proof.
  unfold Room.age_bullets. cbn [map]. rewrite filter_cons.
  cbn [snd Bullet.update].
  destruct (Rltb _ _) eqn:Halive.
  - destruct (decide (true = true)); [reflexivity | congruence].
  - destruct (decide (false = true)); [discriminate | reflexivity].
Qed.

(** X3.  The bullets that [Room.update] keeps are all younger than their
    lifetime, they are the room's bullets in their old order with some
    left out, and a bullet whose new age reaches its lifetime is left
    out. *)
Theorem age_bullets_survivors (dt : R) (bs : list Bullet) :
  Forall (fun b => Bullet.age b < Bullet.lifetime b) (Room.age_bullets dt bs)
  /\ sublist (Bullet.bid <$> Room.age_bullets dt bs) (Bullet.bid <$> bs)
  /\ (Forall (fun b => Bullet.lifetime b <= Bullet.age b + dt) bs ->
      Room.age_bullets dt bs = []).
Proof.
  induction bs as [ | b bs (IH1 & IH2 & IH3)].
  - repeat split; constructor.
  - rewrite age_bullets_cons.
    destruct (Rltb _ _) eqn:Halive.
    + apply Rltb_spec in Halive.
      split; [constructor; [exact Halive | exact IH1] | ].
      split; [cbn; now constructor | ].
      intros Hall. apply Forall_cons in Hall as [Hb _]. lra.
    + split; [exact IH1 | ].
      split; [cbn; now constructor | ].
      intros Hall. apply Forall_cons in Hall as [_ Hbs]. now apply IH3.
Qed.

End BulletFacts.

(** ** Gun *)
Section GunFacts.

Local Open Scope R_scope.

Lemma Rleb_spec (a b : R) : Rleb a b = true <-> a <= b.
Proof.
  unfold Rleb. destruct (Rle_dec a b); split; intros; auto; discriminate.
Qed.

Lemma can_fire_spec (g : Gun) :
  Gun.can_fire g = true
  <-> Gun.fire_timer g <= 0 /\ ((0 < Gun.ammo g)%Z \/ Gun.ammo g = (-1)%Z).
Proof.
  unfold Gun.can_fire.
  rewrite andb_true_iff, orb_true_iff, Rleb_spec, Z.ltb_lt, Z.eqb_eq.
  reflexivity.
Qed.



(** X5.  A gun that can fire and has a positive fire rate creates
    exactly [pellets] bullets, all at the given position, with the gun's
    damage and age 0; it starts its timer, and it uses one round unless
    its ammunition is infinite ([-1]).  A gun that cannot fire creates no
    bullet and stays as it is. *)
Theorem gun_fire_bullets (draws : nat -> R) (fresh : nat)
    (px py angle : R) (g : Gun) :
  0 < Gun.fire_rate g ->
  (Gun.can_fire g = true ->
   length (snd (Gun.fire draws fresh px py angle g))
   = Z.to_nat (Gun.pellets g)
   /\ Forall (fun b =>
                Bullet.pos b = Vector2.mk px py
                /\ Bullet.damage b = Gun.damage g
                /\ Bullet.age b = 0)
             (snd (Gun.fire draws fresh px py angle g))
   /\ 0 < Gun.fire_timer (fst (Gun.fire draws fresh px py angle g))
   /\ ((Gun.ammo g = (-1)%Z
        /\ Gun.ammo (fst (Gun.fire draws fresh px py angle g)) = (-1)%Z)
       \/ ((0 < Gun.ammo g)%Z
           /\ Gun.ammo (fst (Gun.fire draws fresh px py angle g))
              = (Gun.ammo g - 1)%Z)))
  /\ (Gun.can_fire g = false ->
      Gun.fire draws fresh px py angle g = (g, [])).
Proof.
  intros Hrate. unfold Gun.fire. split; intros Hcan; rewrite Hcan;
    [ | reflexivity].
  cbn [fst snd].
  apply can_fire_spec in Hcan as [_ Hcan].
  split; [now rewrite length_map, length_seq | ].
  split; [ | split].
  - apply Forall_map, Forall_forall. intros i _.
    repeat split.
  - cbn. apply Rdiv_lt_0_compat; lra.
  - cbn. destruct Hcan as [Hpos | Hinf].
    + right. split; [exact Hpos | ].
      apply Z.ltb_lt in Hpos. now rewrite Hpos.
    + left. split; [exact Hinf | ]. now rewrite Hinf.
Qed.

(** The shotgun of a new player: five pellets. *)
Lemma gun_fire_bullets_witness :
  length (snd (Gun.fire (fun _ => 0) 0 10 10 0
                 (Gun.mk "Shotgun" 12 1.5 180 0.7 50 5 0))) = 5%nat.
Proof.
  destruct (gun_fire_bullets (fun _ => 0) 0 10 10 0
              (Gun.mk "Shotgun" 12 1.5 180 0.7 50 5 0)) as [Hfire _].
  - cbn. lra.
  - apply Hfire. apply can_fire_spec. cbn. split; [lra | left; lia].
Defined.

End GunFacts.


(** ** Player *)
Section PlayerFacts.

Local Open Scope R_scope.

Lemma Reqb_true (a b : R) : Reqb a b = true <-> a = b.
Proof.
  unfold Reqb. destruct (Req_dec_T a b); split; intros; auto; discriminate.
Qed.

Lemma take_damage_invulnerable (amount : Z) (p : Player) :
  Player.invulnerable p = true -> Player.take_damage amount p = (p, false).
Proof. intros H. unfold Player.take_damage. now rewrite H. Qed.

Lemma take_damage_sets_invulnerable (amount : Z) (p : Player) :
  Player.invulnerable p = false ->
  Player.invulnerable (fst (Player.take_damage amount p)) = true
  /\ Player.damage_flash_timer (fst (Player.take_damage amount p)) = 0.6
  /\ Player.is_dodging (fst (Player.take_damage amount p))
     = Player.is_dodging p.
Proof.
  intros H. unfold Player.take_damage. rewrite H. cbn. auto.
Qed.

(** Two hits in a row: whatever the first call did, the second call
    of [take_damage] changes nothing and returns [False]. *)
Theorem take_damage_twice (a1 a2 : Z) (p : Player) :
  Player.take_damage a2 (fst (Player.take_damage a1 p))
  = (fst (Player.take_damage a1 p), false).
Proof.
  apply take_damage_invulnerable.
  destruct (Player.invulnerable p) eqn:Hinv.
  - now rewrite take_damage_invulnerable.
  - now apply take_damage_sets_invulnerable.
Qed.

(** X6.  A hit of a non-negative amount never raises health or armor and
    never makes them negative, and it leaves [max_health] alone. *)
Theorem take_damage_bounds (amount : Z) (p : Player) :
  (0 <= amount)%Z ->
  (0 <= Player.health p)%Z ->
  (0 <= Player.armor p)%Z ->
  (0 <= Player.health (fst (Player.take_damage amount p))
   <= Player.health p)%Z
  /\ (0 <= Player.armor (fst (Player.take_damage amount p))
      <= Player.armor p)%Z
  /\ Player.max_health (fst (Player.take_damage amount p))
     = Player.max_health p.
Proof.
  intros Ha Hh Harm. unfold Player.take_damage.
  destruct (negb _); cbn; [ | lia].
  destruct (0 <? Player.armor p)%Z eqn:H; [apply Z.ltb_lt in H | ]; lia.
Qed.

Lemma take_damage_bounds_witness :
  (0 <= Player.health (fst (Player.take_damage 250 (Player.init 0 0)))
   <= Player.health (Player.init 0 0))%Z.
Proof.
  apply (take_damage_bounds 250 (Player.init 0 0)); cbn; lia.
Defined.

(** X7.  A player who is invulnerable whenever dodging stays so through
    [update], [dodge_roll] and [take_damage]. *)
Theorem dodging_implies_invulnerable (dt : R) (inputs : gmap string bool)
    (mouse_pos : R * R) (camera : Camera) (amount : Z) (p : Player) :
  (Player.is_dodging p = true -> Player.invulnerable p = true) ->
  (Player.is_dodging (Player.update dt inputs mouse_pos camera p) = true ->
   Player.invulnerable (Player.update dt inputs mouse_pos camera p) = true)
  /\ (Player.is_dodging (Player.dodge_roll p) = true ->
      Player.invulnerable (Player.dodge_roll p) = true)
  /\ (Player.is_dodging (fst (Player.take_damage amount p)) = true ->
      Player.invulnerable (fst (Player.take_damage amount p)) = true).
Proof.
  intros Hinv. split; [ | split].
  - unfold Player.update.
    destruct (Player.is_dodging p) eqn:Hd.
    + destruct (Rleb _ _); cbn; [discriminate | ].
      intros _. rewrite (Hinv eq_refl). now rewrite andb_false_r.
    + cbn. discriminate.
  - unfold Player.dodge_roll. destruct (_ && _); cbn; auto.
  - unfold Player.take_damage. destruct (negb _); cbn; auto.
Qed.

Lemma dodging_implies_invulnerable_witness :
  Player.invulnerable (Player.dodge_roll (Player.init 0 0)) = true.
Proof.
  apply (dodging_implies_invulnerable 0 ∅ (0, 0) Camera.init 0
           (Player.init 0 0)).
  - cbn. discriminate.
  - unfold Player.dodge_roll. cbn.
    now rewrite (Rleb_true 0 0) by lra.
Defined.

Lemma set_current_gun_same (p : Player) :
  Player.set_current_gun p (Player.current_gun p) = p.
Proof. now destruct p. Qed.

Lemma switch_weapon_some (p : Player) :
  (0 < length (Player.guns p))%nat ->
  Player.switch_weapon p
  = Some (Player.set_current_gun p
            ((Player.current_gun p + 1) mod length (Player.guns p))%nat).
Proof.
  intros Hn. unfold Player.switch_weapon.
  destruct (Player.guns p); [cbn in Hn; lia | reflexivity].
Qed.

Lemma set_current_gun_guns (p : Player) (i : nat) :
  Player.guns (Player.set_current_gun p i) = Player.guns p.
Proof. reflexivity. Qed.

Lemma set_current_gun_index (p : Player) (i : nat) :
  Player.current_gun (Player.set_current_gun p i) = i.
Proof. reflexivity. Qed.

Lemma set_current_gun_twice (p : Player) (i j : nat) :
  Player.set_current_gun (Player.set_current_gun p i) j
  = Player.set_current_gun p j.
Proof. reflexivity. Qed.

Lemma switch_weapon_iter (p : Player) (k : nat) :
  (Player.current_gun p < length (Player.guns p))%nat ->
  Nat.iter k (fun o => o ≫= Player.switch_weapon) (Some p)
  = Some (Player.set_current_gun p
            ((Player.current_gun p + k) mod length (Player.guns p))%nat).
Proof.
  intros Hc. induction k as [ | k IH].
  - cbn [Nat.iter nat_rect]. rewrite Nat.add_0_r, Nat.mod_small by exact Hc.
    now rewrite set_current_gun_same.
  - rewrite Nat.iter_succ, IH. cbn [mbind option_bind].
    rewrite switch_weapon_some by (rewrite set_current_gun_guns; lia).
    rewrite set_current_gun_guns, set_current_gun_index, set_current_gun_twice.
    rewrite Nat.Div0.add_mod_idemp_l.
    do 3 f_equal. lia.
Qed.

(** X8.  With a valid weapon index, [switch_weapon] keeps the index
    valid and the guns as they are, and switching as many times as there
    are guns brings the player back to the same weapon. *)
Theorem switch_weapon_cycle (p : Player) :
  (Player.current_gun p < length (Player.guns p))%nat ->
  Nat.iter (length (Player.guns p)) (fun o => o ≫= Player.switch_weapon)
           (Some p) = Some p
  /\ exists p',
       Player.switch_weapon p = Some p'
       /\ (Player.current_gun p' < length (Player.guns p'))%nat
       /\ Player.guns p' = Player.guns p.
Proof.
  intros Hc. split.
  - rewrite switch_weapon_iter by exact Hc.
    rewrite <- (Nat.mul_1_l (length (Player.guns p))) at 1.
    rewrite Nat.Div0.mod_add, Nat.mod_small by exact Hc.
    now rewrite set_current_gun_same.
  - eexists. split; [apply switch_weapon_some; lia | ].
    rewrite set_current_gun_guns, set_current_gun_index.
    split; [ | reflexivity].
    apply Nat.mod_upper_bound. lia.
Qed.

Lemma switch_weapon_cycle_witness :
  Nat.iter 2 (fun o => o ≫= Player.switch_weapon) (Some (Player.init 0 0))
  = Some (Player.init 0 0).
Proof.
  apply (switch_weapon_cycle (Player.init 0 0)). cbn. lia.
Defined.



(** X10.  A player who is not dodging moves at [speed] in all eight
    directions, diagonals included, and stands still when the keys give
    no direction.  The length [speed] of the velocity is that of real
    arithmetic; the code normalises the direction in floating-point
    arithmetic, so it is stated to within one part in a thousand, for a
    speed of at least 1. *)
Theorem player_speed_limit (dt : R) (inputs : gmap string bool)
    (mouse_pos : R * R) (camera : Camera) (p : Player) :
  Player.is_dodging p = false ->
  1 <= Player.speed p ->
  (Vector2.x (Player.move_dir inputs) <> 0
   \/ Vector2.y (Player.move_dir inputs) <> 0 ->
   0.999 * Player.speed p
   <= Vector2.distance_to
        (Player.velocity (Player.update dt inputs mouse_pos camera p))
        (Vector2.mk 0 0)
   <= 1.001 * Player.speed p)
  /\ (Vector2.x (Player.move_dir inputs) = 0 ->
      Vector2.y (Player.move_dir inputs) = 0 ->
      Player.velocity (Player.update dt inputs mouse_pos camera p)
      = Vector2.mk 0 0).
Proof.
  intros Hdodge Hspeed. unfold Player.update. rewrite Hdodge.
  cbn [Player.velocity]. rewrite !scaled_length by lra.
  generalize (Player.move_dir inputs). intros dir.
  destruct (Reqb (Vector2.x dir) 0) eqn:Hx;
    destruct (Reqb (Vector2.y dir) 0) eqn:Hy; cbn [negb orb].
  - apply Reqb_true in Hx, Hy.
    assert (Hzero : dir = Vector2.mk 0 0) by (apply vector2_eq; cbn; lra).
    rewrite Hzero. split.
    + intros [H | H]; cbn in H; lra.
    + intros _ _. apply vector2_eq; cbn; ring.
  - assert (Hnz : Vector2.y dir <> 0).
    { intros H. apply Reqb_true in H. congruence. }
    rewrite unit_length by now right.
    split; [intros _; lra | intros _ H; contradiction].
  - assert (Hnz : Vector2.x dir <> 0).
    { intros H. apply Reqb_true in H. congruence. }
    rewrite unit_length by now left.
    split; [intros _; lra | intros H; contradiction].
  - assert (Hnz : Vector2.x dir <> 0).
    { intros H. apply Reqb_true in H. congruence. }
    rewrite unit_length by now left.
    split; [intros _; lra | intros H; contradiction].
Qed.

(** A new player, of speed 120, with the keys left and up held. *)
Lemma player_speed_limit_witness :
  0.999 * Player.speed (Player.init 0 0)
  <= Vector2.distance_to
       (Player.velocity
          (Player.update 0.016 (<["left" := true]> (<["up" := true]> ∅))
             (0, 0) Camera.init (Player.init 0 0)))
       (Vector2.mk 0 0)
  <= 1.001 * Player.speed (Player.init 0 0).
Proof.
  destruct (player_speed_limit 0.016
              (<["left" := true]> (<["up" := true]> ∅))
              (0, 0) Camera.init (Player.init 0 0)) as [Hmoving _].
  - reflexivity.
  - cbn. lra.
  - apply Hmoving. left. vm_compute. lra.
Defined.

End PlayerFacts.

(** ** Enemy *)
Section EnemyLifeFacts.

(** X11.  [Enemy.take_damage] reports a death exactly when the amount
    reaches the health; the health left is never negative, a hit that is
    not negative never raises it, and an enemy that has died dies again on
    every further hit that is not negative. *)
Theorem enemy_take_damage_dies (amount : Z) (e : Enemy) :
  (snd (Enemy.take_damage amount e) = true <-> Enemy.health e <= amount)
  /\ 0 <= Enemy.health (fst (Enemy.take_damage amount e))
  /\ (0 <= amount ->
      Enemy.health (fst (Enemy.take_damage amount e))
      <= Z.max 0 (Enemy.health e))
  /\ (forall amount' : Z,
        0 <= amount' ->
        snd (Enemy.take_damage amount e) = true ->
        snd (Enemy.take_damage amount' (fst (Enemy.take_damage amount e)))
        = true).
Proof.
  unfold Enemy.take_damage. cbn [fst snd Enemy.health Enemy.set_health].
  split; [ | split; [ | split]].
  - rewrite Z.leb_le. lia.
  - lia.
  - lia.
  - intros amount' Ha. rewrite !Z.leb_le. lia.
Qed.

End EnemyLifeFacts.

Section EnemyUpdateFacts.

Local Open Scope R_scope.

Ltac enemy_branches :=
  unfold Enemy.update, Enemy.move, Enemy.tick, Enemy.update_ai_behavior,
    Enemy.patrol_behavior, Enemy.rusher_behavior, Enemy.sniper_behavior,
    Enemy.smart_chase_behavior, Enemy.navigate_around_obstacles;
  cbn [Enemy.enemy_type Enemy.set_sight_blocked Enemy.set_state_timer
       Enemy.set_last_contact_damage Enemy.sight_blocked];
  repeat match goal with
         | |- context [match Enemy.enemy_type ?e with _ => _ end] =>
             destruct (Enemy.enemy_type e)
         | |- context [if ?c then _ else _] => destruct c
         end.

(** What [Enemy.update] leaves alone, and the timers it advances. *)
Lemma enemy_update_frame (d : Enemy.draws) (dt : R) (player_pos : Vector2)
    (walls : gset (Z * Z)) (e : Enemy) :
  let e' := Enemy.update d dt player_pos walls e in
  Enemy.eid e' = Enemy.eid e
  /\ Enemy.size e' = Enemy.size e
  /\ Enemy.health e' = Enemy.health e
  /\ Enemy.speed e' = Enemy.speed e
  /\ Enemy.fire_rate e' = Enemy.fire_rate e
  /\ Enemy.contact_damage e' = Enemy.contact_damage e
  /\ Enemy.contact_damage_cooldown e' = Enemy.contact_damage_cooldown e
  /\ Enemy.last_contact_damage e' = Enemy.last_contact_damage e + dt
  /\ Enemy.fire_timer e' = Enemy.fire_timer e + dt.
Proof.
  cbn zeta. enemy_branches; cbn; repeat split; reflexivity.
Qed.

(** X12.  Contact damage has a cooldown: an enemy that has just dealt
    contact damage deals none when asked again at once, none after an
    [update] shorter than the cooldown, and its full contact damage again
    after an [update] of at least the cooldown. *)
Theorem contact_damage_cooldown_window (d : Enemy.draws) (dt : R)
    (player_pos : Vector2) (walls : gset (Z * Z)) (e : Enemy) :
  0 < Enemy.contact_damage_cooldown e ->
  Enemy.can_contact_damage e = true ->
  snd (Enemy.deal_contact_damage e) = Enemy.contact_damage e
  /\ snd (Enemy.deal_contact_damage (fst (Enemy.deal_contact_damage e)))
     = 0%Z
  /\ (dt < Enemy.contact_damage_cooldown e ->
      snd (Enemy.deal_contact_damage
             (Enemy.update d dt player_pos walls
                (fst (Enemy.deal_contact_damage e)))) = 0%Z)
  /\ (Enemy.contact_damage_cooldown e <= dt ->
      snd (Enemy.deal_contact_damage
             (Enemy.update d dt player_pos walls
                (fst (Enemy.deal_contact_damage e))))
      = Enemy.contact_damage e).
Proof.
  intros Hcool Hcan.
  assert (Hfirst : Enemy.deal_contact_damage e
                   = (Enemy.set_last_contact_damage e 0,
                      Enemy.contact_damage e)).
  { unfold Enemy.deal_contact_damage. now rewrite Hcan. }
  rewrite Hfirst. cbn [fst snd].
  pose proof (enemy_update_frame d dt player_pos walls
                (Enemy.set_last_contact_damage e 0)) as Hframe.
  cbn zeta in Hframe.
  destruct Hframe as (_ & _ & _ & _ & _ & Hcd & Hcc & Hlast & _).
  cbn [Enemy.set_last_contact_damage Enemy.contact_damage
       Enemy.contact_damage_cooldown Enemy.last_contact_damage] in Hcd, Hcc, Hlast.
  split; [reflexivity | split; [ | split]].
  - unfold Enemy.deal_contact_damage, Enemy.can_contact_damage. cbn.
    now rewrite Rleb_false by lra.
  - intros Hdt. unfold Enemy.deal_contact_damage, Enemy.can_contact_damage.
    rewrite Hcc, Hlast. now rewrite Rleb_false by lra.
  - intros Hdt. unfold Enemy.deal_contact_damage, Enemy.can_contact_damage.
    rewrite Hcc, Hlast. rewrite Rleb_true by lra. exact Hcd.
Qed.

Lemma contact_damage_cooldown_window_witness :
  snd (Enemy.deal_contact_damage
         (fst (Enemy.deal_contact_damage
                 (Enemy.set_last_contact_damage
                    (Enemy.init 0 (Enemy.mk_draws 0 0 0) 0 0 Enemy.basic 1)
                    2)))) = 0%Z.
Proof.
  apply (contact_damage_cooldown_window (Enemy.mk_draws 0 0 0) 0
           (Vector2.mk 0 0) ∅
           (Enemy.set_last_contact_damage
              (Enemy.init 0 (Enemy.mk_draws 0 0 0) 0 0 Enemy.basic 1) 2)).
  - cbn. lra.
  - unfold Enemy.can_contact_damage. cbn. apply Rleb_true. lra.
Defined.

(** X13.  An enemy with a positive fire rate never fires twice without
    time passing: whatever the first call to [fire_at_player] did, a
    second call at once creates no bullet.  A call creates at most one
    bullet, and none while the line of sight is blocked. *)
Theorem enemy_fire_rate_limit (fresh fresh' : nat)
    (player_pos player_pos' : Vector2) (e : Enemy) :
  0 < Enemy.fire_rate e ->
  (length (snd (Enemy.fire_at_player fresh player_pos e)) <= 1)%nat
  /\ (Enemy.sight_blocked e = true ->
      Enemy.fire_at_player fresh player_pos e = (e, []))
  /\ snd (Enemy.fire_at_player fresh' player_pos'
            (fst (Enemy.fire_at_player fresh player_pos e))) = [].
Proof.
  intros Hrate.
  assert (Hpos : 0 < 1 / Enemy.fire_rate e).
  { apply Rdiv_lt_0_compat; lra. }
  unfold Enemy.fire_at_player at 1 2 4.
  split; [ | split].
  - destruct (Enemy.can_fire e); cbn; lia.
  - intros Hb. unfold Enemy.can_fire. rewrite Hb.
    now rewrite andb_false_r.
  - destruct (Enemy.can_fire e) eqn:Hcan; cbn [fst].
    + unfold Enemy.fire_at_player, Enemy.can_fire. cbn.
      now rewrite Rleb_false by lra.
    + unfold Enemy.fire_at_player. now rewrite Hcan.
Qed.

Lemma enemy_fire_rate_limit_witness :
  snd (Enemy.fire_at_player 2 (Vector2.mk 50 0)
         (fst (Enemy.fire_at_player 1 (Vector2.mk 50 0)
                 (Enemy.set_fire_timer
                    (Enemy.init 0 (Enemy.mk_draws 0 0 0) 0 0 Enemy.basic 1)
                    2)))) = [].
Proof.
  apply (enemy_fire_rate_limit 1 2 (Vector2.mk 50 0) (Vector2.mk 50 0)
           (Enemy.set_fire_timer
              (Enemy.init 0 (Enemy.mk_draws 0 0 0) 0 0 Enemy.basic 1) 2)).
  cbn. lra.
Defined.

End EnemyUpdateFacts.

Section SightMoreFacts.

Local Open Scope R_scope.


End SightMoreFacts.

(** ** Room *)
Section RoomTileFacts.

(** What one cell of an obstacle keeps: no tile is both wall and floor,
    the tiles covered stay the same, and no wall is removed. *)
Lemma obstacle_cell_kept (o : Room.obstacle_t)
    (tiles : gset (Z * Z) * gset (Z * Z)) (d : Z * Z) :
  (fst tiles ## snd tiles ->
   fst (Room.obstacle_cell o tiles d) ## snd (Room.obstacle_cell o tiles d))
  /\ fst (Room.obstacle_cell o tiles d) ∪ snd (Room.obstacle_cell o tiles d)
     = fst tiles ∪ snd tiles
  /\ fst tiles ⊆ fst (Room.obstacle_cell o tiles d).
Proof.
  destruct tiles as [walls floor_tiles]. unfold Room.obstacle_cell.
  destruct (Rlt_dec _ _); [ | cbn; split; [tauto | split; done]].
  destruct (bool_decide _) eqn:Hin; [ | cbn; split; [tauto | split; done]].
  apply bool_decide_eq_true in Hin. cbn [fst snd].
  split; [ | split; [ | apply union_subseteq_l]].
  { intros Hd t Ht Hf. apply elem_of_difference in Hf as [Hf Hne].
    apply elem_of_union in Ht as [Ht | Ht]; [exact (Hd t Ht Hf) | ].
    contradiction. }
  apply set_eq. intros t. rewrite !elem_of_union, elem_of_difference.
  rewrite elem_of_singleton.
  destruct (decide (t = (Room.ob_x o + d.1, Room.ob_y o + d.2))) as [-> | Hne];
    tauto.
Qed.

Lemma generate_room_kept (obstacles : list Room.obstacle_t)
    (tiles : gset (Z * Z) * gset (Z * Z)) :
  (fst tiles ## snd tiles ->
   fst (fold_left Room.place_obstacle obstacles tiles)
   ## snd (fold_left Room.place_obstacle obstacles tiles))
  /\ fst (fold_left Room.place_obstacle obstacles tiles)
     ∪ snd (fold_left Room.place_obstacle obstacles tiles)
     = fst tiles ∪ snd tiles
  /\ fst tiles ⊆ fst (fold_left Room.place_obstacle obstacles tiles).
Proof.
  revert tiles. induction obstacles as [ | o os IH]; intros tiles.
  - cbn. split; [tauto | split; done].
  - cbn [fold_left].
    destruct (IH (Room.place_obstacle tiles o)) as (IH1 & IH2 & IH3).
    assert (Hone :
      (fst tiles ## snd tiles ->
       fst (Room.place_obstacle tiles o) ## snd (Room.place_obstacle tiles o))
      /\ fst (Room.place_obstacle tiles o) ∪ snd (Room.place_obstacle tiles o)
         = fst tiles ∪ snd tiles
      /\ fst tiles ⊆ fst (Room.place_obstacle tiles o)).
    { unfold Room.place_obstacle. cbn [fold_left].
      destruct (obstacle_cell_kept o tiles (0, 0)) as (A1 & A2 & A3).
      destruct (obstacle_cell_kept o (Room.obstacle_cell o tiles (0, 0)) (0, 1))
        as (B1 & B2 & B3).
      destruct (obstacle_cell_kept o
                  (Room.obstacle_cell o (Room.obstacle_cell o tiles (0, 0))
                                      (0, 1)) (1, 0)) as (C1 & C2 & C3).
      destruct (obstacle_cell_kept o
                  (Room.obstacle_cell o
                     (Room.obstacle_cell o (Room.obstacle_cell o tiles (0, 0))
                                         (0, 1)) (1, 0)) (1, 1))
        as (D1 & D2 & D3).
      split; [tauto | split; [congruence | ]].
      etransitivity; [exact A3 | ].
      etransitivity; [exact B3 | ].
      etransitivity; [exact C3 | exact D3]. }
    destruct Hone as (H1 & H2 & H3).
    split; [tauto | split; [congruence | ]].
    etransitivity; [exact H3 | exact IH3].
Qed.

(** X16.  For a room between 7 and 1000 tiles wide and high and a level
    between 0 and 1000, whatever obstacles are drawn, [generate_room]
    leaves a room whose tiles are exactly the tiles of the [width] x
    [height] grid, each of them either wall or floor and never both,
    with every tile of the border a wall.  For a narrower or lower room,
    or a negative level, a call of [random.randint] raises
    [ValueError]. *)
Theorem generate_room_tiles (width height level : Z)
    (obstacles : list Room.obstacle_t) :
  width <= 1000 -> height <= 1000 -> level <= 1000 ->
  (7 <= width -> 7 <= height -> 0 <= level ->
   Room.possible_obstacles width height level obstacles ->
   exists walls floor_tiles : gset (Z * Z),
     Room.generate_room width height level obstacles
     = Some (walls, floor_tiles)
     /\ walls ## floor_tiles
     /\ (forall x y : Z,
           (x, y) ∈ walls ∪ floor_tiles
           <-> 0 <= x < width /\ 0 <= y < height)
     /\ (forall x y : Z,
           0 <= x < width -> 0 <= y < height ->
           x = 0 \/ x = width - 1 \/ y = 0 \/ y = height - 1 ->
           (x, y) ∈ walls))
  /\ (width < 7 \/ height < 7 \/ level < 0 ->
      Room.generate_room width height level obstacles = None).
Proof.
  intros _ _ _. split.
  - intros Hw Hh Hlevel _.
    exists (fst (fold_left Room.place_obstacle obstacles
                   (Room.perimeter_walls width height,
                    Room.interior_floor width height))),
           (snd (fold_left Room.place_obstacle obstacles
                   (Room.perimeter_walls width height,
                    Room.interior_floor width height))).
    destruct (generate_room_kept obstacles
                (Room.perimeter_walls width height,
                 Room.interior_floor width height)) as (H1 & H2 & H3).
    cbn [fst snd] in H1, H2, H3.
    split; [ | split; [ | split]].
    + unfold Room.generate_room, Room.spawn_enemies_defined,
        Room.randint_defined.
      assert (Hrange : (3 <=? 3 + Z.min (level * 2) 12) = true)
        by (apply Z.leb_le; lia).
      assert (Hx : (2 <=? width - 3) = true) by (apply Z.leb_le; lia).
      assert (Hy : (2 <=? height - 3) = true) by (apply Z.leb_le; lia).
      assert (Hn : (5 + Z.min (level - 1) 12 / 2
                    <=? 5 + Z.min (level - 1) 12 + 3) = true).
      { apply Z.leb_le.
        pose proof (Z.div_le_upper_bound (Z.min (level - 1) 12) 2
                      (Z.min (level - 1) 12 + 3)).
        pose proof (Z.mul_div_le (Z.min (level - 1) 12) 2).
        pose proof (Z.mod_pos_bound (Z.min (level - 1) 12) 2).
        pose proof (Z.div_mod (Z.min (level - 1) 12) 2).
        lia. }
      assert (Hsx : (3 <=? width - 4) = true) by (apply Z.leb_le; lia).
      assert (Hsy : (3 <=? height - 4) = true) by (apply Z.leb_le; lia).
      rewrite Hrange, Hx, Hy, Hn, Hsx, Hsy. cbn [negb andb].
      assert (Hall : forallb (fun _ : Room.obstacle_t => true) obstacles
                     = true).
      { clear. induction obstacles; [reflexivity | exact IHobstacles]. }
      rewrite Hall. cbn [negb]. now destruct (fold_left _ _ _).
    + apply H1. intros [x y] Hp Hf.
      apply elem_of_perimeter_walls in Hp. apply elem_of_interior_floor in Hf.
      lia.
    + intros x y. rewrite H2, elem_of_union, elem_of_perimeter_walls,
        elem_of_interior_floor. lia.
    + intros x y Hx Hy Hborder. apply H3, elem_of_perimeter_walls. lia.
  - intros Hsmall.
    unfold Room.generate_room, Room.spawn_enemies_defined,
      Room.randint_defined.
    destruct (3 <=? 3 + Z.min (level * 2) 12) eqn:Hrange; [ | reflexivity].
    cbn [negb]. destruct (forallb _ obstacles); [ | reflexivity].
    cbn [negb].
    apply Z.leb_le in Hrange.
    assert (Hpos : (3 <=? width - 4) = false \/ (3 <=? height - 4) = false).
    { destruct Hsmall as [H | [H | H]];
        [left; apply Z.leb_gt; lia | right; apply Z.leb_gt; lia | lia]. }
    destruct Hpos as [-> | ->]; rewrite ?andb_false_r; reflexivity.
Qed.

(** A room of the default size at level 1, with three obstacles. *)
Lemma generate_room_tiles_witness :
  Room.generate_room 25 20 1
    [Room.mk_obstacle 5 5 (fun _ _ => 0.5%R);
     Room.mk_obstacle 10 8 (fun _ _ => 0.9%R);
     Room.mk_obstacle 22 17 (fun _ _ => 0.1%R)] <> None.
Proof.
  destruct (generate_room_tiles 25 20 1
              [Room.mk_obstacle 5 5 (fun _ _ => 0.5%R);
               Room.mk_obstacle 10 8 (fun _ _ => 0.9%R);
               Room.mk_obstacle 22 17 (fun _ _ => 0.1%R)]) as [Hroom _];
    try lia.
  destruct Hroom as (walls & floor_tiles & Heq & _); try lia.
  - split; [cbn; lia | ].
    repeat constructor; cbn; lia.
  - rewrite Heq. discriminate.
Defined.

End RoomTileFacts.


Section RoomUpdateFacts.

Local Open Scope R_scope.

(** X17.  In a room wide and high enough for the entity,
    [validate_position] always leaves the entity inside the bounds of the
    room, at least [size / 2 + 2] from each edge. *)
Theorem validate_position_in_bounds (r : Room) (pos : Vector2) (size : R) :
  size / 2 + 2 <= IZR (Room.width r * 16) - (size / 2 + 2) ->
  size / 2 + 2 <= IZR (Room.height r * 16) - (size / 2 + 2) ->
  size / 2 + 2 <= Vector2.x (Room.validate_position r pos size)
               <= IZR (Room.width r * 16) - (size / 2 + 2)
  /\ size / 2 + 2 <= Vector2.y (Room.validate_position r pos size)
                  <= IZR (Room.height r * 16) - (size / 2 + 2).
Proof.
  intros Hw Hh.
  destruct (validate_position_clamped r pos size) as [q ->].
  unfold Room.clamp_pos. cbn [Vector2.x Vector2.y].
  split; now apply clamp_range.
Qed.

Lemma validate_position_in_bounds_witness :
  8 / 2 + 2
  <= Vector2.x (Room.validate_position Scenario.one_wall_room
                  (Vector2.mk (-50) 1000) 8)
  <= IZR (Room.width Scenario.one_wall_room * 16) - (8 / 2 + 2).
Proof.
  apply (validate_position_in_bounds Scenario.one_wall_room
           (Vector2.mk (-50) 1000) 8); real_arith.
Defined.

Lemma set_pos_same (e : Enemy) : Enemy.set_pos e (Enemy.pos e) = e.
Proof. now destruct e. Qed.

Lemma moved_only_refl (es : list Enemy) :
  Forall2 (fun e e' => e' = Enemy.set_pos e (Enemy.pos e')) es es.
Proof.
  induction es as [ | e es IH]; constructor;
    [now rewrite set_pos_same | exact IH].
Qed.

Lemma moved_only_insert (es es' : list Enemy) (i : nat) (e y : Enemy) :
  Forall2 (fun e e' => e' = Enemy.set_pos e (Enemy.pos e')) es es' ->
  es !! i = Some e ->
  y = Enemy.set_pos e (Enemy.pos y) ->
  Forall2 (fun e e' => e' = Enemy.set_pos e (Enemy.pos e')) es
          (<[i := y]> es').
Proof.
  intros Hall Hlook Hy.
  rewrite <- (list_insert_id es i e Hlook).
  now apply Forall2_insert.
Qed.

Lemma set_pos_moved (e e0 : Enemy) (q v : Vector2) :
  e0 = Enemy.set_pos e (Enemy.pos e0) ->
  Enemy.set_pos (Enemy.set_pos e0 q) v
  = Enemy.set_pos e (Enemy.pos (Enemy.set_pos (Enemy.set_pos e0 q) v)).
Proof.
  intros H. rewrite H. reflexivity.
Qed.

Lemma validate_enemy_moved (r : Room) (e e0 : Enemy) (q : Vector2) :
  e0 = Enemy.set_pos e (Enemy.pos e0) ->
  Room.validate_enemy_position r (Enemy.set_pos e0 q)
  = Enemy.set_pos e
      (Enemy.pos (Room.validate_enemy_position r (Enemy.set_pos e0 q))).
Proof.
  intros H. unfold Room.validate_enemy_position.
  apply set_pos_moved. exact H.
Qed.

Lemma separate_pair_moves (r : Room) (es es' : list Enemy) (ij : nat * nat) :
  Forall2 (fun e e' => e' = Enemy.set_pos e (Enemy.pos e')) es es' ->
  Forall2 (fun e e' => e' = Enemy.set_pos e (Enemy.pos e')) es
          (Room.separate_pair r es' ij).
Proof.
  intros Hall. unfold Room.separate_pair.
  destruct (es' !! ij.1) as [enemy1 | ] eqn:H1; [ | exact Hall].
  destruct (es' !! ij.2) as [enemy2 | ] eqn:H2; [ | exact Hall].
  destruct (_ && _); [ | exact Hall].
  destruct (Forall2_lookup_r _ _ _ _ _ Hall H1) as (e1 & He1 & Hr1).
  destruct (Forall2_lookup_r _ _ _ _ _ Hall H2) as (e2 & He2 & Hr2).
  apply (moved_only_insert _ _ _ e2); [ | exact He2 | ].
  - apply (moved_only_insert _ _ _ e1); [exact Hall | exact He1 | ].
    now apply validate_enemy_moved.
  - now apply validate_enemy_moved.
Qed.

Lemma separate_fold_moves (r : Room) (pairs : list (nat * nat))
    (es es' : list Enemy) :
  Forall2 (fun e e' => e' = Enemy.set_pos e (Enemy.pos e')) es es' ->
  Forall2 (fun e e' => e' = Enemy.set_pos e (Enemy.pos e')) es
          (fold_left (Room.separate_pair r) pairs es').
Proof.
  revert es'. induction pairs as [ | ij pairs IH]; intros es' Hall;
    [exact Hall | ].
  cbn [fold_left]. apply IH. now apply separate_pair_moves.
Qed.

Lemma separate_enemies_moves (r : Room) :
  Forall2 (fun e e' => e' = Enemy.set_pos e (Enemy.pos e'))
          (Room.enemies r) (Room.enemies (Room.separate_enemies r)).
Proof.
  unfold Room.separate_enemies. cbn [Room.enemies Room.set_enemies].
  apply separate_fold_moves, moved_only_refl.
Qed.

(** X18.  The separation step of [Room.update] only moves enemies: it
    keeps their number and their order, and each enemy keeps every
    attribute but its position. *)
Theorem separation_only_moves (r : Room) :
  length (Room.enemies (Room.separate_enemies r)) = length (Room.enemies r)
  /\ forall (i : nat) (e' : Enemy),
       Room.enemies (Room.separate_enemies r) !! i = Some e' ->
       exists e : Enemy,
         Room.enemies r !! i = Some e
         /\ e' = Enemy.set_pos e (Enemy.pos e').
Proof.
  pose proof (separate_enemies_moves r) as Hall. split.
  - symmetry. exact (Forall2_length _ _ _ Hall).
  - intros i e' Hlook.
    exact (Forall2_lookup_r _ _ _ _ _ Hall Hlook).
Qed.

Lemma ai_step_done (tape : nat -> Enemy.draws) (dt : R)
    (player_pos : Vector2) (walls : gset (Z * Z)) (st : Room.ai_t)
    (e : Enemy) :
  length (Room.ai_done (Room.ai_step tape dt player_pos walls st e))
  = S (length (Room.ai_done st)).
Proof.
  unfold Room.ai_step.
  destruct (Enemy_update_dyn _ _ _ _ _ _) as [e1 dropped].
  destruct (Enemy.fire_at_player _ _ _) as [e2 bullets].
  destruct (Enemy.boss e2);
    [destruct (Enemy_update_dyn _ _ _ _ _ _) as [e3 special] | ];
    cbn [Room.ai_done]; rewrite length_app; cbn; lia.
Qed.

Lemma ai_fold_done (tape : nat -> Enemy.draws) (dt : R)
    (player_pos : Vector2) (walls : gset (Z * Z)) (es : list Enemy)
    (st : Room.ai_t) :
  length (Room.ai_done
            (fold_left (Room.ai_step tape dt player_pos walls) es st))
  = (length (Room.ai_done st) + length es)%nat.
Proof.
  revert st. induction es as [ | e es IH]; intros st; cbn [fold_left length];
    [lia | ].
  rewrite IH, ai_step_done. lia.
Qed.

(** What [Room.update] keeps, and the flag it sets. *)
Lemma room_update_frame (tape : nat -> Enemy.draws) (fresh : nat)
    (dt : R) (player : Player) (r : Room) :
  length (Room.enemies (Room.update tape fresh dt player r))
  = length (Room.enemies r)
  /\ Room.walls (Room.update tape fresh dt player r) = Room.walls r
  /\ Room.floor_tiles (Room.update tape fresh dt player r)
     = Room.floor_tiles r
  /\ Room.width (Room.update tape fresh dt player r) = Room.width r
  /\ Room.height (Room.update tape fresh dt player r) = Room.height r
  /\ Room.cleared (Room.update tape fresh dt player r)
     = Room.cleared r || (length (Room.enemies r) =? 0)%nat.
Proof.
  unfold Room.update. cbv zeta.
  match goal with
  | |- context [Room.set_cleared ?x true] => set (r2 := x)
  end.
  assert (Hlen : length (Room.enemies r2) = length (Room.enemies r)).
  { subst r2.
    cbn [Room.enemies Room.set_enemy_bullets Room.set_player_bullets].
    rewrite <- (Forall2_length _ _ _ (separate_enemies_moves _)).
    cbn [Room.enemies Room.set_enemy_bullets Room.set_enemies].
    rewrite ai_fold_done. cbn [Room.ai_done length]. lia. }
  assert (Hwalls : Room.walls r2 = Room.walls r) by reflexivity.
  assert (Hfloor : Room.floor_tiles r2 = Room.floor_tiles r) by reflexivity.
  assert (Hwidth : Room.width r2 = Room.width r) by reflexivity.
  assert (Hheight : Room.height r2 = Room.height r) by reflexivity.
  assert (Hcleared : Room.cleared r2 = Room.cleared r) by reflexivity.
  clearbody r2. rewrite Hcleared, Hlen.
  destruct (Room.cleared r); cbn [negb andb orb];
    [repeat split; assumption | ].
  destruct (length (Room.enemies r) =? 0)%nat;
    cbn [Room.cleared Room.enemies Room.set_cleared Room.walls
         Room.floor_tiles Room.width Room.height];
    repeat split; assumption.
Qed.

(** X19.  [Room.update] never adds or removes an enemy and never touches
    the walls or the floor; afterwards the room is cleared exactly when
    it was cleared before or holds no enemy. *)
Theorem room_update_cleared (tape : nat -> Enemy.draws) (fresh : nat)
    (dt : R) (player : Player) (r : Room) :
  length (Room.enemies (Room.update tape fresh dt player r))
  = length (Room.enemies r)
  /\ Room.walls (Room.update tape fresh dt player r) = Room.walls r
  /\ Room.floor_tiles (Room.update tape fresh dt player r)
     = Room.floor_tiles r
  /\ Room.cleared (Room.update tape fresh dt player r)
     = Room.cleared r || (length (Room.enemies r) =? 0)%nat.
Proof.
  destruct (room_update_frame tape fresh dt player r)
    as (H1 & H2 & H3 & _ & _ & H4).
  repeat split; assumption.
Qed.

End RoomUpdateFacts.

(** ** Collisions *)
Section AccountingFacts.

Lemma rewards_succ (reward : nat -> Z) (n : nat) :
  rewards reward (S n) = rewards reward n + reward n.
Proof.
  unfold rewards. rewrite seq_S, map_app, fold_right_app.
  cbn [map fold_right Nat.add].
  generalize (map reward (seq 0 n)). intros l.
  induction l as [ | z l IH]; cbn [fold_right]; [lia | ].
  rewrite IH. lia.
Qed.

Lemma rewards_bounds (reward : nat -> Z) (n : nat) :
  (forall i, 2 <= reward i <= 8) ->
  2 * Z.of_nat n <= rewards reward n <= 8 * Z.of_nat n.
Proof.
  intros Hr. induction n as [ | n IH]; [cbn; lia | ].
  rewrite rewards_succ. specialize (Hr n). lia.
Qed.

Lemma store_enemy_length (e : Enemy) (es : list Enemy) :
  length (Collisions.store_enemy e es) = length es.
Proof. apply length_map. Qed.

Lemma store_enemy_eids (e : Enemy) (es : list Enemy) :
  map Enemy.eid (Collisions.store_enemy e es) = map Enemy.eid es.
Proof.
  unfold Collisions.store_enemy. rewrite map_map. apply map_ext.
  intros e0. destruct (Enemy.eid e0 =? Enemy.eid e)%nat eqn:Heq;
    [ | reflexivity].
  apply Nat.eqb_eq in Heq. congruence.
Qed.

Lemma remove_enemy_length (i : nat) (es : list Enemy) :
  In i (map Enemy.eid es) ->
  S (length (Collisions.remove_enemy i es)) = length es.
Proof.
  induction es as [ | e es IH]; cbn; [tauto | ].
  intros Hin. destruct (Enemy.eid e =? i)%nat eqn:Heq; [reflexivity | ].
  apply Nat.eqb_neq in Heq. cbn. f_equal. apply IH.
  destruct Hin as [Hin | Hin]; [contradiction | exact Hin].
Qed.

Lemma take_damage_money (amount : Z) (p : Player) :
  Player.money (fst (Player.take_damage amount p)) = Player.money p.
Proof.
  unfold Player.take_damage. now destruct (negb (Player.invulnerable p)).
Qed.

Lemma same_counters_refl (st : Collisions.t) : same_counters st st.
Proof. repeat split. Qed.

Lemma same_counters_trans (a b c : Collisions.t) :
  same_counters a b -> same_counters b c -> same_counters a c.
Proof.
  intros (A1 & A2 & A3 & A4) (B1 & B2 & B3 & B4).
  repeat split; congruence.
Qed.

Lemma fold_same_counters {A : Type} (f : Collisions.t -> A -> Collisions.t)
    (l : list A) :
  (forall st a, same_counters st (f st a)) ->
  forall st, same_counters st (fold_left f l st).
Proof.
  intros Hf. induction l as [ | a l IH]; intros st; cbn [fold_left];
    [apply same_counters_refl | ].
  eapply same_counters_trans; [apply Hf | apply IH].
Qed.

Lemma accounted_same (reward : nat -> Z) (game_kills : option Z)
    (money0 : Z) (enemies0 : nat) (st st' : Collisions.t) :
  same_counters st st' ->
  accounted reward game_kills money0 enemies0 st ->
  accounted reward game_kills money0 enemies0 st'.
Proof.
  intros (S1 & S2 & S3 & S4) (A1 & A2 & A3).
  unfold accounted. rewrite S1, S2, S3, S4. repeat split; assumption.
Qed.

(** A hit either kills nobody or kills one enemy and pays one reward. *)
Lemma resolve_hit_counts (reward : nat -> Z) (st : Collisions.t)
    (bullet : Bullet) (enemy : Enemy) :
  In enemy (Room.enemies (Collisions.room st)) ->
  same_counters st (Collisions.resolve_hit reward st bullet enemy)
  \/ (Collisions.draws (Collisions.resolve_hit reward st bullet enemy)
      = S (Collisions.draws st)
      /\ Collisions.kills (Collisions.resolve_hit reward st bullet enemy)
         = option_map (fun k => k + 1) (Collisions.kills st)
      /\ Player.money
           (Collisions.player (Collisions.resolve_hit reward st bullet enemy))
         = Player.money (Collisions.player st)
           + reward (Collisions.draws st)
      /\ S (length (Room.enemies
                      (Collisions.room
                         (Collisions.resolve_hit reward st bullet enemy))))
         = length (Room.enemies (Collisions.room st))).
Proof.
  intros Hin. unfold same_counters, Collisions.resolve_hit, Enemy.take_damage.
  destruct (_ <=? 0)%Z.
  - right. cbn. split; [reflexivity | split; [reflexivity | ]].
    split; [reflexivity | ].
    rewrite remove_enemy_length; [apply store_enemy_length | ].
    rewrite store_enemy_eids. now apply in_map.
  - left. cbn. split; [reflexivity | split; [reflexivity | ]].
    split; [reflexivity | apply store_enemy_length].
Qed.

Lemma enemies_loop_counts (reward : nat -> Z) (bullet : Bullet)
    (snapshot : list Enemy) (st : Collisions.t) :
  (forall e, In e snapshot -> In e (Room.enemies (Collisions.room st))) ->
  same_counters st (Collisions.enemies_loop reward bullet snapshot st)
  \/ (Collisions.draws (Collisions.enemies_loop reward bullet snapshot st)
      = S (Collisions.draws st)
      /\ Collisions.kills (Collisions.enemies_loop reward bullet snapshot st)
         = option_map (fun k => k + 1) (Collisions.kills st)
      /\ Player.money
           (Collisions.player
              (Collisions.enemies_loop reward bullet snapshot st))
         = Player.money (Collisions.player st)
           + reward (Collisions.draws st)
      /\ S (length (Room.enemies
                      (Collisions.room
                         (Collisions.enemies_loop reward bullet snapshot st))))
         = length (Room.enemies (Collisions.room st))).
Proof.
  induction snapshot as [ | e es IH]; intros Hsub; cbn [Collisions.enemies_loop].
  - left. apply same_counters_refl.
  - destruct (Collisions.hit bullet e).
    + apply resolve_hit_counts, Hsub. now left.
    + apply IH. intros e0 He0. apply Hsub. now right.
Qed.

Lemma bullet_vs_enemies_accounted (reward : nat -> Z)
    (game_kills : option Z) (money0 : Z) (enemies0 : nat)
    (st : Collisions.t) (bullet : Bullet) :
  accounted reward game_kills money0 enemies0 st ->
  accounted reward game_kills money0 enemies0
            (Collisions.bullet_vs_enemies reward st bullet)
  /\ (Collisions.draws (Collisions.bullet_vs_enemies reward st bullet)
      <= S (Collisions.draws st))%nat.
Proof.
  intros Hacc. unfold Collisions.bullet_vs_enemies.
  destruct (enemies_loop_counts reward bullet
              (Room.enemies (Collisions.room st)) st (fun e H => H))
    as [Hsame | (H1 & H2 & H3 & H4)].
  - split; [now apply (accounted_same _ _ _ _ st) | ].
    destruct Hsame as (-> & _). lia.
  - split; [ | lia]. destruct Hacc as (A1 & A2 & A3).
    unfold accounted. rewrite H1, H2, H3, A1, A2, rewards_succ.
    split; [ | split; [lia | lia]].
    destruct game_kills as [k | ]; cbn; [f_equal; lia | reflexivity].
Qed.

Lemma player_bullets_fold_accounted (reward : nat -> Z)
    (game_kills : option Z) (money0 : Z) (enemies0 : nat)
    (bullets : list Bullet) (st : Collisions.t) :
  accounted reward game_kills money0 enemies0 st ->
  accounted reward game_kills money0 enemies0
            (fold_left (Collisions.bullet_vs_enemies reward) bullets st)
  /\ (Collisions.draws
        (fold_left (Collisions.bullet_vs_enemies reward) bullets st)
      <= Collisions.draws st + length bullets)%nat.
Proof.
  revert st. induction bullets as [ | b bs IH]; intros st Hacc;
    cbn [fold_left length]; [split; [exact Hacc | lia] | ].
  destruct (bullet_vs_enemies_accounted reward game_kills money0 enemies0
              st b Hacc) as [Hacc' Hle].
  destruct (IH _ Hacc') as [Hacc'' Hle'].
  split; [exact Hacc'' | lia].
Qed.

Lemma bullet_vs_player_same (st : Collisions.t) (bullet : Bullet) :
  same_counters st (Collisions.bullet_vs_player st bullet).
Proof.
  unfold Collisions.bullet_vs_player.
  destruct (Rltb _ _); [ | apply same_counters_refl].
  unfold same_counters. cbn [Collisions.draws Collisions.kills
    Collisions.player Collisions.room Room.enemies Room.set_enemy_bullets].
  rewrite take_damage_money. repeat split.
Qed.

Lemma contact_same (st : Collisions.t) (enemy : Enemy) :
  same_counters st (Collisions.contact st enemy).
Proof.
  unfold Collisions.contact.
  destruct (_ && _); [ | apply same_counters_refl].
  destruct (Enemy.deal_contact_damage enemy) as [enemy' contact_damage].
  destruct (0 <? contact_damage);
    unfold same_counters;
    cbn [Collisions.draws Collisions.kills Collisions.player Collisions.room
         Room.enemies Room.set_enemies Player.money Player.set_pos];
    rewrite ?take_damage_money, store_enemy_length; repeat split.
Qed.

Lemma player_bullet_vs_wall_same (st : Collisions.t) (bullet : Bullet) :
  same_counters st (Collisions.player_bullet_vs_wall st bullet).
Proof.
  unfold Collisions.player_bullet_vs_wall.
  destruct (Collisions.in_wall _ _); repeat split.
Qed.

Lemma enemy_bullet_vs_wall_same (st : Collisions.t) (bullet : Bullet) :
  same_counters st (Collisions.enemy_bullet_vs_wall st bullet).
Proof.
  unfold Collisions.enemy_bullet_vs_wall.
  destruct (Collisions.in_wall _ _); repeat split.
Qed.

Lemma check_collisions_accounted (reward : nat -> Z) (r : Room) (p : Player)
    (game_kills : option Z) :
  accounted reward game_kills (Player.money p) (length (Room.enemies r))
            (Collisions.check_collisions reward r p game_kills)
  /\ (Collisions.draws (Collisions.check_collisions reward r p game_kills)
      <= length (Room.player_bullets r))%nat.
Proof.
  unfold Collisions.check_collisions, Collisions.player_bullets_phase.
  cbv zeta. cbn [Collisions.room].
  destruct (player_bullets_fold_accounted reward game_kills (Player.money p)
              (length (Room.enemies r)) (Room.player_bullets r)
              (Collisions.mk r p game_kills 0 [])) as [Hacc Hle].
  { unfold accounted. cbn. split; [ | split; [lia | lia]].
    destruct game_kills as [k | ]; cbn; [f_equal; lia | reflexivity]. }
  cbn [Collisions.draws] in Hle.
  set (st1 := fold_left (Collisions.bullet_vs_enemies reward) _ _) in *.
  assert (Hsame : same_counters st1
            (Collisions.check_collisions reward r p game_kills)).
  { unfold Collisions.check_collisions, Collisions.player_bullets_phase.
    cbv zeta. cbn [Collisions.room]. fold st1.
    eapply same_counters_trans;
      [ | apply fold_same_counters, enemy_bullet_vs_wall_same].
    eapply same_counters_trans;
      [ | apply fold_same_counters, player_bullet_vs_wall_same].
    eapply same_counters_trans;
      [apply (fold_same_counters Collisions.bullet_vs_player
                (Room.enemy_bullets (Collisions.room st1))
                bullet_vs_player_same st1) | ].
    destruct (negb _); [ | apply same_counters_refl].
    apply fold_same_counters, contact_same. }
  unfold Collisions.check_collisions, Collisions.player_bullets_phase in Hsame.
  cbv zeta in Hsame. cbn [Collisions.room] in Hsame. fold st1 in Hsame.
  split; [exact (accounted_same _ _ _ _ _ _ Hsame Hacc) | ].
  destruct Hsame as (-> & _). lia.
Qed.

(** X20.  The books of [check_collisions] balance: the kill count grows
    by the number of rewards drawn, every kill removes exactly one enemy
    from the room and pays between 2 and 8 coins, and a call kills at most
    one enemy per player bullet. *)
Theorem kill_accounting (reward : nat -> Z) (r : Room) (p : Player)
    (k : Z) :
  (forall i, 2 <= reward i <= 8) ->
  let st := Collisions.check_collisions reward r p (Some k) in
  Collisions.kills st = Some (k + Z.of_nat (Collisions.draws st))
  /\ (length (Room.enemies (Collisions.room st)) + Collisions.draws st
      = length (Room.enemies r))%nat
  /\ (Collisions.draws st <= length (Room.player_bullets r))%nat
  /\ Player.money p + 2 * Z.of_nat (Collisions.draws st)
     <= Player.money (Collisions.player st)
     <= Player.money p + 8 * Z.of_nat (Collisions.draws st).
Proof.
  intros Hreward st.
  destruct (check_collisions_accounted reward r p (Some k))
    as [(H1 & H2 & H3) Hle].
  fold st in H1, H2, H3, Hle.
  split; [exact H1 | split; [exact H3 | split; [exact Hle | ]]].
  rewrite H2. pose proof (rewards_bounds reward (Collisions.draws st) Hreward).
  lia.
Qed.

(** In [last_shot_room] the bullet kills the first enemy: one reward is
    drawn. *)
Lemma last_shot_kills :
  Collisions.draws
    (Collisions.check_collisions (fun _ => 5) Scenario.last_shot_room
       (Scenario.player_at 300 200 false false) (Some 0)) = 1%nat.
Proof.
  unfold Collisions.check_collisions.
  assert (Hfirst :
    Collisions.player_bullets_phase (fun _ => 5%Z)
      (Collisions.mk Scenario.last_shot_room
         (Scenario.player_at 300 200 false false) (Some 0) 0 [])
    = Collisions.mk
        (Room.set_enemies Scenario.open_room [Scenario.basic_enemy 1 102 100])
        (Player.set_money (Scenario.player_at 300 200 false false) 5)
        (Some 1) 1 [(7%nat, 0%nat)]).
  { unfold Collisions.player_bullets_phase.
    change (Room.player_bullets (Collisions.room _))
      with [Bullet.mk 7 (Vector2.mk 100 100) (Vector2.mk 200 0) 8 4 5 0].
    cbn [fold_left]. unfold Collisions.bullet_vs_enemies.
    change (Room.enemies (Collisions.room _))
      with [Enemy.set_health (Scenario.basic_enemy 0 100 100) 5;
            Scenario.basic_enemy 1 102 100].
    cbn [Collisions.enemies_loop].
    change (Collisions.hit _ (Enemy.set_health _ 5))
      with (Collisions.hit
              (Bullet.mk 7 (Vector2.mk 100 100) (Vector2.mk 200 0) 8 4 5 0)
              (Scenario.basic_enemy 0 100 100)).
    rewrite shooting_first_enemy_hit.
    reflexivity. }
  rewrite Hfirst.
  cbn [Collisions.room Collisions.player Scenario.open_room
       Scenario.bordered_room Room.set_enemies Room.enemy_bullets
       Room.player_bullets Room.enemies fold_left Scenario.player_at
       Player.set_money Player.invulnerable negb].
  unfold Collisions.contact.
  cbn [Collisions.player Collisions.room Enemy.pos Enemy.size Player.pos
       Player.size Scenario.basic_enemy Enemy.init].
  rewrite !far_from_player by lra.
  reflexivity.
Qed.

(** The kill in [last_shot_room]: one reward drawn, one kill counted. *)
Lemma kill_accounting_witness :
  Collisions.draws
    (Collisions.check_collisions (fun _ => 5) Scenario.last_shot_room
       (Scenario.player_at 300 200 false false) (Some 0)) = 1%nat
  /\ Collisions.kills
       (Collisions.check_collisions (fun _ => 5) Scenario.last_shot_room
          (Scenario.player_at 300 200 false false) (Some 0))
     = Some (0 + Z.of_nat
                   (Collisions.draws
                      (Collisions.check_collisions (fun _ => 5)
                         Scenario.last_shot_room
                         (Scenario.player_at 300 200 false false) (Some 0))))
  /\ (length
        (Room.enemies
           (Collisions.room
              (Collisions.check_collisions (fun _ => 5%Z)
                 Scenario.last_shot_room
                 (Scenario.player_at 300 200 false false) (Some 0%Z))))
      + Collisions.draws
          (Collisions.check_collisions (fun _ => 5%Z) Scenario.last_shot_room
             (Scenario.player_at 300 200 false false) (Some 0%Z))
      = 2)%nat.
Proof.
  split; [exact last_shot_kills | ].
  destruct (kill_accounting (fun _ => 5) Scenario.last_shot_room
              (Scenario.player_at 300 200 false false) 0) as (H1 & H2 & _).
  - intros i. lia.
  - split; [exact H1 | exact H2].
Defined.

End AccountingFacts.

(** ** Boss, BossRoom and HazardRoom *)
Section BossFacts.

Local Open Scope R_scope.

Lemma enemy_update_boss (d : Enemy.draws) (dt : R) (player_pos : Vector2)
    (walls : gset (Z * Z)) (e : Enemy) :
  Enemy.boss (Enemy.update d dt player_pos walls e) = Enemy.boss e.
Proof.
  unfold Enemy.update, Enemy.move, Enemy.tick, Enemy.update_ai_behavior,
    Enemy.patrol_behavior, Enemy.rusher_behavior, Enemy.sniper_behavior,
    Enemy.smart_chase_behavior, Enemy.navigate_around_obstacles.
  cbn [Enemy.enemy_type Enemy.set_sight_blocked Enemy.set_state_timer
       Enemy.set_last_contact_damage Enemy.sight_blocked].
  repeat match goal with
         | |- context [match Enemy.enemy_type ?e with _ => _ end] =>
             destruct (Enemy.enemy_type e)
         | |- context [if ?c then _ else _] => destruct c
         end; reflexivity.
Qed.

Lemma fire_at_player_boss (fresh : nat) (player_pos : Vector2) (e : Enemy) :
  Enemy.boss (fst (Enemy.fire_at_player fresh player_pos e)) = Enemy.boss e
  /\ (length (snd (Enemy.fire_at_player fresh player_pos e)) <= 1)%nat.
Proof.
  unfold Enemy.fire_at_player. destruct (Enemy.can_fire e); cbn; auto.
Qed.

(** The step of the first loop of [Room.update] for a boss whose special
    attack falls due in the first of the two calls to [update]. *)
Lemma boss_step_due (tape : nat -> Enemy.draws) (dt : R)
    (player_pos : Vector2) (walls : gset (Z * Z)) (st : Room.ai_t)
    (e : Enemy) (b : Enemy.boss_t) :
  Enemy.boss e = Some b ->
  Enemy.special_attack_cooldown b <= Enemy.special_attack_timer b + dt ->
  dt < Enemy.special_attack_cooldown b ->
  exists (e' : Enemy) (bullets : list Bullet) (calls fresh : nat),
    Room.ai_step tape dt player_pos walls st e
    = Room.mk_ai (Room.ai_done st ++ [e'])
                 (Room.ai_bullets st ++ bullets ++ []) calls fresh
    /\ (length bullets <= 1)%nat
    /\ Enemy.boss e'
       = Some (Enemy.mk_boss (Enemy.phase b) (0 + dt)
                             (Enemy.special_attack_cooldown b)).
Proof.
  intros Hboss Hdue Hdt. unfold Room.ai_step, Enemy_update_dyn at 1.
  rewrite Hboss. unfold Boss.update at 1.
  destruct (Rle_dec _ _) as [_ | Hno]; [ | lra].
  set (e1 := Enemy.set_boss _ _).
  set (fresh1 := (Room.ai_fresh st + _)%nat).
  destruct (fire_at_player_boss fresh1 player_pos e1) as [Hb Hlen].
  destruct (Enemy.fire_at_player fresh1 player_pos e1) as [e2 bullets].
  cbn [fst snd] in Hb, Hlen. subst e1. cbn [Enemy.boss Enemy.set_boss] in Hb.
  rewrite Hb. unfold Enemy_update_dyn. rewrite Hb. unfold Boss.update.
  cbn [Enemy.special_attack_timer Enemy.special_attack_cooldown Enemy.phase].
  destruct (Rle_dec _ _) as [Hyes | _]; [lra | ].
  eexists _, bullets, _, _. split; [reflexivity | ].
  split; [exact Hlen | reflexivity].
Qed.

(** X21.  [Room.update] calls [update] twice on a boss and keeps only the
    bullets of the second call: when the special attack falls due in the
    first call, its timer is reset but its burst never reaches the room,
    so at most the one bullet of [fire_at_player] is added. *)
Theorem boss_burst_lost (tape : nat -> Enemy.draws) (dt : R)
    (player_pos : Vector2) (walls : gset (Z * Z)) (st : Room.ai_t)
    (e : Enemy) (b : Enemy.boss_t) :
  Enemy.boss e = Some b ->
  Enemy.special_attack_cooldown b <= Enemy.special_attack_timer b + dt ->
  dt < Enemy.special_attack_cooldown b ->
  (length (Room.ai_bullets (Room.ai_step tape dt player_pos walls st e))
   <= length (Room.ai_bullets st) + 1)%nat
  /\ exists e' : Enemy,
       Room.ai_done (Room.ai_step tape dt player_pos walls st e)
       = Room.ai_done st ++ [e']
       /\ Enemy.boss e'
          = Some (Enemy.mk_boss (Enemy.phase b) dt
                                (Enemy.special_attack_cooldown b)).
Proof.
  intros Hboss Hdue Hdt.
  destruct (boss_step_due tape dt player_pos walls st e b Hboss Hdue Hdt)
    as (e' & bullets & calls & fresh & -> & Hlen & Hb).
  cbn [Room.ai_bullets Room.ai_done]. split.
  - rewrite !length_app. cbn [length]. lia.
  - exists e'. split; [reflexivity | ].
    rewrite Hb. f_equal. f_equal. lra.
Qed.

Lemma boss_burst_lost_witness :
  (length
     (Room.ai_bullets
        (Room.ai_step (fun _ => Enemy.mk_draws 0 0 0) 0.016
           (Vector2.mk 100 100) ∅ (Room.mk_ai [] [] 0 0)
           (Enemy.set_boss (Boss.init 0 (Enemy.mk_draws 0 0 0) 240 200 1)
              (Some (Enemy.mk_boss 1 4.99 5)))))
   <= length (Room.ai_bullets (Room.mk_ai [] [] 0 0)) + 1)%nat.
Proof.
  apply (boss_burst_lost (fun _ => Enemy.mk_draws 0 0 0) 0.016
           (Vector2.mk 100 100) ∅ (Room.mk_ai [] [] 0 0)
           (Enemy.set_boss (Boss.init 0 (Enemy.mk_draws 0 0 0) 240 200 1)
              (Some (Enemy.mk_boss 1 4.99 5)))
           (Enemy.mk_boss 1 4.99 5)).
  - reflexivity.
  - cbn. lra.
  - cbn. lra.
Defined.

(** [spawn_boss] replaces whatever enemies the room holds by one
    boss with [200 + 50 * level] health, and a second call changes
    nothing. *)
Theorem spawn_boss_once (d d' : Enemy.draws) (fresh fresh' : nat)
    (b : BossRoom) :
  BossRoom.spawn_boss d' fresh' (BossRoom.spawn_boss d fresh b)
  = BossRoom.spawn_boss d fresh b
  /\ (BossRoom.boss_spawned b = false ->
      exists the_boss : Enemy,
        Room.enemies (BossRoom.base (BossRoom.spawn_boss d fresh b))
        = [the_boss]
        /\ Enemy.eid the_boss = fresh
        /\ BossRoom.boss (BossRoom.spawn_boss d fresh b) = Some fresh
        /\ Enemy.boss the_boss <> None
        /\ Enemy.health the_boss
           = (200 + Room.level (BossRoom.base b) * 50)%Z).
Proof.
  unfold BossRoom.spawn_boss. split.
  - destruct (BossRoom.boss_spawned b) eqn:Hs; cbn [negb];
      [now rewrite Hs | reflexivity].
  - intros ->. cbn [negb]. eexists. split; [reflexivity | ].
    cbn. repeat split. discriminate.
Qed.

(** X22.  The challenge of a hazard room, once complete, stays complete;
    [HazardRoom.update] completes it only when the room holds no enemy
    and the player stands in the end area. *)
Theorem hazard_challenge_latch (tape : nat -> Enemy.draws) (fresh : nat)
    (dt : R) (player : Player) (h : HazardRoom) :
  (HazardRoom.challenge_complete h = true ->
   HazardRoom.challenge_complete (HazardRoom.update tape fresh dt player h)
   = true)
  /\ (HazardRoom.challenge_complete (HazardRoom.update tape fresh dt player h)
      = true ->
      HazardRoom.challenge_complete h = true
      \/ (Room.enemies (HazardRoom.base h) = []
          /\ (Room.width (HazardRoom.base h) - 6
              <= tile_of (Vector2.x (Player.pos player)))%Z
          /\ (Room.height (HazardRoom.base h) - 5
              <= tile_of (Vector2.y (Player.pos player)))%Z)).
Proof.
  unfold HazardRoom.update. cbn [HazardRoom.challenge_complete].
  destruct (room_update_frame tape fresh dt player (HazardRoom.base h))
    as (Hlen & _ & _ & Hw & Hh & _).
  rewrite Hlen, Hw, Hh.
  destruct (HazardRoom.challenge_complete h); cbn [negb];
    [split; auto | ].
  split; [discriminate | ].
  intros H. right.
  apply andb_prop in H as [H H3]. apply andb_prop in H as [H1 H2].
  apply Z.leb_le in H1, H2. apply Nat.eqb_eq in H3.
  split; [now destruct (Room.enemies (HazardRoom.base h)) | split; assumption].
Qed.

End BossFacts.

(** ** Door, Camera and Shop *)
Section DoorMoreFacts.

Local Open Scope R_scope.



End DoorMoreFacts.

Section ShopFacts.

Lemma apply_item_effect_money (p : Player) (item : Shop.item_t) :
  Player.money (Shop.apply_item_effect p item) = Player.money p.
Proof.
  unfold Shop.apply_item_effect. now destruct (Shop.effect item).
Qed.

Lemma apply_item_effect_health (p : Player) (item : Shop.item_t) :
  Player.health p <= Player.max_health p ->
  Player.health (Shop.apply_item_effect p item)
  <= Player.max_health (Shop.apply_item_effect p item).
Proof.
  intros Hle. unfold Shop.apply_item_effect.
  destruct (Shop.effect item); cbn; lia.
Qed.

(** X25.  [buy_item] charges exactly the price of the item: a purchase
    that fails (no such item, or not enough money) leaves the player as
    they were, a purchase that succeeds takes the price from the money,
    and the money never becomes negative. *)
Theorem buy_item_money (s : Shop.t) (p : Player) (item_index : nat) :
  (snd (Shop.buy_item s p item_index) = false ->
   fst (Shop.buy_item s p item_index) = p)
  /\ (snd (Shop.buy_item s p item_index) = true ->
      exists item : Shop.item_t,
        Shop.items s !! item_index = Some item
        /\ Shop.price item <= Player.money p
        /\ Player.money (fst (Shop.buy_item s p item_index))
           = Player.money p - Shop.price item)
  /\ (0 <= Player.money p ->
      0 <= Player.money (fst (Shop.buy_item s p item_index)))
  /\ ((length (Shop.items s) <= item_index)%nat ->
      Shop.buy_item s p item_index = (p, false)).
Proof.
  unfold Shop.buy_item.
  destruct (Shop.items s !! item_index) as [item | ] eqn:Hlook.
  - destruct (Shop.price item <=? Player.money p) eqn:Hprice;
      cbn [fst snd].
    + apply Z.leb_le in Hprice. rewrite apply_item_effect_money.
      cbn [Player.money Player.set_money].
      split; [discriminate | split; [ | split]].
      * intros _. exists item. repeat split. exact Hprice.
      * intros _. lia.
      * intros Hlen. apply lookup_lt_Some in Hlook. lia.
    + split; [reflexivity | split; [discriminate | split; [auto | ]]].
      reflexivity.
  - cbn [fst snd].
    split; [reflexivity | split; [discriminate | split; [auto | ]]].
    reflexivity.
Qed.

(** X26.  No purchase breaks the bound of the health: a player whose
    health is at most the maximum health before [buy_item] has health at
    most the maximum health afterwards, whatever the item. *)
Theorem buy_item_health_bound (s : Shop.t) (p : Player) (item_index : nat) :
  Player.health p <= Player.max_health p ->
  Player.health (fst (Shop.buy_item s p item_index))
  <= Player.max_health (fst (Shop.buy_item s p item_index)).
Proof.
  intros Hle. unfold Shop.buy_item.
  destruct (Shop.items s !! item_index) as [item | ]; [ | exact Hle].
  destruct (Shop.price item <=? Player.money p); [ | exact Hle].
  cbn [fst]. now apply apply_item_effect_health.
Qed.

Lemma buy_item_health_bound_witness :
  Player.health
    (fst (Shop.buy_item Shop.init
            (Player.set_money (Player.init 0 0) 100) 4))
  <= Player.max_health
       (fst (Shop.buy_item Shop.init
               (Player.set_money (Player.init 0 0) 100) 4)).
Proof.
  apply (buy_item_health_bound Shop.init
           (Player.set_money (Player.init 0 0) 100) 4).
  cbn. lia.
Defined.

Lemma refill_gun_cases (value : Z) (g : Gun) :
  (Gun.ammo g <= 0 -> Shop.refill_gun value g = g)
  /\ (0 < Gun.ammo g ->
      Gun.ammo (Shop.refill_gun value g) = Z.min (Gun.ammo g + value) 99
      /\ Gun.damage (Shop.refill_gun value g) = Gun.damage g
      /\ Gun.name (Shop.refill_gun value g) = Gun.name g).
Proof.
  unfold Shop.refill_gun. destruct (0 <? Gun.ammo g) eqn:Hpos.
  - apply Z.ltb_lt in Hpos. split; [lia | ]. intros _. cbn. auto.
  - apply Z.ltb_ge in Hpos. split; [reflexivity | lia].
Qed.

(** X27.  An ammunition item never refills a gun that has run out: for
    every gun of the player, a gun with no ammunition left (and a gun
    with unlimited ammunition, whose count is -1) is left as it is, and a
    gun with ammunition left gets the value of the item, up to 99. *)
Theorem ammo_item_refill (p : Player) (item : Shop.item_t) (value : Z) :
  Shop.effect item = Shop.ammo value ->
  length (Player.guns (Shop.apply_item_effect p item))
  = length (Player.guns p)
  /\ forall (i : nat) (g : Gun),
       Player.guns p !! i = Some g ->
       exists g' : Gun,
         Player.guns (Shop.apply_item_effect p item) !! i = Some g'
         /\ (Gun.ammo g <= 0 -> g' = g)
         /\ (0 < Gun.ammo g ->
             Gun.ammo g' = Z.min (Gun.ammo g + value) 99).
Proof.
  intros Heff. unfold Shop.apply_item_effect. rewrite Heff.
  cbn [Player.guns Player.set_guns]. split; [apply length_map | ].
  intros i g Hlook. exists (Shop.refill_gun value g).
  split.
  - change (map (Shop.refill_gun value) (Player.guns p))
      with (Shop.refill_gun value <$> Player.guns p).
    rewrite list_lookup_fmap, Hlook. reflexivity.
  - destruct (refill_gun_cases value g) as [H0 H1].
    split; [exact H0 | ]. intros Hpos. now destruct (H1 Hpos).
Qed.

Lemma ammo_item_refill_witness :
  length (Player.guns
            (Shop.apply_item_effect (Player.init 0 0)
               (Shop.mk_item "Ammo Pack" 15 "Refill shotgun ammo"
                             (Shop.ammo 50))))
  = length (Player.guns (Player.init 0 0)).
Proof.
  apply (ammo_item_refill (Player.init 0 0)
           (Shop.mk_item "Ammo Pack" 15 "Refill shotgun ammo" (Shop.ammo 50))
           50).
  reflexivity.
Defined.

End ShopFacts.

(** ** MultiRoomSystem *)
Section LayoutFacts.

Ltac by_level level :=
  unfold MultiRoomSystem.generate_doors;
  unfold MultiRoomSystem.room_configs, MultiRoomSystem.door_pairs,
    MultiRoomSystem.initial_total_rooms;
  destruct (level =? 1); [ | destruct (level =? 2); [ | destruct (level =? 3)]].

(** X28.  The rooms of every level form one consistent graph: the room
    identifiers are pairwise different, every connection leads to a room
    of the level and is listed in both directions, every door joins two
    connected rooms, and [total_rooms] is the number of rooms that are
    not the boss room. *)
Theorem room_graph_consistent (level : Z) :
  NoDup (MultiRoomSystem.id <$> MultiRoomSystem.room_configs level)
  /\ Forall
       (fun c =>
          Forall
            (fun r =>
               Exists
                 (fun c' =>
                    MultiRoomSystem.id c' = r
                    /\ MultiRoomSystem.id c
                       ∈ MultiRoomSystem.connections c')
                 (MultiRoomSystem.room_configs level))
            (MultiRoomSystem.connections c))
       (MultiRoomSystem.room_configs level)
  /\ Forall
       (fun rr =>
          Exists
            (fun c =>
               MultiRoomSystem.id c = fst rr
               /\ snd rr ∈ MultiRoomSystem.connections c)
            (MultiRoomSystem.room_configs level))
       (MultiRoomSystem.door_pairs level)
  /\ MultiRoomSystem.initial_total_rooms level
     = Z.of_nat
         (length
            (List.filter
               (fun c =>
                  match MultiRoomSystem.type c with
                  | MultiRoomSystem.boss => false
                  | _ => true
                  end)
               (MultiRoomSystem.room_configs level))).
Proof.
  by_level level;
    (split; [ | split; [ | split; [ | reflexivity]]]);
    match goal with
    | |- ?P => apply (bool_decide_unpack P); vm_compute; exact I
    end.
Qed.

(** The room that [check_room_transitions] computes from the identifier
    of a generated door is never a room of the level. *)
Lemma door_target_generated (level : Z) (door_id current : string) :
  door_id ∈ fst <$> MultiRoomSystem.generate_doors level ->
  exists target : string,
    MultiRoomSystem.door_target door_id current = Some target
    /\ (target ∉ MultiRoomSystem.id <$> MultiRoomSystem.room_configs level).
Proof.
  by_level level; cbn [map fmap list_fmap fst snd]; intros Hin;
    repeat (apply elem_of_cons in Hin as [-> | Hin]);
    try (now apply elem_of_nil in Hin);
    unfold MultiRoomSystem.door_target;
    match goal with
    | |- context [MultiRoomSystem.split_once ?x] =>
        let v := eval vm_compute in (MultiRoomSystem.split_once x) in
        change (MultiRoomSystem.split_once x) with v
    end; cbv iota beta;
    match goal with
    | |- context [String.prefix ?a ?b] =>
        let v := eval vm_compute in (String.prefix a b) in
        change (String.prefix a b) with v
    end; cbv iota beta;
    try match goal with
    | |- context [MultiRoomSystem.split_once ?x] =>
        let v := eval vm_compute in (MultiRoomSystem.split_once x) in
        change (MultiRoomSystem.split_once x) with v
    end; cbv iota beta;
    (destruct (String.eqb current _);
     eexists; (split; [reflexivity | ]);
     match goal with
     | |- ?x ∉ ?l => apply (bool_decide_unpack (x ∉ l)); vm_compute; exact I
     end).
Qed.

Lemma check_door_generated (level : Z) (s : MultiRoomSystem) (p : Player)
    (d : string * Door) :
  fst d ∈ fst <$> MultiRoomSystem.generate_doors level ->
  dom (MultiRoomSystem.rooms s)
  ⊆ list_to_set (MultiRoomSystem.id <$> MultiRoomSystem.room_configs level) ->
  MultiRoomSystem.check_door (s, p) d = Some (s, p).
Proof.
  intros Hid Hrooms. destruct d as [door_id door]. cbn [fst] in Hid.
  unfold MultiRoomSystem.check_door.
  destruct (Door.can_pass_through door); [ | reflexivity].
  destruct (Door.get_collision_rect door); [reflexivity | ].
  destruct (Rltb _ _); [ | reflexivity].
  destruct (door_target_generated level door_id
              (MultiRoomSystem.current_room_id (fst (s, p))) Hid)
    as (target & -> & Hnot).
  rewrite bool_decide_eq_false_2; [reflexivity | ].
  intros Hsome. apply Hnot.
  apply (elem_of_list_to_set (C := gset string)), Hrooms.
  now apply elem_of_dom.
Qed.

(** X29.  With the doors and the rooms that the level generator creates,
    [check_room_transitions] never moves the player to another room,
    however open the doors are and wherever the player stands: the room
    it computes from a door identifier is never a room of the level. *)
Theorem doors_never_transition (level : Z) (s : MultiRoomSystem)
    (p : Player) :
  Forall (fun d => fst d ∈ fst <$> MultiRoomSystem.generate_doors level)
         (MultiRoomSystem.doors s) ->
  dom (MultiRoomSystem.rooms s)
  ⊆ list_to_set (MultiRoomSystem.id <$> MultiRoomSystem.room_configs level) ->
  MultiRoomSystem.check_room_transitions (s, p) = Some (s, p).
Proof.
  intros Hdoors Hrooms. unfold MultiRoomSystem.check_room_transitions.
  cbn [fst]. induction Hdoors as [ | d ds Hd _ IH];
    cbn [MultiRoomSystem.check_doors]; [reflexivity | ].
  now rewrite (check_door_generated level s p d Hd Hrooms).
Qed.

Lemma doors_never_transition_witness :
  MultiRoomSystem.check_room_transitions
    (MultiRoomSystem.set_doors (Scenario.level1_system false ∅ false)
       [("room_1_room_2",
         Door.update 1 true (Door.init 384 160 Door.horizontal))],
     Scenario.player_at 400 168 false false)
  = Some
      (MultiRoomSystem.set_doors (Scenario.level1_system false ∅ false)
         [("room_1_room_2",
           Door.update 1 true (Door.init 384 160 Door.horizontal))],
       Scenario.player_at 400 168 false false).
Proof.
  apply (doors_never_transition 1).
  - repeat constructor.
  - match goal with
    | |- ?P => apply (bool_decide_unpack P); vm_compute; exact I
    end.
Defined.

End LayoutFacts.

Section ClearedFacts.

Variable spawn_enemy_wave :
  Z -> Room -> MultiRoomSystem.wave_t -> list Enemy.

Lemma handle_enemy_waves_cleared (s s' : MultiRoomSystem) :
  MultiRoomSystem.handle_enemy_waves spawn_enemy_wave s = Some s' ->
  MultiRoomSystem.current_room_id s' = MultiRoomSystem.current_room_id s
  /\ (MultiRoomSystem.rooms_cleared s' = MultiRoomSystem.rooms_cleared s
      \/ MultiRoomSystem.rooms_cleared s'
         = {[ MultiRoomSystem.current_room_id s ]}
           ∪ MultiRoomSystem.rooms_cleared s).
Proof.
  unfold MultiRoomSystem.handle_enemy_waves. cbn zeta.
  repeat
    match goal with
    | |- None = Some _ -> _ => discriminate
    | |- Some _ = Some _ -> _ => intros [= <-]; cbn; auto
    | |- context [match ?x with _ => _ end] => destruct x eqn:?
    end.
Qed.

Lemma room_logic_cleared (s s' : MultiRoomSystem) :
  MultiRoomSystem.room_logic spawn_enemy_wave s = Some s' ->
  MultiRoomSystem.current_room_id s' = MultiRoomSystem.current_room_id s
  /\ (MultiRoomSystem.rooms_cleared s' = MultiRoomSystem.rooms_cleared s
      \/ (MultiRoomSystem.rooms_cleared s'
          = {[ MultiRoomSystem.current_room_id s ]}
            ∪ MultiRoomSystem.rooms_cleared s
          /\ ((exists h, MultiRoomSystem.get_current_room s
                         = Some (MultiRoomSystem.Hazard h))
              \/ MultiRoomSystem.current_room_id s <> "boss_room"))).
Proof.
  unfold MultiRoomSystem.room_logic.
  destruct (MultiRoomSystem.get_current_room s) as [[r | h | b] | ] eqn:Hroom;
    try discriminate.
  - destruct (negb _) eqn:Hid; [ | intros [= <-]; auto].
    intros H. apply handle_enemy_waves_cleared in H as [H1 [H2 | H2]];
      (split; [exact H1 | ]); [now left | right].
    split; [exact H2 | right]. intros Heq. rewrite Heq in Hid. discriminate.
  - destruct (_ && _); intros [= <-]; cbn; [ | auto].
    split; [reflexivity | right]. split; [reflexivity | left]. now exists h.
  - destruct (negb _) eqn:Hid; [ | intros [= <-]; auto].
    intros H. apply handle_enemy_waves_cleared in H as [H1 [H2 | H2]];
      (split; [exact H1 | ]); [now left | right].
    split; [exact H2 | right]. intros Heq. rewrite Heq in Hid. discriminate.
Qed.

Lemma check_doors_cleared (ds : list (string * Door))
    (sp sp' : MultiRoomSystem * Player) :
  MultiRoomSystem.check_doors ds sp = Some sp' ->
  MultiRoomSystem.rooms_cleared (fst sp')
  = MultiRoomSystem.rooms_cleared (fst sp).
Proof.
  revert sp. induction ds as [ | d ds IH]; intros sp;
    cbn [MultiRoomSystem.check_doors].
  - now intros [= <-].
  - destruct (MultiRoomSystem.check_door sp d) as [sp1 | ] eqn:Hd;
      [ | discriminate].
    intros H. rewrite (IH _ H). clear H IH.
    unfold MultiRoomSystem.check_door in Hd. destruct d as [door_id door].
    destruct (Door.can_pass_through door); [ | now injection Hd as <-].
    destruct (Door.get_collision_rect door); [now injection Hd as <- | ].
    destruct (Rltb _ _); [ | now injection Hd as <-].
    destruct (MultiRoomSystem.door_target _ _); [ | discriminate].
    destruct (bool_decide _); injection Hd as <-; [ | reflexivity].
    destruct sp as [sys pl]. unfold MultiRoomSystem.transition_to_room.
    now destruct (negb _).
Qed.

(** X30.  An [update] never removes a room from [rooms_cleared], and the
    only room it can add is the current one; the room with the
    identifier [boss_room] is added only if it is a hazard room. *)
Theorem rooms_cleared_grows (tape : nat -> Enemy.draws) (fresh : nat)
    (dt : R) (sp sp' : MultiRoomSystem * Player) :
  MultiRoomSystem.update spawn_enemy_wave tape fresh dt sp = Some sp' ->
  MultiRoomSystem.rooms_cleared (fst sp)
  ⊆ MultiRoomSystem.rooms_cleared (fst sp')
  /\ MultiRoomSystem.rooms_cleared (fst sp')
     ⊆ {[ MultiRoomSystem.current_room_id (fst sp) ]}
       ∪ MultiRoomSystem.rooms_cleared (fst sp)
  /\ (MultiRoomSystem.current_room_id (fst sp) = "boss_room" ->
      (forall h, MultiRoomSystem.get_current_room (fst sp)
                 <> Some (MultiRoomSystem.Hazard h)) ->
      MultiRoomSystem.rooms_cleared (fst sp')
      = MultiRoomSystem.rooms_cleared (fst sp)).
Proof.
  destruct sp as [s p]. unfold MultiRoomSystem.update.
  destruct (MultiRoomSystem.get_current_room s) as [current_room | ] eqn:Hroom;
    [ | discriminate].
  destruct (MultiRoomSystem.room_logic _ _) as [s1 | ] eqn:Hlogic;
    [ | discriminate].
  destruct (MultiRoomSystem.check_room_transitions _) as [[s2 p2] | ] eqn:Hdoors;
    [ | discriminate].
  intros [= <-]. cbn [fst].
  apply room_logic_cleared in Hlogic.
  apply check_doors_cleared in Hdoors. cbn [fst] in Hdoors.
  assert (Htele : MultiRoomSystem.rooms_cleared
                    (MultiRoomSystem.check_teleporter s2)
                  = MultiRoomSystem.rooms_cleared s2).
  { unfold MultiRoomSystem.check_teleporter. now destruct (_ && _). }
  rewrite Htele, Hdoors. clear Htele Hdoors.
  cbn [MultiRoomSystem.current_room_id MultiRoomSystem.rooms_cleared
       MultiRoomSystem.set_doors MultiRoomSystem.set_rooms] in Hlogic.
  destruct Hlogic as [_ [-> | [-> Hwhy]]].
  - split; [reflexivity | split; [apply union_subseteq_r | reflexivity]].
  - split; [apply union_subseteq_r | split; [reflexivity | ]].
    intros Hboss Hnot. exfalso.
    destruct Hwhy as [[h Hh] | Hne]; [ | contradiction].
    unfold MultiRoomSystem.get_current_room in Hh, Hroom.
    cbn [MultiRoomSystem.current_room_id MultiRoomSystem.rooms
         MultiRoomSystem.set_doors MultiRoomSystem.set_rooms] in Hh.
    rewrite lookup_insert_eq in Hh. injection Hh as Hh.
    apply (Hnot match current_room with
                | MultiRoomSystem.Hazard h0 => h0
                | _ => h
                end).
    unfold MultiRoomSystem.get_current_room. rewrite Hroom.
    destruct current_room; cbn in Hh; try discriminate. reflexivity.
Qed.

End ClearedFacts.

Lemma rooms_cleared_grows_witness :
  MultiRoomSystem.rooms_cleared
    (fst (Scenario.level1_system false Scenario.all_rooms false,
          Scenario.player_at 200 200 false false))
  ⊆ MultiRoomSystem.rooms_cleared
      (fst (Scenario.level1_system true Scenario.all_rooms
              (false || (3 <=? Z.of_nat (size Scenario.all_rooms))),
            Scenario.player_at 200 200 false false)).
Proof.
  apply (rooms_cleared_grows Scenario.no_spawn
           (fun _ => Enemy.mk_draws 0 0 0) 0 0.016
           (Scenario.level1_system false Scenario.all_rooms false,
            Scenario.player_at 200 200 false false)
           (Scenario.level1_system true Scenario.all_rooms
              (false || (3 <=? Z.of_nat (size Scenario.all_rooms))),
            Scenario.player_at 200 200 false false)).
  apply level1_tick.
Defined.
